(** * Block device disk management (diskdevs): a shallow embedding

    The registry of disk devices of the RTEMS block device layer: the
    two-level table indexed by major and minor number, the descriptors it
    points to, their use counts, and the operations that create, obtain,
    release, delete and enumerate descriptors.

    The C code works on a global table of pointers to heap-allocated
    descriptors.  The embedding keeps that shape: the table is carried by
    value (it is reachable through the single global [disktab] only), the
    descriptors live in a store indexed by address, because they are aliased
    by table slots, by the [phys_dev] field of other descriptors and by the
    references handed out to callers.  Undefined behaviour of the C code
    (reading past an array, following a null or dangling pointer) is a
    [Fault] of the embedding. *)

From stdpp Require Import gmap strings list.

Local Open Scope Z_scope.

(** ** Machine integers *)

(** [uint32_t] arithmetic wraps around. *)
Definition u32 (z : Z) : Z := z mod 2 ^ 32.

(** [dev_t] arithmetic (64 bits) wraps around. *)
Definition u64 (z : Z) : Z := z mod 2 ^ 64.

(** Modelled from the spec: the macro [rtems_filesystem_split_dev_t] is
    declared outside the sources at hand.  A device identifier is a pair
    (major, minor) of 32-bit unsigned numbers, ordered first by major and
    then by minor; the 64-bit [dev_t] holds the major number in its upper
    half and the minor number in its lower half. *)
Definition rtems_filesystem_split_dev_t (dev : Z) : Z * Z :=
  (u32 (dev / 2 ^ 32), u32 dev).

Definition rtems_filesystem_make_dev_t (major minor : Z) : Z :=
  major * 2 ^ 32 + minor.

Definition DISKTAB_INITIAL_SIZE : Z := 8.

Definition RTEMS_ID_NONE : Z := 0.

(** ** Status codes *)

Inductive rtems_status_code :=
  | RTEMS_SUCCESSFUL
  | RTEMS_NO_MEMORY
  | RTEMS_NOT_CONFIGURED
  | RTEMS_INVALID_ID
  | RTEMS_INVALID_NUMBER
  | RTEMS_INVALID_ADDRESS
  | RTEMS_RESOURCE_IN_USE
  | RTEMS_UNSATISFIED.

Global Instance rtems_status_code_eq_dec : EqDecision rtems_status_code.
Proof. solve_decision. Defined.

(** ** Data *)

(** Addresses of descriptors; a null pointer is [None] of [option ptr]. *)
Abbreviation ptr := positive.

(** Modelled from the spec: [rtems_disk_device] is declared in a header
    outside the sources at hand; the fields are the ones the code reads and
    writes.  The I/O control handler is a function pointer, kept as an
    opaque number ([None] is the null handler). *)
Record rtems_disk_device := mk_disk_device {
  dd_dev : Z;
  dd_phys_dev : option ptr;
  dd_capabilities : Z;
  dd_name : option string;
  dd_uses : Z;
  dd_start : Z;
  dd_size : Z;
  dd_block_size : Z;
  dd_media_block_size : Z;
  dd_ioctl : option Z;
  dd_driver_data : Z;
  dd_deleted : bool
}.

Definition set_uses (u : Z) (d : rtems_disk_device) : rtems_disk_device :=
  mk_disk_device (dd_dev d) (dd_phys_dev d) (dd_capabilities d) (dd_name d) u
    (dd_start d) (dd_size d) (dd_block_size d) (dd_media_block_size d)
    (dd_ioctl d) (dd_driver_data d) (dd_deleted d).

Definition set_deleted (b : bool) (d : rtems_disk_device) : rtems_disk_device :=
  mk_disk_device (dd_dev d) (dd_phys_dev d) (dd_capabilities d) (dd_name d)
    (dd_uses d) (dd_start d) (dd_size d) (dd_block_size d)
    (dd_media_block_size d) (dd_ioctl d) (dd_driver_data d) b.

(** Table of disk devices having the same major number: the minor-indexed
    array (null until the first device of that major number is created) and
    the number of entries recorded for it. *)
Record rtems_disk_device_table := mk_table {
  dt_minor : option (list (option ptr));
  dt_size : Z
}.

(** What [memset (.., 0, ..)] leaves in an entry of the outer table. *)
Definition zero_table : rtems_disk_device_table := mk_table None 0.

(** The global pointer [disktab]: null, an allocated array, or the stale
    address of an array that has been freed. *)
Inductive table_ref :=
  | TabNull
  | TabLive (t : list rtems_disk_device_table)
  | TabFreed.

(** Calls that reach the collaborators of the registry, whatever the
    collaborator answers. *)
Inductive ioctl_request := RTEMS_BLKDEV_CAPABILITIES | RTEMS_BLKIO_DELETED.

Inductive event :=
  | EvRegisterName (name : string) (major minor : Z)
  | EvUnlink (name : string)
  | EvIoctl (handler : option Z) (dd : ptr) (req : ioctl_request)
  | EvBdbufInit.

(** The registry: the file's static variables, the descriptors on the heap,
    the semaphores that exist in the kernel, and the calls made so far to
    the naming service, the drivers and the buffer cache. *)
Record registry := mk_registry {
  disktab : table_ref;
  disktab_size : Z;
  diskdevs_mutex : Z;
  diskdevs_protected : bool;
  heap : gmap ptr rtems_disk_device;
  semaphores : gset Z;
  trace : list event
}.

Definition set_disktab (t : table_ref) (st : registry) : registry :=
  mk_registry t (disktab_size st) (diskdevs_mutex st) (diskdevs_protected st)
    (heap st) (semaphores st) (trace st).

Definition set_disktab_size (n : Z) (st : registry) : registry :=
  mk_registry (disktab st) n (diskdevs_mutex st) (diskdevs_protected st)
    (heap st) (semaphores st) (trace st).

Definition set_mutex (id : Z) (st : registry) : registry :=
  mk_registry (disktab st) (disktab_size st) id (diskdevs_protected st)
    (heap st) (semaphores st) (trace st).

Definition set_protected (b : bool) (st : registry) : registry :=
  mk_registry (disktab st) (disktab_size st) (diskdevs_mutex st) b
    (heap st) (semaphores st) (trace st).

Definition set_heap (h : gmap ptr rtems_disk_device) (st : registry) : registry :=
  mk_registry (disktab st) (disktab_size st) (diskdevs_mutex st)
    (diskdevs_protected st) h (semaphores st) (trace st).

Definition set_semaphores (s : gset Z) (st : registry) : registry :=
  mk_registry (disktab st) (disktab_size st) (diskdevs_mutex st)
    (diskdevs_protected st) (heap st) s (trace st).

Definition log_event (e : event) (st : registry) : registry :=
  mk_registry (disktab st) (disktab_size st) (diskdevs_mutex st)
    (diskdevs_protected st) (heap st) (semaphores st) (trace st ++ [e]).

(** The state before [rtems_disk_io_initialize]: zeroed static storage. *)
Definition boot (sems : gset Z) : registry :=
  mk_registry TabNull 0 0 false ∅ sems [].

(** What the surroundings decide during one call: whether the allocator
    and the collaborators (the naming service, the semaphore manager, the
    buffer cache) succeed, and what the driver answers to the capability
    query, as the pair of its return code and the flags it stores. *)
Record environment := mk_environment {
  realloc_major_ok : bool;
  realloc_minor_ok : bool;
  malloc_ok : bool;
  strdup_ok : bool;
  register_name_ok : bool;
  ioctl_capabilities : Z * Z;
  calloc_ok : bool;
  semaphore_create_ok : bool;
  bdbuf_init_ok : bool
}.

(** An environment in which nothing fails; the driver reports no
    capability. *)
Definition fair_weather : environment :=
  mk_environment true true true true true (0, 0) true true true.

(** ** Results and faults *)

Inductive fault :=
  | NullDeref
  | OutOfBounds
  | UseAfterFree
  | FatalError
  | OutOfFuel.

Inductive result (A : Type) :=
  | Ok (a : A)
  | Fault (f : fault).
Arguments Ok {A} a.
Arguments Fault {A} f.

Global Instance result_ret : MRet result := fun A a => Ok a.
Global Instance result_bind : MBind result := fun A B k m =>
  match m with
  | Ok a => k a
  | Fault f => Fault f
  end.

(** ** Memory accesses *)

(** [disktab != NULL]: a stale address compares different from null. *)
Definition tab_not_null (t : table_ref) : bool :=
  match t with
  | TabNull => false
  | _ => true
  end.

(** [p != NULL] for a pointer kept as an option. *)
Definition not_null {A : Type} (p : option A) : bool :=
  match p with
  | None => false
  | Some _ => true
  end.

(** [disktab [major]], that is [*(disktab + major)]. *)
Definition read_dtab (st : registry) (major : Z)
  : result rtems_disk_device_table :=
  match disktab st with
  | TabNull => Fault NullDeref
  | TabFreed => Fault UseAfterFree
  | TabLive t =>
      match t !! Z.to_nat major with
      | Some dtab => Ok dtab
      | None => Fault OutOfBounds
      end
  end.

(** [dtab->minor [minor]]. *)
Definition read_slot (dtab : rtems_disk_device_table) (minor : Z)
  : result (option ptr) :=
  match dt_minor dtab with
  | None => Fault NullDeref
  | Some a =>
      match a !! Z.to_nat minor with
      | Some slot => Ok slot
      | None => Fault OutOfBounds
      end
  end.

(** [disktab [major].minor [minor] = v]. *)
Definition write_slot (st : registry) (major minor : Z) (v : option ptr)
  : result registry :=
  match disktab st with
  | TabNull => Fault NullDeref
  | TabFreed => Fault UseAfterFree
  | TabLive t =>
      match t !! Z.to_nat major with
      | None => Fault OutOfBounds
      | Some dtab =>
          match dt_minor dtab with
          | None => Fault NullDeref
          | Some a =>
              if decide (Z.to_nat minor < length a)%nat then
                Ok (set_disktab
                      (TabLive (<[Z.to_nat major :=
                         mk_table (Some (<[Z.to_nat minor := v]> a))
                           (dt_size dtab)]> t)) st)
              else Fault OutOfBounds
          end
      end
  end.

(** [*p] for a descriptor pointer known not to be null. *)
Definition deref (st : registry) (p : ptr) : result rtems_disk_device :=
  match heap st !! p with
  | Some d => Ok d
  | None => Fault UseAfterFree
  end.

(** [*p] for a pointer that may be null. *)
Definition deref_opt (st : registry) (p : option ptr)
  : result (ptr * rtems_disk_device) :=
  match p with
  | None => Fault NullDeref
  | Some q => d ← deref st q; Ok (q, d)
  end.

(** [*p = d]. *)
Definition store (p : ptr) (d : rtems_disk_device) (st : registry)
  : registry :=
  set_heap (<[p := d]> (heap st)) st.

(** ** The lock *)

(** Modelled from the spec: the semaphore directives are outside the
    sources at hand.  In a run without other threads, obtaining the mutex
    succeeds exactly when the semaphore it names exists, and so does
    releasing it. *)

Definition disk_lock (st : registry) : rtems_status_code * registry :=
  if decide (diskdevs_mutex st ∈ semaphores st) then
    (RTEMS_SUCCESSFUL, set_protected true st)
  else (RTEMS_NOT_CONFIGURED, st).

Definition disk_unlock (st : registry) : result registry :=
  let st := set_protected false st in
  if decide (diskdevs_mutex st ∈ semaphores st) then Ok st
  else Fault FatalError.

(** ** Lookup *)

Definition get_disk_entry (dev : Z) (st : registry)
  : result (option ptr * registry) :=
  let '(major, minor) := rtems_filesystem_split_dev_t dev in
  if bool_decide (major < disktab_size st)
     && tab_not_null (disktab st) then
    dtab ← read_dtab st major;
    if bool_decide (minor < dt_size dtab)
       && not_null (dt_minor dtab) then
      slot ← read_slot dtab minor;
      match slot with
      | None => Ok (None, st)
      | Some p =>
          dd ← deref st p;
          if dd_deleted dd then Ok (None, st)
          else Ok (Some p, store p (set_uses (u32 (dd_uses dd + 1)) dd) st)
      end
    else Ok (None, st)
  else Ok (None, st).

(** ** Growing the table *)

(** [realloc] of an array recorded with [old_size] entries to [new_size]
    entries, followed by the [memset] that zeroes the entries from
    [old_size] on. *)
Definition grow {A : Type} (old_size new_size : Z) (zero : A) (l : list A)
  : list A :=
  take (Z.to_nat old_size) l ++ replicate (Z.to_nat (new_size - old_size)) zero.

(** [disktab [major] = dtab]. *)
Definition write_dtab (st : registry) (major : Z)
    (dtab : rtems_disk_device_table) : result registry :=
  match disktab st with
  | TabNull => Fault NullDeref
  | TabFreed => Fault UseAfterFree
  | TabLive t =>
      if decide (Z.to_nat major < length t)%nat then
        Ok (set_disktab (TabLive (<[Z.to_nat major := dtab]> t)) st)
      else Fault OutOfBounds
  end.

(** The first half of [create_disk_table_entry]: make room for [major] in
    the outer table.  [None] stands for the early [return NULL]. *)
Definition grow_major (env : environment) (major : Z) (st : registry)
  : result (option registry) :=
  if bool_decide (major >= disktab_size st) then
    let old_size := disktab_size st in
    let new_size := u32 (2 * old_size) in
    let new_size :=
      if bool_decide (major >= new_size) then u32 (major + 1) else new_size in
    match disktab st with
    | TabFreed => Fault UseAfterFree
    | TabNull | TabLive _ =>
        let table := match disktab st with TabLive t => t | _ => [] end in
        if realloc_major_ok env then
          if bool_decide (new_size < old_size) then Fault OutOfBounds
          else
            Ok (Some (set_disktab_size new_size
                        (set_disktab
                           (TabLive (grow old_size new_size zero_table table))
                           st)))
        else Ok None
    end
  else Ok (Some st).

(** The second half: make room for [minor] in the table of [major]. *)
Definition grow_minor (env : environment) (major minor : Z) (st : registry)
  : result (option registry) :=
  dtab ← read_dtab st major;
  if negb (not_null (dt_minor dtab)) || bool_decide (minor >= dt_size dtab)
  then
    let table := match dt_minor dtab with Some a => a | None => [] end in
    let old_size := dt_size dtab in
    let new_size :=
      if bool_decide (old_size = 0) then DISKTAB_INITIAL_SIZE
      else u32 (2 * old_size) in
    let new_size :=
      if bool_decide (minor >= new_size) then u32 (minor + 1) else new_size in
    if realloc_minor_ok env then
      if bool_decide (new_size < old_size) then Fault OutOfBounds
      else
        st' ← write_dtab st major
                (mk_table (Some (grow old_size new_size None table)) new_size);
        Ok (Some st')
    else Ok None
  else Ok (Some st).

(** The result is the address of the slot, given by its two indices, or
    [None] for a null result; the registry is returned as the call leaves
    it, grown or not. *)
Definition create_disk_table_entry (env : environment) (dev : Z)
    (st : registry) : result (option (Z * Z) * registry) :=
  let '(major, minor) := rtems_filesystem_split_dev_t dev in
  r ← grow_major env major st;
  match r with
  | None => Ok (None, st)
  | Some st1 =>
      r ← grow_minor env major minor st1;
      match r with
      | None => Ok (None, st1)
      | Some st2 => Ok (Some (major, minor), st2)
      end
  end.

(** ** Creation *)

(** A block fresh from [malloc], with the four fields [create_disk] sets.
    The other fields hold whatever [malloc] left there, which zero and null
    stand for; the callers write them all, except the capabilities of a
    logical disk. *)
Definition fresh_disk_device (dev : Z) (name : option string)
  : rtems_disk_device :=
  mk_disk_device dev None 0 name 0 0 0 0 0 None 0 false.

Definition create_disk (env : environment) (dev : Z) (name : option string)
    (st : registry) : result (rtems_status_code * option ptr * registry) :=
  '(dd_entry, st) ← create_disk_table_entry env dev st;
  match dd_entry with
  | None => Ok (RTEMS_NO_MEMORY, None, st)
  | Some (major, minor) =>
      dtab ← read_dtab st major;
      slot ← read_slot dtab minor;
      match slot with
      | Some _ => Ok (RTEMS_RESOURCE_IN_USE, None, st)
      | None =>
          if negb (malloc_ok env) then Ok (RTEMS_NO_MEMORY, None, st)
          else if not_null name && negb (strdup_ok env) then
            Ok (RTEMS_NO_MEMORY, None, st)
          else
            (* [rtems_io_register_name] is called for every name, whatever
               it answers *)
            let st :=
              match name with
              | Some n => log_event (EvRegisterName n major minor) st
              | None => st
              end in
            if not_null name && negb (register_name_ok env) then
              Ok (RTEMS_UNSATISFIED, None, st)
            else
              (* [malloc] returns an address that is not in use *)
              let dd := fresh (dom (heap st)) in
              let st := store dd (fresh_disk_device dev name) st in
              st ← write_slot st major minor (Some dd);
              Ok (RTEMS_SUCCESSFUL, Some dd, st)
      end
  end.

Definition rtems_disk_create_phys (env : environment) (dev : Z)
    (block_size block_count : Z) (handler : option Z) (driver_data : Z)
    (name : option string) (st : registry)
  : result (rtems_status_code * registry) :=
  if negb (not_null handler) then Ok (RTEMS_INVALID_ADDRESS, st)
  else if bool_decide (block_size = 0) then Ok (RTEMS_INVALID_NUMBER, st)
  else
    let '(sc, st) := disk_lock st in
    if bool_decide (sc ≠ RTEMS_SUCCESSFUL) then Ok (sc, st)
    else
      '(sc, dd, st) ← create_disk env dev name st;
      if bool_decide (sc ≠ RTEMS_SUCCESSFUL) then
        st ← disk_unlock st; Ok (sc, st)
      else
        '(p, d) ← deref_opt st dd;
        let d :=
          mk_disk_device (dd_dev d) (Some p) (dd_capabilities d) (dd_name d)
            (dd_uses d) 0 block_count block_size block_size handler
            driver_data (dd_deleted d) in
        let st := log_event (EvIoctl handler p RTEMS_BLKDEV_CAPABILITIES) st in
        let '(rc, caps) := ioctl_capabilities env in
        let d :=
          mk_disk_device (dd_dev d) (dd_phys_dev d)
            (if bool_decide (rc < 0) then 0 else caps) (dd_name d)
            (dd_uses d) (dd_start d) (dd_size d) (dd_block_size d)
            (dd_media_block_size d) (dd_ioctl d) (dd_driver_data d)
            (dd_deleted d) in
        st ← disk_unlock (store p d st);
        Ok (RTEMS_SUCCESSFUL, st).

(** [dd->phys_dev == dd]. *)
Definition is_physical_disk (p : ptr) (d : rtems_disk_device) : bool :=
  bool_decide (dd_phys_dev d = Some p).

(** [--dd->uses]. *)
Definition decrement_uses (p : ptr) (st : registry) : result registry :=
  d ← deref st p;
  Ok (store p (set_uses (u32 (dd_uses d - 1)) d) st).

Definition rtems_disk_create_log (env : environment) (dev phys : Z)
    (begin_block block_count : Z) (name : option string) (st : registry)
  : result (rtems_status_code * registry) :=
  let end_block := u32 (begin_block + block_count) in
  let '(sc, st) := disk_lock st in
  if bool_decide (sc ≠ RTEMS_SUCCESSFUL) then Ok (sc, st)
  else
    '(physical_disk, st) ← get_disk_entry phys st;
    match physical_disk with
    | None => st ← disk_unlock st; Ok (RTEMS_INVALID_ID, st)
    | Some pp =>
        pd ← deref st pp;
        if negb (is_physical_disk pp pd) then
          st ← decrement_uses pp st;
          st ← disk_unlock st;
          Ok (RTEMS_INVALID_ID, st)
        else if bool_decide (begin_block >= dd_size pd)
                || bool_decide (end_block <= begin_block)
                || bool_decide (end_block > dd_size pd) then
          st ← decrement_uses pp st;
          st ← disk_unlock st;
          Ok (RTEMS_INVALID_NUMBER, st)
        else
          '(sc, dd, st) ← create_disk env dev name st;
          if bool_decide (sc ≠ RTEMS_SUCCESSFUL) then
            st ← decrement_uses pp st;
            st ← disk_unlock st;
            Ok (sc, st)
          else
            '(p, d) ← deref_opt st dd;
            pd ← deref st pp;
            let d :=
              mk_disk_device (dd_dev d) (Some pp) (dd_capabilities d)
                (dd_name d) (dd_uses d) begin_block block_count
                (dd_block_size pd) (dd_block_size pd) (dd_ioctl pd)
                (dd_driver_data pd) (dd_deleted d) in
            st ← disk_unlock (store p d st);
            Ok (RTEMS_SUCCESSFUL, st)
    end.

(** ** Deletion *)

(** [for (i = start; i < start + n; ++i) body], for a body that leaves the
    bound alone: the two scans of the table read their bound
    ([disktab_size], [dtab->size]) from fields no body writes. *)
Fixpoint for_loop {T : Type} (n : nat) (i : Z) (body : Z → T → result T)
    (s : T) : result T :=
  match n with
  | O => Ok s
  | S n' => s' ← body i s; for_loop n' (i + 1) body s'
  end.

Definition free_disk_device (p : ptr) (st : registry) : result registry :=
  d ← deref st p;
  st ← (if is_physical_disk p d then
          match dd_ioctl d with
          | None => Fault NullDeref
          | Some h => Ok (log_event (EvIoctl (Some h) p RTEMS_BLKIO_DELETED) st)
          end
        else Ok st);
  let st :=
    match dd_name d with
    | Some n => log_event (EvUnlink n) st
    | None => st
    end in
  Ok (set_heap (delete p (heap st)) st).

(** The body of the inner loop of [rtems_disk_cleanup]; the accumulator is
    the registry and [deleted_count]. *)
Definition cleanup_slot (dev : Z) (physical_disk : ptr) (major minor : Z)
    (acc : registry * Z) : result (registry * Z) :=
  let '(st, deleted_count) := acc in
  dtab ← read_dtab st major;
  slot ← read_slot dtab minor;
  match slot with
  | None => Ok acc
  | Some p =>
      d ← deref st p;
      '(_, owner) ← deref_opt st (dd_phys_dev d);
      if bool_decide (dd_dev owner = dev) && bool_decide (p ≠ physical_disk)
      then
        if bool_decide (dd_uses d = 0) then
          st ← write_slot st major minor None;
          st ← free_disk_device p st;
          Ok (st, u32 (deleted_count + 1))
        else Ok (store p (set_deleted true d) st, deleted_count)
      else Ok acc
  end.

(** The body of the outer loop. *)
Definition cleanup_major (dev : Z) (physical_disk : ptr) (major : Z)
    (acc : registry * Z) : result (registry * Z) :=
  dtab ← read_dtab (fst acc) major;
  for_loop (Z.to_nat (dt_size dtab)) 0 (cleanup_slot dev physical_disk major)
    acc.

Definition rtems_disk_cleanup (disk_to_remove : ptr) (st : registry)
  : result registry :=
  d ← deref st disk_to_remove;
  '(physical_disk, pd) ← deref_opt st (dd_phys_dev d);
  if dd_deleted pd then
    let dev := dd_dev pd in
    '(st, deleted_count) ←
      for_loop (Z.to_nat (disktab_size st)) 0
        (cleanup_major dev physical_disk) (st, 0);
    pd ← deref st physical_disk;
    let pd := set_uses (u32 (dd_uses pd - deleted_count)) pd in
    let st := store physical_disk pd st in
    if bool_decide (dd_uses pd = 0) then
      let '(major, minor) := rtems_filesystem_split_dev_t (dd_dev pd) in
      st ← write_slot st major minor None;
      free_disk_device physical_disk st
    else Ok st
  else
    if bool_decide (dd_uses d = 0) then
      st ← decrement_uses physical_disk st;
      d ← deref st disk_to_remove;
      let '(major, minor) := rtems_filesystem_split_dev_t (dd_dev d) in
      st ← write_slot st major minor None;
      free_disk_device disk_to_remove st
    else Ok st.

Definition rtems_disk_delete (dev : Z) (st : registry)
  : result (rtems_status_code * registry) :=
  let '(sc, st) := disk_lock st in
  if bool_decide (sc ≠ RTEMS_SUCCESSFUL) then Ok (sc, st)
  else
    '(dd, st) ← get_disk_entry dev st;
    match dd with
    | None => st ← disk_unlock st; Ok (RTEMS_INVALID_ID, st)
    | Some p =>
        st ← decrement_uses p st;
        d ← deref st p;
        let st := store p (set_deleted true d) st in
        st ← rtems_disk_cleanup p st;
        st ← disk_unlock st;
        Ok (RTEMS_SUCCESSFUL, st)
    end.

(** ** Obtain and release *)

Definition rtems_disk_obtain (dev : Z) (st : registry)
  : result (option ptr * registry) :=
  if negb (diskdevs_protected st) then get_disk_entry dev st
  else
    let '(sc, st) := disk_lock st in
    if bool_decide (sc = RTEMS_SUCCESSFUL) then
      '(dd, st) ← get_disk_entry dev st;
      st ← disk_unlock st;
      Ok (dd, st)
    else Ok (None, st).

Definition rtems_disk_release (dd : ptr) (st : registry)
  : result (rtems_status_code * registry) :=
  d ← deref st dd;
  let dev := dd_dev d in
  let uses := u32 (dd_uses d - 1) in
  let st := store dd (set_uses uses d) st in
  let deleted := dd_deleted d in
  if bool_decide (uses = 0) && deleted then
    '(_, st) ← rtems_disk_delete dev st;
    Ok (RTEMS_SUCCESSFUL, st)
  else Ok (RTEMS_SUCCESSFUL, st).

(** ** Enumeration *)

(** [dtab = disktab + major] followed by the test
    [dtab == NULL || minor > dtab->size]: [None] when [dtab] is null,
    otherwise the entry [dtab] points to. *)
Definition next_dtab (st : registry) (major : Z)
  : result (option rtems_disk_device_table) :=
  match disktab st with
  | TabNull => if bool_decide (major = 0) then Ok None else Fault NullDeref
  | _ => dtab ← read_dtab st major; Ok (Some dtab)
  end.

(** The [while (true)] loop of [rtems_disk_next]; one unit of fuel per
    iteration. *)
Fixpoint next_loop (fuel : nat) (st : registry) (major minor : Z)
  : result (option ptr) :=
  match fuel with
  | O => Fault OutOfFuel
  | S fuel =>
      dtab ← next_dtab st major;
      let advance :=
        let major := u32 (major + 1) in
        if bool_decide (major >= disktab_size st) then Ok None
        else next_loop fuel st major 0 in
      match dtab with
      | None => advance
      | Some dtab =>
          if bool_decide (minor > dt_size dtab) then advance
          else
            slot ← read_slot dtab minor;
            match slot with
            | None => next_loop fuel st major (u32 (minor + 1))
            | Some p => Ok (Some p)
            end
      end
  end.

(** Enough fuel for any table: an inner table of [n] entries takes at most
    [n + 2] iterations. *)
Definition table_fuel (t : list rtems_disk_device_table) : nat :=
  foldr (λ dtab n, (Z.to_nat (dt_size dtab) + 2 + n)%nat) 0%nat t.

Definition next_fuel (st : registry) : nat :=
  match disktab st with
  | TabLive t => S (table_fuel t)
  | _ => 2%nat
  end.

Definition rtems_disk_next (dev : Z) (st : registry) : result (option ptr) :=
  let dev := u64 (dev + 1) in
  let '(major, minor) := rtems_filesystem_split_dev_t dev in
  if bool_decide (major >= disktab_size st) then Ok None
  else next_loop (next_fuel st) st major minor.

(** ** Initialization and shutdown *)

Definition rtems_disk_io_initialize (env : environment) (st : registry)
  : result (rtems_status_code * registry) :=
  let size := DISKTAB_INITIAL_SIZE in
  if bool_decide (disktab_size st > 0) then Ok (RTEMS_SUCCESSFUL, st)
  else if negb (calloc_ok env) then Ok (RTEMS_NO_MEMORY, set_disktab TabNull st)
  else
    let st :=
      set_disktab (TabLive (replicate (Z.to_nat size) zero_table)) st in
    let st := set_protected false st in
    if negb (semaphore_create_ok env) then
      Ok (RTEMS_NO_MEMORY, set_disktab TabFreed st)
    else
      let id := fresh ({[RTEMS_ID_NONE]} ∪ semaphores st) in
      let st := set_mutex id (set_semaphores ({[id]} ∪ semaphores st) st) in
      (* [rtems_bdbuf_init] is called, whatever it answers *)
      let st := log_event EvBdbufInit st in
      if negb (bdbuf_init_ok env) then
        let st :=
          set_semaphores (semaphores st ∖ {[diskdevs_mutex st]}) st in
        Ok (RTEMS_UNSATISFIED, set_disktab TabFreed st)
      else Ok (RTEMS_SUCCESSFUL, set_disktab_size size st).

(** The body of the inner loop of [rtems_disk_io_done]. *)
Definition done_slot (major minor : Z) (st : registry) : result registry :=
  dtab ← read_dtab st major;
  slot ← read_slot dtab minor;
  match slot with
  | None => Ok st
  | Some p => free_disk_device p st
  end.

(** The body of the outer loop; the inner array it frees goes away with
    the whole table right after the loop. *)
Definition done_major (major : Z) (st : registry) : result registry :=
  dtab ← read_dtab st major;
  for_loop (Z.to_nat (dt_size dtab)) 0 (done_slot major) st.

Definition rtems_disk_io_done (st : registry)
  : result (rtems_status_code * registry) :=
  st ← for_loop (Z.to_nat (disktab_size st)) 0 done_major st;
  let st := set_semaphores (semaphores st ∖ {[diskdevs_mutex st]}) st in
  let st := set_mutex RTEMS_ID_NONE st in
  let st := set_disktab TabNull st in
  Ok (RTEMS_SUCCESSFUL, set_disktab_size 0 st).

(** ** Reading the table without side effect

    The slot an identifier designates, as the statements below speak of it:
    [None] for an empty slot and for an identifier beyond the table. *)

Definition major_of (dev : Z) : Z := fst (rtems_filesystem_split_dev_t dev).
Definition minor_of (dev : Z) : Z := snd (rtems_filesystem_split_dev_t dev).

Definition table_at (st : registry) (major : Z)
  : option rtems_disk_device_table :=
  match disktab st with
  | TabLive t => t !! Z.to_nat major
  | _ => None
  end.

Definition slot_at (st : registry) (major minor : Z) : option ptr :=
  match table_at st major with
  | Some dtab =>
      match dt_minor dtab with
      | Some a => default None (a !! Z.to_nat minor)
      | None => None
      end
  | None => None
  end.

(** The slot of an identifier. *)
Definition slot_of (st : registry) (dev : Z) : option ptr :=
  slot_at st (major_of dev) (minor_of dev).

(** The number of entries recorded for a major number; 0 beyond the outer
    table. *)
Definition minor_size (st : registry) (major : Z) : Z :=
  match table_at st major with
  | Some dtab => dt_size dtab
  | None => 0
  end.

(** ** Representation invariant *)

(** An inner table records the length of its array; a null array has no
    entry. *)
Definition dtab_wf (dtab : rtems_disk_device_table) : Prop :=
  match dt_minor dtab with
  | None => dt_size dtab = 0
  | Some a => Z.of_nat (length a) = dt_size dtab ∧ dt_size dtab < 2 ^ 32
  end.

Global Instance dtab_wf_dec dtab : Decision (dtab_wf dtab).
Proof. unfold dtab_wf. destruct (dt_minor dtab); apply _. Defined.

(** The registry is initialized and [disktab_size] is the length of the
    outer table. *)
Definition table_wf (st : registry) : Prop :=
  match disktab st with
  | TabLive t =>
      Z.of_nat (length t) = disktab_size st
      ∧ 0 < disktab_size st < 2 ^ 32
      ∧ Forall dtab_wf t
  | _ => False
  end.

Global Instance table_wf_dec st : Decision (table_wf st).
Proof. unfold table_wf. destruct (disktab st); apply _. Defined.

(** The lock exists and nobody holds it. *)
Definition lock_free (st : registry) : Prop :=
  diskdevs_mutex st ∈ semaphores st ∧ diskdevs_protected st = false.

Global Instance lock_free_dec st : Decision (lock_free st).
Proof. unfold lock_free. apply _. Defined.

(** What a slot that holds [p] requires: [p] is allocated, carries the
    identifier of the slot, and its use count and its size are in the range
    of their 32-bit types; its owner is allocated, is a physical disk, and
    sits in its own slot. *)
Definition slot_ok (st : registry) (major minor : Z) (p : ptr) : Prop :=
  match heap st !! p with
  | None => False
  | Some d =>
      dd_dev d = rtems_filesystem_make_dev_t major minor
      ∧ 0 ≤ dd_uses d < 2 ^ 32
      ∧ 0 ≤ dd_size d < 2 ^ 32
      ∧ match dd_phys_dev d with
        | None => False
        | Some q =>
            match heap st !! q with
            | None => False
            | Some o =>
                dd_phys_dev o = Some q ∧ slot_of st (dd_dev o) = Some q
            end
        end
  end.

Global Instance slot_ok_dec st major minor p :
  Decision (slot_ok st major minor p).
Proof.
  unfold slot_ok. destruct (heap st !! p) as [d|]; [|apply _].
  destruct (dd_phys_dev d) as [q|]; [|apply _].
  destruct (heap st !! q); apply _.
Defined.

Definition slots_ok (st : registry) : Prop :=
  ∀ major minor p,
    0 ≤ major → 0 ≤ minor →
    slot_at st major minor = Some p → slot_ok st major minor p.

Record registry_wf (st : registry) : Prop := mk_registry_wf {
  wf_table : table_wf st;
  wf_lock : lock_free st;
  wf_slots : slots_ok st
}.

(** Whether a test holds of every occupied slot of the table. *)
Definition forall_array (test : Z → Z → ptr → bool) (major : nat)
    (a : list (option ptr)) : bool :=
  forallb
    (λ '(minor, slot),
       match slot with
       | None => true
       | Some p => test (Z.of_nat major) (Z.of_nat minor) p
       end)
    (imap pair a).

Definition forall_slots (test : Z → Z → ptr → bool) (st : registry) : bool :=
  match disktab st with
  | TabLive t =>
      forallb
        (λ '(major, dtab),
           match dt_minor dtab with
           | None => true
           | Some a => forall_array test major a
           end)
        (imap pair t)
  | _ => true
  end.

(** A checker for [slots_ok], to run on a given registry. *)
Definition check_slots (st : registry) : bool :=
  forall_slots (λ major minor p, bool_decide (slot_ok st major minor p)) st.

Definition check_registry (st : registry) : bool :=
  bool_decide (table_wf st) && bool_decide (lock_free st) && check_slots st.

(** ** Vocabulary of the statements *)

(** Two registries that differ in the table only. *)
Definition same_outside_table (st st' : registry) : Prop :=
  heap st' = heap st
  ∧ diskdevs_mutex st' = diskdevs_mutex st
  ∧ semaphores st' = semaphores st
  ∧ diskdevs_protected st' = diskdevs_protected st
  ∧ trace st' = trace st.

(** A 32-bit unsigned argument. *)
Definition is_u32 (z : Z) : Prop := 0 ≤ z < 2 ^ 32.

Global Instance is_u32_dec z : Decision (is_u32 z).
Proof. unfold is_u32. apply _. Defined.

(** The range of a logical disk fits its physical disk. *)
Definition valid_range (begin_block block_count size : Z) : Prop :=
  0 < block_count ∧ begin_block + block_count ≤ size.

Global Instance valid_range_dec b c s : Decision (valid_range b c s).
Proof. unfold valid_range. apply _. Defined.

(** Both indices of the identifier leave room for the capacity one above
    them in a 32-bit size.  For an index of 2^32 - 1 that capacity wraps
    to 0 and [create_disk_table_entry] asks [realloc] for no byte at all;
    what the allocator does then is not in the sources, and the
    statements about a call that gets as far as growing the table are
    made for identifiers that are addressable. *)
Definition addressable (dev : Z) : Prop :=
  major_of dev + 1 < 2 ^ 32 ∧ minor_of dev + 1 < 2 ^ 32.

Global Instance addressable_dec dev : Decision (addressable dev).
Proof. unfold addressable. apply _. Defined.

(** The capacity the specification words give a grown dimension: the
    larger of twice the old capacity and the exact fit. *)
Definition spec_capacity (old_size index : Z) : Z :=
  Z.max (2 * old_size) (index + 1).

(** The capacity the code gives an inner table: an empty one starts at
    [DISKTAB_INITIAL_SIZE]. *)
Definition inner_capacity (old_size index : Z) : Z :=
  Z.max (if decide (old_size = 0) then DISKTAB_INITIAL_SIZE else 2 * old_size)
    (index + 1).

(** Whether [create_disk_table_entry] has to ask the allocator for an outer
    table, and for an inner table. *)
Definition needs_major (st : registry) (dev : Z) : Prop :=
  disktab_size st ≤ major_of dev.

Definition needs_minor (st : registry) (dev : Z) : Prop :=
  minor_size st (major_of dev) ≤ minor_of dev.

(** Every allocation and registration that creating [dev] under [name]
    asks for succeeds. *)
Definition allocations_succeed (env : environment) (st : registry) (dev : Z)
    (name : option string) : Prop :=
  (needs_major st dev → realloc_major_ok env = true)
  ∧ (needs_minor st dev → realloc_minor_ok env = true)
  ∧ malloc_ok env = true
  ∧ (name ≠ None → strdup_ok env = true ∧ register_name_ok env = true).

Global Instance allocations_succeed_dec env st dev name :
  Decision (allocations_succeed env st dev name).
Proof.
  unfold allocations_succeed, needs_major, needs_minor. apply _.
Defined.

(** The tables can be grown as creating [dev] asks, and the descriptor and
    the copy of the name can be allocated. *)
Definition memory_succeeds (env : environment) (st : registry) (dev : Z)
    (name : option string) : Prop :=
  (needs_major st dev → realloc_major_ok env = true)
  ∧ (needs_minor st dev → realloc_minor_ok env = true)
  ∧ malloc_ok env = true
  ∧ (name ≠ None → strdup_ok env = true).

Global Instance memory_succeeds_dec env st dev name :
  Decision (memory_succeeds env st dev name).
Proof.
  unfold memory_succeeds, needs_major, needs_minor. apply _.
Defined.

(** ** Iterating with [rtems_disk_next] *)

(** At most [n] calls of [rtems_disk_next], each on the identifier of the
    descriptor the call before returned; the descriptors returned, in
    order.  The iteration stops at the first call that returns no
    descriptor. *)
Fixpoint visit (n : nat) (st : registry) (dev : Z) : list ptr :=
  match n with
  | O => []
  | S n' =>
      match rtems_disk_next dev st with
      | Ok (Some p) =>
          match heap st !! p with
          | Some d => p :: visit n' st (dd_dev d)
          | None => []
          end
      | _ => []
      end
  end.

(** [l] lists descriptors in occupied slots in ascending order of
    identifier, all above [dev], and no occupied slot lies between [dev]
    and the first, or between two consecutive ones. *)
Fixpoint ascending_occupied (st : registry) (dev : Z) (l : list ptr) : Prop :=
  match l with
  | [] => True
  | p :: l' =>
      ∃ d, heap st !! p = Some d
           ∧ slot_of st (dd_dev d) = Some p
           ∧ dev < dd_dev d < 2 ^ 64 - 1
           ∧ (∀ dev', dev < dev' < dd_dev d → slot_of st dev' = None)
           ∧ ascending_occupied st (dd_dev d) l'
  end.

(** ** Vocabulary of the cascade *)

(** The heap [h'] is the heap [h] with some descriptors marked deleted. *)
Definition marked (h h' : gmap ptr rtems_disk_device) : Prop :=
  ∀ q, h' !! q = h !! q
       ∨ ∃ d, h !! q = Some d ∧ h' !! q = Some (set_deleted true d).

(** Every logical disk of the physical disk [pp] is in use. *)
Definition children_in_use (st : registry) (pp : ptr) : Prop :=
  ∀ major minor q dq,
    0 ≤ major → 0 ≤ minor →
    slot_at st major minor = Some q → q ≠ pp →
    heap st !! q = Some dq → dd_phys_dev dq = Some pp →
    dd_uses dq ≠ 0.

(** A checker for [children_in_use]. *)
Definition check_children_in_use (st : registry) (pp : ptr) : bool :=
  forall_slots
    (λ _ _ q,
       bool_decide (q = pp)
       || match heap st !! q with
          | Some dq =>
              negb (bool_decide (dd_phys_dev dq = Some pp))
              || negb (bool_decide (dd_uses dq = 0))
          | None => true
          end)
    st.

(** In the heap [h'] every logical disk of [pp] in a slot before the
    position (major, minor) is marked deleted. *)
Definition children_marked (st : registry) (pp : ptr) (major minor : Z)
    (h' : gmap ptr rtems_disk_device) : Prop :=
  ∀ M m q dq,
    0 ≤ M → 0 ≤ m → (M < major ∨ (M = major ∧ m < minor)) →
    slot_at st M m = Some q → q ≠ pp →
    heap st !! q = Some dq → dd_phys_dev dq = Some pp →
    h' !! q = Some (set_deleted true dq).

(** The registry during the scan of [rtems_disk_cleanup]: the lock is
    held and the heap is [h']. *)
Definition scanning (st : registry) (h' : gmap ptr rtems_disk_device)
  : registry :=
  set_heap h' (set_protected true st).

(** ** Registries of the examples *)

(** The registry an operation leaves behind. *)
Definition after {A : Type} (r : result (A * registry)) : registry :=
  match r with
  | Ok (_, st) => st
  | Fault _ => boot ∅
  end.

(** An environment in which the buffer cache fails to initialize. *)
Definition bdbuf_fails : environment :=
  mk_environment true true true true true (0, 0) true true false.

(** Right after a successful [rtems_disk_io_initialize]. *)
Definition initialized : registry :=
  after (rtems_disk_io_initialize fair_weather (boot ∅)).

(** The physical disk (1, 0) of the specification's scenario: 1000 blocks
    of 512 bytes. *)
Definition one_disk : registry :=
  after (rtems_disk_create_phys fair_weather
           (rtems_filesystem_make_dev_t 1 0) 512 1000 (Some 7) 0 None
           initialized).

(** With the logical disk (2, 0) on it, spanning blocks 100 to 199. *)
Definition two_disks : registry :=
  after (rtems_disk_create_log fair_weather
           (rtems_filesystem_make_dev_t 2 0)
           (rtems_filesystem_make_dev_t 1 0) 100 100 None one_disk).

(** The disk (1, 0) obtained once and then deleted: its descriptor stays,
    marked deleted, with use count 1. *)
Definition pending_disk : registry :=
  after (rtems_disk_delete (rtems_filesystem_make_dev_t 1 0)
           (after (rtems_disk_obtain (rtems_filesystem_make_dev_t 1 0)
                     one_disk))).

(** And a second physical disk (1, 1), live, next to it. *)
Definition pending_and_live : registry :=
  after (rtems_disk_create_phys fair_weather
           (rtems_filesystem_make_dev_t 1 1) 512 1000 (Some 7) 0 None
           pending_disk).

(** The disk (1, 0) with the logical disks (2, 0) and (2, 1), each of them
    obtained once. *)
Definition family_in_use : registry :=
  after (rtems_disk_obtain (rtems_filesystem_make_dev_t 2 1)
    (after (rtems_disk_obtain (rtems_filesystem_make_dev_t 2 0)
      (after (rtems_disk_create_log fair_weather
                (rtems_filesystem_make_dev_t 2 1)
                (rtems_filesystem_make_dev_t 1 0) 200 100 None
                two_disks))))).

(** ** Vocabulary of the scans

    [rtems_disk_cleanup] and [rtems_disk_io_done] visit the slots in the
    order of the major numbers and, under one major number, of the minor
    numbers. *)

(** The descriptors in the occupied slots of an inner table, in order. *)
Definition row_slots (dtab : rtems_disk_device_table) : list ptr :=
  match dt_minor dtab with
  | Some a => omap id a
  | None => []
  end.

(** The descriptors in the slots a scan visits before it comes to the
    slot (major, minor). *)
Definition slots_before (st : registry) (major minor : Z) : list ptr :=
  match disktab st with
  | TabLive t =>
      mjoin (row_slots <$> take (Z.to_nat major) t)
      ++ match t !! Z.to_nat major with
         | Some dtab =>
             match dt_minor dtab with
             | Some a => omap id (take (Z.to_nat minor) a)
             | None => []
             end
         | None => []
         end
  | _ => []
  end.

(** All descriptors in the table, in the order of a scan. *)
Definition all_slots (st : registry) : list ptr :=
  slots_before st (disktab_size st) 0.

(** [q] is a logical disk of the physical disk [pp]. *)
Definition is_child (st : registry) (pp q : ptr) : bool :=
  bool_decide (q ≠ pp)
  && match heap st !! q with
     | Some dq => bool_decide (dd_phys_dev dq = Some pp)
     | None => false
     end.

(** Nobody holds a reference to [q]. *)
Definition unused (st : registry) (q : ptr) : bool :=
  match heap st !! q with
  | Some dq => bool_decide (dd_uses dq = 0)
  | None => false
  end.

(** The logical disks of [pp] among [l] that nobody holds a reference
    to: the ones the deletion of [pp] reclaims at once. *)
Definition reclaimed (st : registry) (pp : ptr) (l : list ptr) : list ptr :=
  filter (λ q, is_child st pp q && unused st q = true) l.

(** The calls [free_disk_device] makes for the descriptor at [q]: the
    driver of a physical disk is told of the deletion, and the name, if
    there is one, is unlinked. *)
Definition free_events (st : registry) (q : ptr) : list event :=
  match heap st !! q with
  | Some d =>
      (if is_physical_disk q d
       then [EvIoctl (dd_ioctl d) q RTEMS_BLKIO_DELETED] else [])
      ++ match dd_name d with
         | Some n => [EvUnlink n]
         | None => []
         end
  | None => []
  end.

(** The registry [cur] and the count in the middle of the scan of
    [rtems_disk_cleanup] for the physical disk [pp], started on the
    registry [s0], when the descriptors [V] have been visited: the logical
    disks of [pp] among [V] are out of their slots and off the heap when
    they had no reference, and marked deleted when they had; nothing else
    has changed. *)
Record scanned (s0 : registry) (pp : ptr) (V : list ptr) (cur : registry)
    (count : Z) : Prop := mk_scanned {
  sc_wf : table_wf cur;
  sc_size : disktab_size cur = disktab_size s0;
  sc_minor : ∀ M, minor_size cur M = minor_size s0 M;
  sc_mutex : diskdevs_mutex cur = diskdevs_mutex s0;
  sc_sems : semaphores cur = semaphores s0;
  sc_prot : diskdevs_protected cur = diskdevs_protected s0;
  sc_slots : ∀ M m, 0 ≤ M → 0 ≤ m →
    slot_at cur M m =
      match slot_at s0 M m with
      | Some q =>
          if bool_decide (q ∈ V) && is_child s0 pp q && unused s0 q
          then None else Some q
      | None => None
      end;
  sc_heap : ∀ q,
    heap cur !! q =
      if bool_decide (q ∈ V) && is_child s0 pp q then
        if unused s0 q then None else set_deleted true <$> heap s0 !! q
      else heap s0 !! q;
  sc_count : count = u32 (Z.of_nat (length (reclaimed s0 pp V)));
  sc_trace : trace cur = trace s0 ++ (reclaimed s0 pp V ≫= free_events s0)
}.

(** [n] lookups of [dev], one after the other. *)
Fixpoint obtain_times (n : nat) (dev : Z) (st : registry) : registry :=
  match n with
  | O => st
  | S n' => obtain_times n' dev (after (rtems_disk_obtain dev st))
  end.

(** The disk (1, 0) with its use count at the maximum of its type, as
    2^32 - 1 lookups leave it. *)
Definition saturated_disk : registry :=
  store 1%positive
    (mk_disk_device (rtems_filesystem_make_dev_t 1 0) (Some 1%positive) 0
       None (2 ^ 32 - 1) 0 1000 512 512 (Some 7) 0 false)
    one_disk.

(** The disk (1, 0) with the logical disk (2, 0), which nobody holds, and
    the logical disk (2, 1), obtained once. *)
Definition family_mixed : registry :=
  after (rtems_disk_obtain (rtems_filesystem_make_dev_t 2 1)
    (after (rtems_disk_create_log fair_weather
              (rtems_filesystem_make_dev_t 2 1)
              (rtems_filesystem_make_dev_t 1 0) 200 100 None
              two_disks))).

(** Every physical disk in the table has a handler: the call through
    [dd->ioctl] in [free_disk_device] does not go through a null
    pointer. *)
Definition handlers_ok (st : registry) : Prop :=
  ∀ M m q d,
    0 ≤ M → 0 ≤ m → slot_at st M m = Some q → heap st !! q = Some d →
    dd_phys_dev d = Some q → dd_ioctl d ≠ None.

(** A checker for [handlers_ok]. *)
Definition check_handlers (st : registry) : bool :=
  forall_slots
    (λ _ _ q,
       match heap st !! q with
       | Some d =>
           negb (bool_decide (dd_phys_dev d = Some q)) || not_null (dd_ioctl d)
       | None => true
       end)
    st.

(** The registry [cur] in the middle of the scan of [rtems_disk_io_done],
    started on the registry [st], when the descriptors [V] have been
    visited: they are off the heap, and nothing else has changed. *)
Record freed (st : registry) (V : list ptr) (cur : registry) : Prop :=
  mk_freed {
  fr_tab : disktab cur = disktab st;
  fr_size : disktab_size cur = disktab_size st;
  fr_mutex : diskdevs_mutex cur = diskdevs_mutex st;
  fr_sems : semaphores cur = semaphores st;
  fr_prot : diskdevs_protected cur = diskdevs_protected st;
  fr_heap : ∀ q,
    heap cur !! q = if bool_decide (q ∈ V) then None else heap st !! q;
  fr_trace : trace cur = trace st ++ (V ≫= free_events st)
}.

(** * Properties *)

(** ** Arithmetic of identifiers and counters *)

Lemma u32_range z : 0 ≤ u32 z < 2 ^ 32.
Proof. unfold u32. apply Z.mod_pos_bound. lia. Qed.

Lemma u32_small z : 0 ≤ z < 2 ^ 32 → u32 z = z.
Proof. intros. unfold u32. by apply Z.mod_small. Qed.

Lemma u32_incr_decr z : 0 ≤ z < 2 ^ 32 → u32 (u32 (z + 1) - 1) = z.
Proof.
  intros Hz. unfold u32.
  destruct (decide (z = 2 ^ 32 - 1)) as [->|Hne]; [reflexivity|].
  rewrite (Z.mod_small (z + 1)) by lia.
  replace (z + 1 - 1) with z by lia. apply Z.mod_small. lia.
Qed.

Lemma major_of_range dev : 0 ≤ major_of dev < 2 ^ 32.
Proof. apply u32_range. Qed.

Lemma minor_of_range dev : 0 ≤ minor_of dev < 2 ^ 32.
Proof. apply u32_range. Qed.

Lemma split_eq dev :
  rtems_filesystem_split_dev_t dev = (major_of dev, minor_of dev).
Proof. reflexivity. Qed.

Lemma major_of_make major minor :
  0 ≤ major < 2 ^ 32 → 0 ≤ minor < 2 ^ 32 →
  major_of (rtems_filesystem_make_dev_t major minor) = major.
Proof.
  intros HM Hm. unfold major_of, rtems_filesystem_split_dev_t,
    rtems_filesystem_make_dev_t, u32. simpl.
  rewrite Z.div_add_l by lia. rewrite (Z.div_small minor) by lia.
  rewrite Z.add_0_r. apply Z.mod_small. lia.
Qed.

Lemma minor_of_make major minor :
  0 ≤ minor < 2 ^ 32 →
  minor_of (rtems_filesystem_make_dev_t major minor) = minor.
Proof.
  intros Hm. unfold minor_of, rtems_filesystem_split_dev_t,
    rtems_filesystem_make_dev_t, u32. simpl.
  rewrite Z.add_comm, Z.mod_add by lia. apply Z.mod_small. lia.
Qed.

Lemma make_split dev :
  0 ≤ dev < 2 ^ 64 →
  rtems_filesystem_make_dev_t (major_of dev) (minor_of dev) = dev.
Proof.
  intros Hd. unfold major_of, minor_of, rtems_filesystem_split_dev_t,
    rtems_filesystem_make_dev_t, u32. simpl.
  rewrite (Z.mod_small (dev / 2 ^ 32)).
  - pose proof (Z.div_mod dev (2 ^ 32)). lia.
  - split; [apply Z.div_pos; lia|].
    apply Z.div_lt_upper_bound; lia.
Qed.

(** ** The invariant and the lookups *)

Lemma table_wf_live st :
  table_wf st →
  ∃ t, disktab st = TabLive t
       ∧ Z.of_nat (length t) = disktab_size st
       ∧ 0 < disktab_size st < 2 ^ 32
       ∧ Forall dtab_wf t.
Proof.
  unfold table_wf. destruct (disktab st) as [|t|]; try done.
  intros H. exists t. tauto.
Qed.

Lemma table_at_Some st major dtab :
  table_wf st → 0 ≤ major →
  table_at st major = Some dtab → major < disktab_size st ∧ dtab_wf dtab.
Proof.
  intros (t & Ht & Hlen & _ & Hall)%table_wf_live HM.
  unfold table_at. rewrite Ht. intros Hl. split.
  - apply lookup_lt_Some in Hl. lia.
  - eapply Forall_lookup_1; eauto.
Qed.

Lemma table_at_lt st major :
  table_wf st → 0 ≤ major < disktab_size st →
  ∃ dtab, table_at st major = Some dtab ∧ dtab_wf dtab.
Proof.
  intros Hwf HM.
  pose proof Hwf as (t & Ht & Hlen & _ & Hall)%table_wf_live.
  destruct (lookup_lt_is_Some_2 t (Z.to_nat major)) as [dtab Hd]; [lia|].
  exists dtab. split.
  - unfold table_at. by rewrite Ht.
  - eapply Forall_lookup_1; eauto.
Qed.

Lemma table_at_ge st major :
  table_wf st → disktab_size st ≤ major → table_at st major = None.
Proof.
  intros (t & Ht & Hlen & ? & _)%table_wf_live HM.
  unfold table_at. rewrite Ht. apply lookup_ge_None. lia.
Qed.

Lemma read_dtab_table_at st major :
  read_dtab st major =
    match disktab st with
    | TabNull => Fault NullDeref
    | TabFreed => Fault UseAfterFree
    | TabLive _ =>
        match table_at st major with
        | Some dtab => Ok dtab
        | None => Fault OutOfBounds
        end
    end.
Proof. unfold read_dtab, table_at. by destruct (disktab st). Qed.

Lemma read_dtab_Some st major dtab :
  table_at st major = Some dtab → read_dtab st major = Ok dtab.
Proof.
  intros H. rewrite read_dtab_table_at. rewrite H.
  unfold table_at in H. by destruct (disktab st).
Qed.

Lemma slot_at_Some st major minor p :
  slot_at st major minor = Some p →
  ∃ dtab a, table_at st major = Some dtab ∧ dt_minor dtab = Some a
            ∧ a !! Z.to_nat minor = Some (Some p).
Proof.
  unfold slot_at. destruct (table_at st major) as [dtab|] eqn:Ht; [|done].
  destruct (dt_minor dtab) as [a|] eqn:Hm; [|done].
  destruct (a !! Z.to_nat minor) as [s|] eqn:Ha; [|done].
  simpl. intros ->. by exists dtab, a.
Qed.

Lemma slot_at_bounds st major minor p :
  table_wf st → 0 ≤ major → 0 ≤ minor →
  slot_at st major minor = Some p →
  major < disktab_size st ∧ minor < minor_size st major.
Proof.
  intros Hwf HM Hm (dtab & a & Ht & Ha & Hl)%slot_at_Some.
  destruct (table_at_Some _ _ _ Hwf HM Ht) as [? Hd].
  split; [done|]. unfold minor_size. rewrite Ht.
  unfold dtab_wf in Hd. rewrite Ha in Hd.
  apply lookup_lt_Some in Hl. lia.
Qed.

(** Under the invariant [get_disk_entry] is a lookup of the slot, a test of
    the deletion mark and an increment of the use count. *)
Lemma get_disk_entry_spec dev st :
  table_wf st →
  get_disk_entry dev st =
    match slot_of st dev with
    | None => Ok (None, st)
    | Some p =>
        match heap st !! p with
        | None => Fault UseAfterFree
        | Some d =>
            if dd_deleted d then Ok (None, st)
            else Ok (Some p, store p (set_uses (u32 (dd_uses d + 1)) d) st)
        end
    end.
Proof.
  intros Hwf. unfold get_disk_entry, slot_of, slot_at.
  rewrite split_eq.
  pose proof (major_of_range dev) as HM.
  pose proof (minor_of_range dev) as Hm.
  pose proof Hwf as (t & Ht & Hlen & Hsz & Hall)%table_wf_live.
  rewrite Ht. simpl tab_not_null. rewrite andb_true_r.
  case_bool_decide as Hlt.
  - destruct (table_at_lt st (major_of dev) Hwf) as (dtab & Hd & Hdwf); [lia|].
    rewrite (read_dtab_Some _ _ _ Hd). rewrite Hd. simpl.
    unfold dtab_wf in Hdwf. unfold read_slot.
    destruct (dt_minor dtab) as [a|] eqn:Ha; simpl.
    + rewrite andb_true_r. case_bool_decide as Hlt2.
      * destruct (lookup_lt_is_Some_2 a (Z.to_nat (minor_of dev))) as [s Hs];
          [lia|].
        rewrite Hs. simpl. destruct s as [p|]; [|done].
        unfold deref. by destruct (heap st !! p).
      * rewrite (proj2 (lookup_ge_None a (Z.to_nat (minor_of dev)))); [done|].
        lia.
    + by rewrite andb_false_r.
  - by rewrite (table_at_ge st _ Hwf) by lia.
Qed.

(** ** Growing the table *)

Lemma grow_exact {A : Type} (old_size new_size : Z) (zero : A) (l : list A) :
  Z.of_nat (length l) = old_size →
  grow old_size new_size zero l
  = l ++ replicate (Z.to_nat (new_size - old_size)) zero.
Proof.
  intros Hl. unfold grow. rewrite take_ge; [done|]. lia.
Qed.

Lemma grow_length {A : Type} (old_size new_size : Z) (zero : A) (l : list A) :
  Z.of_nat (length l) = old_size → old_size ≤ new_size →
  Z.of_nat (length (grow old_size new_size zero l)) = new_size.
Proof.
  intros Hl Hle. rewrite grow_exact by done.
  rewrite length_app, length_replicate. lia.
Qed.

Lemma grow_lookup_old {A : Type} (old_size new_size : Z) (zero : A)
    (l : list A) (i : nat) :
  Z.of_nat (length l) = old_size → (i < length l)%nat →
  grow old_size new_size zero l !! i = l !! i.
Proof.
  intros Hl Hi. rewrite grow_exact by done. by apply lookup_app_l.
Qed.

Lemma grow_lookup_new {A : Type} (old_size new_size : Z) (zero : A)
    (l : list A) (i : nat) :
  Z.of_nat (length l) = old_size →
  old_size ≤ Z.of_nat i < new_size →
  grow old_size new_size zero l !! i = Some zero.
Proof.
  intros Hl Hi. rewrite grow_exact by done.
  rewrite lookup_app_r by lia. apply lookup_replicate_2. lia.
Qed.

Lemma grow_lookup_Some {A : Type} (old_size new_size : Z) (zero : A)
    (l : list A) (i : nat) (x : A) :
  Z.of_nat (length l) = old_size →
  grow old_size new_size zero l !! i = Some x →
  l !! i = Some x ∨ (l !! i = None ∧ x = zero).
Proof.
  intros Hl. rewrite grow_exact by done.
  intros [?|[Hge Hr]]%lookup_app_Some; [by left|right].
  apply lookup_replicate in Hr as [-> _]. split; [|done].
  by apply lookup_ge_None.
Qed.

(** The capacity [create_disk_table_entry] chooses for the outer table. *)
Lemma grow_major_spec env major st :
  table_wf st → 0 ≤ major < 2 ^ 32 - 1 →
  ∃ r, grow_major env major st = Ok r
    ∧ (r = None ↔ disktab_size st ≤ major ∧ realloc_major_ok env = false)
    ∧ ∀ st1, r = Some st1 →
        table_wf st1
        ∧ same_outside_table st st1
        ∧ major < disktab_size st1
        ∧ disktab_size st1 =
            (if decide (major < disktab_size st) then disktab_size st
             else Z.max (u32 (2 * disktab_size st)) (major + 1))
        ∧ (∀ M, 0 ≤ M < disktab_size st → table_at st1 M = table_at st M)
        ∧ (∀ M, disktab_size st ≤ M < disktab_size st1 →
             table_at st1 M = Some zero_table)
        ∧ (∀ M m, slot_at st1 M m = slot_at st M m).
Proof.
  intros Hwf HM.
  pose proof Hwf as (t & Ht & Hlen & Hsz & Hall)%table_wf_live.
  unfold grow_major. case_bool_decide as Hge.
  - rewrite Ht. destruct (realloc_major_ok env) eqn:Hre.
    + set (w := u32 (2 * disktab_size st)).
      set (new_size := if bool_decide (major >= w) then u32 (major + 1) else w).
      assert (Hnew : new_size = Z.max w (major + 1)).
      { unfold new_size. case_bool_decide; rewrite ?u32_small; lia. }
      pose proof (u32_range (2 * disktab_size st)) as Hw. fold w in Hw.
      rewrite bool_decide_eq_false_2 by lia.
      eexists. split; [reflexivity|]. split; [intuition congruence|].
      intros st1 [= <-].
      assert (Hlen' : Z.of_nat
                (length (grow (disktab_size st) new_size zero_table t))
              = new_size) by (apply grow_length; lia).
      split_and!.
      * unfold table_wf. simpl. split_and!; try done; try lia.
        rewrite grow_exact by done. apply Forall_app. split; [done|].
        by apply Forall_replicate.
      * done.
      * simpl. lia.
      * simpl. rewrite decide_False by lia. done.
      * intros M HMr. unfold table_at. simpl. rewrite Ht.
        apply grow_lookup_old; [done|lia].
      * simpl. intros M HMr. unfold table_at. simpl.
        apply grow_lookup_new; [done|lia].
      * intros M m. unfold slot_at, table_at. simpl. rewrite Ht.
        destruct (grow (disktab_size st) new_size zero_table t
                    !! Z.to_nat M) as [d|] eqn:Hg.
        -- apply grow_lookup_Some in Hg as [->|[-> ->]]; done.
        -- rewrite grow_exact in Hg by done.
           apply lookup_ge_None in Hg. rewrite length_app in Hg.
           rewrite (proj2 (lookup_ge_None t (Z.to_nat M))); [done|lia].
    + eexists. split; [reflexivity|]. split; [|done].
      split; [intros _; split; [lia|done]|done].
  - eexists. split; [reflexivity|]. split; [split; [done|lia]|].
    intros st1 [= <-]. split_and!; try done.
    + lia.
    + by rewrite decide_True by lia.
    + lia.
Qed.

(** The capacity [create_disk_table_entry] chooses for an inner table. *)
Lemma grow_minor_spec env major minor st :
  table_wf st → 0 ≤ major < disktab_size st → 0 ≤ minor < 2 ^ 32 - 1 →
  ∃ r, grow_minor env major minor st = Ok r
    ∧ (r = None ↔ minor_size st major ≤ minor ∧ realloc_minor_ok env = false)
    ∧ ∀ st2, r = Some st2 →
        table_wf st2
        ∧ same_outside_table st st2
        ∧ disktab_size st2 = disktab_size st
        ∧ minor < minor_size st2 major
        ∧ minor_size st2 major =
            (if decide (minor < minor_size st major) then minor_size st major
             else Z.max (if decide (minor_size st major = 0)
                         then DISKTAB_INITIAL_SIZE
                         else u32 (2 * minor_size st major)) (minor + 1))
        ∧ (∀ M, 0 ≤ M → M ≠ major → table_at st2 M = table_at st M)
        ∧ (∀ M m, slot_at st2 M m = slot_at st M m).
Proof.
  intros Hwf HM Hm.
  pose proof Hwf as (t & Ht & Hlen & Hsz & Hall)%table_wf_live.
  destruct (table_at_lt st major Hwf HM) as (dtab & Hd & Hdwf).
  unfold grow_minor. rewrite (read_dtab_Some _ _ _ Hd). simpl.
  assert (Hms : minor_size st major = dt_size dtab)
    by (unfold minor_size; by rewrite Hd).
  rewrite Hms.
  set (table := match dt_minor dtab with Some a => a | None => [] end).
  assert (Htl : Z.of_nat (length table) = dt_size dtab ∧ dt_size dtab < 2 ^ 32).
  { unfold table, dtab_wf in *. destruct (dt_minor dtab); simpl; lia. }
  assert (Hslot : ∀ m, slot_at st major m = default None (table !! Z.to_nat m)).
  { intros m. unfold slot_at. rewrite Hd. unfold table.
    by destruct (dt_minor dtab). }
  destruct (negb (not_null (dt_minor dtab)) || bool_decide (minor >= dt_size dtab))
    eqn:Hcond.
  - assert (Hge : dt_size dtab ≤ minor).
    { apply orb_true_iff in Hcond as [Hn|Hb].
      - unfold dtab_wf in Hdwf. destruct (dt_minor dtab); [done|]. lia.
      - apply bool_decide_eq_true in Hb. lia. }
    destruct (realloc_minor_ok env) eqn:Hre.
    + set (w := if bool_decide (dt_size dtab = 0) then DISKTAB_INITIAL_SIZE
                else u32 (2 * dt_size dtab)).
      set (new_size := if bool_decide (minor >= w) then u32 (minor + 1) else w).
      assert (Hw : 0 ≤ w < 2 ^ 32).
      { unfold w. destruct (bool_decide (dt_size dtab = 0));
          [unfold DISKTAB_INITIAL_SIZE; lia|apply u32_range]. }
      assert (Hnew : new_size = Z.max w (minor + 1)).
      { unfold new_size. destruct (bool_decide_reflect (minor >= w));
          rewrite ?u32_small; lia. }
      rewrite bool_decide_eq_false_2 by lia.
      unfold write_dtab. rewrite Ht.
      rewrite decide_True by lia. simpl.
      eexists. split; [reflexivity|]. split; [intuition congruence|].
      intros st2 [= <-].
      assert (Hlen' : Z.of_nat
                (length (grow (dt_size dtab) new_size None table)) = new_size)
        by (apply grow_length; lia).
      assert (Hat : ∀ M, table_at
                (set_disktab (TabLive (<[Z.to_nat major :=
                   mk_table (Some (grow (dt_size dtab) new_size None table))
                     new_size]> t)) st) M
              = if decide (Z.to_nat M = Z.to_nat major)
                then Some (mk_table
                       (Some (grow (dt_size dtab) new_size None table))
                       new_size)
                else table_at st M).
      { intros M. unfold table_at. simpl. rewrite Ht.
        destruct (decide (Z.to_nat M = Z.to_nat major)) as [HMM|HMM].
        - rewrite HMM. apply list_lookup_insert_eq. lia.
        - by apply list_lookup_insert_ne. }
      split_and!.
      * unfold table_wf. simpl. rewrite length_insert.
        split_and!; try done; try lia.
        apply Forall_insert; [done|]. unfold dtab_wf. simpl. lia.
      * done.
      * done.
      * unfold minor_size. rewrite Hat, decide_True by done. simpl. lia.
      * unfold minor_size. rewrite Hat, decide_True by done. simpl.
        rewrite decide_False by lia. rewrite Hnew. unfold w.
        by destruct (decide (dt_size dtab = 0));
          [rewrite bool_decide_eq_true_2|rewrite bool_decide_eq_false_2].
      * intros M HM0 HMne. rewrite Hat. rewrite decide_False; [done|lia].
      * intros M m. unfold slot_at at 1. rewrite Hat.
        destruct (decide (Z.to_nat M = Z.to_nat major)) as [HMM|HMM]; [|done].
        assert (HsM : slot_at st M m = slot_at st major m).
        { unfold slot_at, table_at. by rewrite HMM. }
        rewrite HsM, Hslot. simpl.
        destruct (grow (dt_size dtab) new_size None table !! Z.to_nat m)
          as [x|] eqn:Hg.
        -- apply grow_lookup_Some in Hg as [->|[-> ->]]; [done|done|lia].
        -- rewrite grow_exact in Hg by lia.
           apply lookup_ge_None in Hg. rewrite length_app in Hg.
           rewrite (proj2 (lookup_ge_None table (Z.to_nat m))); [done|lia].
    + eexists. split; [reflexivity|]. split; [|done].
      split; [intros _; split; [lia|done]|done].
  - assert (Hlt : minor < dt_size dtab).
    { apply orb_false_iff in Hcond as [_ Hb].
      apply bool_decide_eq_false in Hb. lia. }
    eexists. split; [reflexivity|]. split; [split; [done|lia]|].
    intros st2 [= <-]. split_and!; try done.
    + by rewrite Hms.
    + by rewrite Hms, decide_True by lia.
Qed.

Lemma same_outside_table_trans st1 st2 st3 :
  same_outside_table st1 st2 → same_outside_table st2 st3 →
  same_outside_table st1 st3.
Proof.
  unfold same_outside_table. intros (?&?&?&?&?) (?&?&?&?&?).
  split_and!; congruence.
Qed.

Lemma slot_at_beyond st major minor :
  table_wf st → 0 ≤ major → 0 ≤ minor →
  ¬ (major < disktab_size st ∧ minor < minor_size st major) →
  slot_at st major minor = None.
Proof.
  intros Hwf HM Hm Hn.
  destruct (slot_at st major minor) as [p|] eqn:Hs; [|done].
  destruct Hn. eapply slot_at_bounds; eauto.
Qed.

(** What [create_disk_table_entry] returns and how it leaves the table. *)
Lemma create_disk_table_entry_spec env dev st :
  table_wf st → major_of dev < 2 ^ 32 - 1 → minor_of dev < 2 ^ 32 - 1 →
  ∃ r st', create_disk_table_entry env dev st = Ok (r, st')
    ∧ table_wf st'
    ∧ same_outside_table st st'
    ∧ (∀ M m, slot_at st' M m = slot_at st M m)
    ∧ (r = None ↔
         (needs_major st dev ∧ realloc_major_ok env = false)
         ∨ (needs_minor st dev ∧ realloc_minor_ok env = false))
    ∧ (r ≠ None → r = Some (major_of dev, minor_of dev)
         ∧ major_of dev < disktab_size st'
         ∧ minor_of dev < minor_size st' (major_of dev)
         ∧ minor_size st' (major_of dev) =
             (if decide (minor_of dev < minor_size st (major_of dev))
              then minor_size st (major_of dev)
              else Z.max (if decide (minor_size st (major_of dev) = 0)
                          then DISKTAB_INITIAL_SIZE
                          else u32 (2 * minor_size st (major_of dev)))
                     (minor_of dev + 1)))
    ∧ disktab_size st' =
        (if decide (major_of dev < disktab_size st) then disktab_size st
         else if realloc_major_ok env
              then Z.max (u32 (2 * disktab_size st)) (major_of dev + 1)
              else disktab_size st)
    ∧ (∀ M, 0 ≤ M < disktab_size st → M ≠ major_of dev →
         table_at st' M = table_at st M)
    ∧ (∀ M, disktab_size st ≤ M < disktab_size st' → M ≠ major_of dev →
         table_at st' M = Some zero_table)
    ∧ (r = None →
         minor_size st' (major_of dev) = minor_size st (major_of dev)).
Proof.
  intros Hwf HM Hm. unfold create_disk_table_entry, needs_major, needs_minor.
  rewrite split_eq.
  pose proof (major_of_range dev) as HMr.
  pose proof (minor_of_range dev) as Hmr.
  pose proof Hwf as (_ & _ & _ & Hpos & _)%table_wf_live.
  destruct (grow_major_spec env (major_of dev) st Hwf) as (r1 & -> & Hn1 & Hs1);
    [lia|].
  simpl. destruct r1 as [st1|].
  - destruct (Hs1 st1 eq_refl) as (Hwf1 & Hsame1 & Hlt1 & Hsz1 & Hold1 & Hnew1 & Hsl1).
    destruct (grow_minor_spec env (major_of dev) (minor_of dev) st1 Hwf1)
      as (r2 & -> & Hn2 & Hs2); [lia|lia|].
    assert (Hms1 : minor_size st1 (major_of dev) = minor_size st (major_of dev)).
    { unfold minor_size.
      destruct (decide (major_of dev < disktab_size st)).
      - rewrite Hold1 by lia. done.
      - rewrite Hnew1 by lia. by rewrite (table_at_ge st _ Hwf) by lia. }
    assert (Hsz1' : disktab_size st1 =
              (if decide (major_of dev < disktab_size st) then disktab_size st
               else if realloc_major_ok env
                    then Z.max (u32 (2 * disktab_size st)) (major_of dev + 1)
                    else disktab_size st)).
    { rewrite Hsz1. destruct (decide (major_of dev < disktab_size st)); [done|].
      destruct (realloc_major_ok env) eqn:Hre; [done|].
      assert (Some st1 = None) as [=]. apply Hn1. split; [lia|done]. }
    simpl. destruct r2 as [st2|].
    + destruct (Hs2 st2 eq_refl) as (Hwf2 & Hsame2 & Hsz2 & Hlt2 & Hms2 & Hoth2 & Hsl2).
      exists (Some (major_of dev, minor_of dev)), st2.
      split; [done|]. split_and!.
      * done.
      * eapply same_outside_table_trans; eauto.
      * intros M m. by rewrite Hsl2, Hsl1.
      * split; [done|]. intros [[Hge Hre]|[Hge Hre]].
        -- assert (Some st1 = None) as [=]. apply Hn1. done.
        -- assert (Some st2 = None) as [=]. apply Hn2. rewrite Hms1. done.
      * intros _. split_and!; try done; try lia.
        rewrite Hms2, Hms1. done.
      * by rewrite Hsz2.
      * intros M HMo HMne. rewrite Hoth2 by lia. apply Hold1. lia.
      * intros M HMo HMne. rewrite Hoth2 by lia. apply Hnew1. lia.
      * done.
    + exists None, st1. split; [done|]. split_and!.
      * done.
      * done.
      * done.
      * split; [|done]. intros _. right. rewrite <- Hms1. by apply Hn2.
      * done.
      * exact Hsz1'.
      * intros M HMo _. apply Hold1. lia.
      * intros M HMo _. apply Hnew1. lia.
      * done.
  - exists None, st. split; [done|].
    assert (Hf : disktab_size st ≤ major_of dev ∧ realloc_major_ok env = false)
      by (by apply Hn1).
    split_and!; try done.
    + split; [|done]. intros _. by left.
    + rewrite decide_False by lia. by rewrite (proj2 Hf).
    + lia.
Qed.

(** ** Claim C9: growth of the table *)

(** C9, counterexample: on the registry as [rtems_disk_io_initialize]
    leaves it, the inner table of major number 0 has capacity 0; making
    room for minor number 3 gives it capacity 8, whereas the larger of
    twice the old capacity and the exact fit is 4. *)
Lemma inner_growth_counterexample :
  ∃ st',
    create_disk_table_entry fair_weather (rtems_filesystem_make_dev_t 0 3)
      initialized = Ok (Some (0, 3), st')
    ∧ minor_size initialized 0 = 0
    ∧ minor_size st' 0 = 8
    ∧ minor_size st' 0 ≠ spec_capacity (minor_size initialized 0) 3.
Proof. eexists. split; [vm_compute; reflexivity|]. by vm_compute. Qed.

(** C9, as amended: for every identifier whose indices plus one and whose
    doubled capacities fit in 32 bits, [create_disk_table_entry] gives an
    outer table that has to grow the larger of twice its old capacity and
    major + 1, and an inner table that has to grow the larger of major + 1
    and either twice its old capacity or, when it was empty,
    [DISKTAB_INITIAL_SIZE]; every installed entry stays at its index, every
    added slot is empty, and a failed allocation is reported by a null
    result, the installed entries being the same then too. *)
Theorem create_disk_table_entry_growth env dev st :
  table_wf st →
  major_of dev + 1 < 2 ^ 32 → minor_of dev + 1 < 2 ^ 32 →
  2 * disktab_size st < 2 ^ 32 →
  2 * minor_size st (major_of dev) < 2 ^ 32 →
  ∃ r st', create_disk_table_entry env dev st = Ok (r, st')
    ∧ table_wf st'
    ∧ heap st' = heap st
    ∧ (∀ M m p, slot_at st M m = Some p → slot_at st' M m = Some p)
    ∧ (∀ M m, 0 ≤ M → 0 ≤ m →
         ¬ (M < disktab_size st ∧ m < minor_size st M) →
         slot_at st' M m = None)
    ∧ (needs_major st dev → realloc_major_ok env = true →
         disktab_size st' = spec_capacity (disktab_size st) (major_of dev))
    ∧ (¬ needs_major st dev ∨ realloc_major_ok env = false →
         disktab_size st' = disktab_size st)
    ∧ (r ≠ None → needs_minor st dev →
         minor_size st' (major_of dev)
         = inner_capacity (minor_size st (major_of dev)) (minor_of dev))
    ∧ (r = None ∨ ¬ needs_minor st dev →
         minor_size st' (major_of dev) = minor_size st (major_of dev))
    ∧ (∀ M, 0 ≤ M → M ≠ major_of dev → minor_size st' M = minor_size st M)
    ∧ (r = None ↔
         (needs_major st dev ∧ realloc_major_ok env = false)
         ∨ (needs_minor st dev ∧ realloc_minor_ok env = false))
    ∧ (r ≠ None → r = Some (major_of dev, minor_of dev)).
Proof.
  intros Hwf HM Hm H2M H2m.
  destruct (create_disk_table_entry_spec env dev st Hwf) as
    (r & st' & Hrun & Hwf' & Hsame & Hsl & Hnone & Hsome & Hsz & Hold & Hnew
       & Hfail); [lia|lia|].
  pose proof (major_of_range dev) as HMr.
  pose proof (minor_of_range dev) as Hmr.
  pose proof Hwf as (_ & _ & _ & Hpos & _)%table_wf_live.
  assert (Hms0 : 0 ≤ minor_size st (major_of dev)).
  { unfold minor_size. destruct (table_at st (major_of dev)) as [d|] eqn:Hd;
      [|done].
    apply table_at_Some in Hd as [_ Hd]; [|done|lia].
    unfold dtab_wf in Hd. destruct (dt_minor d); lia. }
  unfold needs_major, needs_minor in *.
  exists r, st'. split; [done|]. split_and!.
  - done.
  - apply Hsame.
  - intros M m p. by rewrite Hsl.
  - intros M m HM0 Hm0 Hn. rewrite Hsl. by apply slot_at_beyond.
  - intros Hge Hre. rewrite Hsz, decide_False, Hre by lia.
    unfold spec_capacity. rewrite u32_small by lia. done.
  - intros [Hlt|Hre]; rewrite Hsz.
    + by rewrite decide_True by lia.
    + rewrite Hre. by destruct (decide (major_of dev < disktab_size st)).
  - intros Hr Hge. destruct (Hsome Hr) as (_ & _ & _ & ->).
    rewrite decide_False by lia. unfold inner_capacity.
    destruct (decide (minor_size st (major_of dev) = 0)); [done|].
    by rewrite u32_small by lia.
  - intros [Hr|Hlt]; [by apply Hfail|].
    destruct r as [x|].
    + destruct (Hsome ltac:(done)) as (_ & _ & _ & ->).
      by rewrite decide_True by lia.
    + by apply Hfail.
  - intros M HM0 HMne. unfold minor_size.
    destruct (decide (M < disktab_size st)).
    + by rewrite Hold by lia.
    + rewrite (table_at_ge st M Hwf) by lia.
      destruct (decide (M < disktab_size st')).
      * by rewrite Hnew by lia.
      * by rewrite (table_at_ge st' M Hwf') by lia.
  - done.
  - intros Hr. by destruct (Hsome Hr).
Qed.

(** A run of the growth theorem: major number 9 lies beyond the eight
    entries of the initial outer table, which grows to 16; the new inner
    table of major number 9 gets 8 entries. *)
Lemma create_disk_table_entry_growth_witness :
  table_wf initialized
  ∧ ∃ st',
      create_disk_table_entry fair_weather (rtems_filesystem_make_dev_t 9 3)
        initialized = Ok (Some (9, 3), st')
      ∧ disktab_size st' = 16 ∧ minor_size st' 9 = 8.
Proof.
  assert (Hwf : table_wf initialized)
    by (apply (bool_decide_unpack _); vm_compute; exact I).
  split; [exact Hwf|].
  destruct (create_disk_table_entry_growth fair_weather
              (rtems_filesystem_make_dev_t 9 3) initialized Hwf)
    as (r & st' & Hrun & _ & _ & _ & _ & Hmaj & _ & Hmin & _ & _ & Hnone & Hsome);
    [by vm_compute..|].
  assert (Hr : r ≠ None).
  { rewrite Hnone. intros [[_ [=]]|[_ [=]]]. }
  exists st'. rewrite Hrun, (Hsome Hr). split; [done|]. split.
  - rewrite Hmaj; [done| |done]. unfold needs_major. by vm_compute.
  - assert (Hge : needs_minor initialized (rtems_filesystem_make_dev_t 9 3))
      by (unfold needs_minor; by vm_compute).
    exact (Hmin Hr Hge).
Defined.

(** ** Claim C10: initialization *)

(** C10: [rtems_disk_io_initialize] on an initialized registry returns
    success and changes nothing.  On a registry that is not initialized it
    succeeds exactly when the table allocation, the creation of the lock
    and the initialization of the buffer cache all succeed, and a second
    call is then without effect; otherwise the status is [RTEMS_NO_MEMORY]
    or [RTEMS_UNSATISFIED], the table the call allocated is not live any
    more, the semaphores and the descriptors are as before, and the
    registry is still not initialized. *)
Theorem rtems_disk_io_initialize_idempotent env st :
  (disktab_size st > 0 →
     rtems_disk_io_initialize env st = Ok (RTEMS_SUCCESSFUL, st))
  ∧ (disktab_size st ≤ 0 →
     ∃ sc st', rtems_disk_io_initialize env st = Ok (sc, st')
       ∧ sc = (if negb (calloc_ok env) then RTEMS_NO_MEMORY
               else if negb (semaphore_create_ok env) then RTEMS_NO_MEMORY
               else if negb (bdbuf_init_ok env) then RTEMS_UNSATISFIED
               else RTEMS_SUCCESSFUL)
       ∧ (sc = RTEMS_SUCCESSFUL →
            disktab_size st' = DISKTAB_INITIAL_SIZE
            ∧ diskdevs_mutex st' ∈ semaphores st'
            ∧ heap st' = heap st
            ∧ ∀ env', rtems_disk_io_initialize env' st'
                      = Ok (RTEMS_SUCCESSFUL, st'))
       ∧ (sc ≠ RTEMS_SUCCESSFUL →
            (sc = RTEMS_NO_MEMORY ∨ sc = RTEMS_UNSATISFIED)
            ∧ disktab_size st' = disktab_size st
            ∧ (∀ t, disktab st' ≠ TabLive t)
            ∧ semaphores st' = semaphores st
            ∧ heap st' = heap st)).
Proof.
  split.
  - intros Hpos. unfold rtems_disk_io_initialize.
    by rewrite bool_decide_eq_true_2.
  - intros Hzero. unfold rtems_disk_io_initialize.
    rewrite bool_decide_eq_false_2 by lia.
    destruct (calloc_ok env); simpl.
    + destruct (semaphore_create_ok env); simpl.
      * destruct (bdbuf_init_ok env); simpl.
        -- eexists _, _. split; [reflexivity|]. split; [done|]. split; [|done].
           intros _. simpl. split_and!; [done| |done|].
           { apply elem_of_union_l. by apply elem_of_singleton. }
           intros env'. unfold rtems_disk_io_initialize. simpl.
           done.
        -- eexists _, _. split; [reflexivity|]. split; [done|]. split; [done|].
           intros _. simpl. split_and!; [by right|done|done| |done].
           pose proof (is_fresh ({[RTEMS_ID_NONE]} ∪ semaphores st)) as Hf.
           rewrite difference_union_distr_l_L, difference_diag_L,
             union_empty_l_L.
           apply difference_disjoint_L, disjoint_singleton_r.
           intros Hin. apply Hf. by apply elem_of_union_r.
      * eexists _, _. split; [reflexivity|]. split; [done|]. split; [done|].
        intros _. simpl. split_and!; [by left|done|done|done|done].
    + eexists _, _. split; [reflexivity|]. split; [done|]. split; [done|].
      intros _. simpl. split_and!; [by left|done|done|done|done].
Qed.

(** A run of the theorem on each side: a second call on the initialized
    registry, and a first call during which the buffer cache fails. *)
Lemma rtems_disk_io_initialize_idempotent_witness :
  (disktab_size initialized > 0
   ∧ rtems_disk_io_initialize bdbuf_fails initialized
     = Ok (RTEMS_SUCCESSFUL, initialized))
  ∧ (disktab_size (boot ∅) ≤ 0
     ∧ ∃ st', rtems_disk_io_initialize bdbuf_fails (boot ∅)
              = Ok (RTEMS_UNSATISFIED, st')
        ∧ semaphores st' = ∅).
Proof.
  split.
  - split; [by vm_compute|].
    apply (proj1 (rtems_disk_io_initialize_idempotent bdbuf_fails initialized)).
    by vm_compute.
  - split; [by vm_compute|].
    destruct (proj2 (rtems_disk_io_initialize_idempotent bdbuf_fails (boot ∅)))
      as (sc & st' & Hrun & Hsc & _ & Hfail); [by vm_compute|].
    simpl in Hsc. subst sc. exists st'. split; [done|].
    by apply Hfail.
Defined.

(** ** Frame lemmas *)

Lemma table_wf_ext st st' :
  disktab st' = disktab st → disktab_size st' = disktab_size st →
  table_wf st → table_wf st'.
Proof. unfold table_wf. by intros -> ->. Qed.

Lemma table_at_ext st st' major :
  disktab st' = disktab st → table_at st' major = table_at st major.
Proof. unfold table_at. by intros ->. Qed.

Lemma slot_at_ext st st' major minor :
  disktab st' = disktab st → slot_at st' major minor = slot_at st major minor.
Proof. intros H. unfold slot_at. by rewrite (table_at_ext _ _ _ H). Qed.

Lemma minor_size_ext st st' major :
  disktab st' = disktab st → minor_size st' major = minor_size st major.
Proof. intros H. unfold minor_size. by rewrite (table_at_ext _ _ _ H). Qed.

Lemma minor_size_nonneg st major :
  table_wf st → 0 ≤ major → 0 ≤ minor_size st major.
Proof.
  intros Hwf HM. unfold minor_size.
  destruct (table_at st major) as [d|] eqn:Hd; [|done].
  apply table_at_Some in Hd as [_ Hd]; [|done|done].
  unfold dtab_wf in Hd. destruct (dt_minor d); lia.
Qed.

(** Within the recorded sizes the two reads of the code succeed and give
    the slot. *)
Lemma read_slot_at st major minor :
  table_wf st → 0 ≤ major < disktab_size st →
  0 ≤ minor < minor_size st major →
  ∃ dtab, read_dtab st major = Ok dtab
          ∧ dt_size dtab = minor_size st major
          ∧ not_null (dt_minor dtab) = true
          ∧ read_slot dtab minor = Ok (slot_at st major minor).
Proof.
  intros Hwf HM Hm.
  destruct (table_at_lt st major Hwf HM) as (dtab & Hd & Hdwf).
  exists dtab. rewrite (read_dtab_Some _ _ _ Hd).
  unfold minor_size in *. unfold slot_at, read_slot. rewrite Hd in *.
  unfold dtab_wf in Hdwf. destruct (dt_minor dtab) as [a|]; [|lia].
  destruct (lookup_lt_is_Some_2 a (Z.to_nat minor)) as [s Hs]; [lia|].
  rewrite Hs. done.
Qed.

(** Writing a slot within the recorded sizes. *)
Lemma write_slot_spec st major minor v :
  table_wf st → 0 ≤ major < disktab_size st →
  0 ≤ minor < minor_size st major →
  ∃ st', write_slot st major minor v = Ok st'
    ∧ table_wf st'
    ∧ same_outside_table st st'
    ∧ disktab_size st' = disktab_size st
    ∧ (∀ M, minor_size st' M = minor_size st M)
    ∧ (∀ M m, 0 ≤ M → 0 ≤ m →
         slot_at st' M m
         = if decide (M = major ∧ m = minor) then v else slot_at st M m).
Proof.
  intros Hwf HM Hm.
  pose proof Hwf as (t & Ht & Hlen & Hsz & Hall)%table_wf_live.
  destruct (table_at_lt st major Hwf HM) as (dtab & Hd & Hdwf).
  assert (Hd' : t !! Z.to_nat major = Some dtab)
    by (unfold table_at in Hd; by rewrite Ht in Hd).
  unfold write_slot. rewrite Ht, Hd'.
  unfold minor_size in Hm. rewrite Hd in Hm.
  unfold dtab_wf in Hdwf. destruct (dt_minor dtab) as [a|] eqn:Ha; [|lia].
  rewrite decide_True by lia.
  eexists. split; [reflexivity|].
  assert (Hat : ∀ M, table_at
            (set_disktab (TabLive (<[Z.to_nat major :=
               mk_table (Some (<[Z.to_nat minor := v]> a)) (dt_size dtab)]> t))
               st) M
          = if decide (Z.to_nat M = Z.to_nat major)
            then Some (mk_table (Some (<[Z.to_nat minor := v]> a))
                         (dt_size dtab))
            else table_at st M).
  { intros M. unfold table_at. simpl. rewrite Ht.
    destruct (decide (Z.to_nat M = Z.to_nat major)) as [HMM|HMM].
    - rewrite HMM. apply list_lookup_insert_eq. lia.
    - by apply list_lookup_insert_ne. }
  split_and!.
  - unfold table_wf. simpl. rewrite length_insert.
    split_and!; try done; try lia.
    apply Forall_insert; [done|]. unfold dtab_wf. simpl.
    rewrite length_insert. lia.
  - done.
  - done.
  - intros M. unfold minor_size. rewrite Hat.
    destruct (decide (Z.to_nat M = Z.to_nat major)) as [HMM|HMM]; [|done].
    simpl. unfold table_at. rewrite Ht, HMM, Hd'. done.
  - intros M m HM0 Hm0. unfold slot_at at 1. rewrite Hat.
    destruct (decide (Z.to_nat M = Z.to_nat major)) as [HMM|HMM].
    + assert (M = major) as -> by lia. simpl.
      destruct (decide (Z.to_nat m = Z.to_nat minor)) as [Hmm|Hmm].
      * assert (m = minor) as -> by lia.
        rewrite decide_True by done.
        rewrite list_lookup_insert_eq by lia. done.
      * rewrite decide_False by lia.
        rewrite list_lookup_insert_ne by done.
        unfold slot_at. by rewrite Hd, Ha.
    + rewrite decide_False by lia. done.
Qed.

(** ** [create_disk] *)

(** Within the recorded sizes [create_disk_table_entry] allocates
    nothing. *)
Lemma create_disk_table_entry_within env dev st :
  table_wf st → major_of dev < disktab_size st →
  minor_of dev < minor_size st (major_of dev) →
  create_disk_table_entry env dev st
  = Ok (Some (major_of dev, minor_of dev), st).
Proof.
  intros Hwf HM Hm.
  pose proof (major_of_range dev) as HMr.
  pose proof (minor_of_range dev) as Hmr.
  unfold create_disk_table_entry. rewrite split_eq.
  unfold grow_major. rewrite bool_decide_eq_false_2 by lia. simpl.
  destruct (read_slot_at st (major_of dev) (minor_of dev) Hwf)
    as (dtab & Hd & Hsz & Hnn & _); [lia|lia|].
  unfold grow_minor. rewrite Hd. simpl. rewrite Hnn. simpl.
  rewrite bool_decide_eq_false_2 by lia. done.
Qed.

(** An occupied slot: [create_disk] fails and touches nothing. *)
Lemma create_disk_occupied env dev name st q :
  table_wf st → slot_of st dev = Some q →
  create_disk env dev name st = Ok (RTEMS_RESOURCE_IN_USE, None, st).
Proof.
  intros Hwf Hq.
  pose proof (major_of_range dev) as HMr.
  pose proof (minor_of_range dev) as Hmr.
  destruct (slot_at_bounds st _ _ _ Hwf (proj1 HMr) (proj1 Hmr) Hq) as [HM Hm].
  unfold create_disk.
  rewrite create_disk_table_entry_within by done. simpl.
  destruct (read_slot_at st (major_of dev) (minor_of dev) Hwf)
    as (dtab & -> & _ & _ & Hs); [lia|lia|].
  simpl. rewrite Hs. simpl. unfold slot_of in Hq. by rewrite Hq.
Qed.

(** A free slot and a willing allocator: [create_disk] installs a fresh
    descriptor in the slot and touches no other slot and no other
    descriptor. *)
Lemma create_disk_free env dev name st :
  table_wf st → addressable dev → slot_of st dev = None →
  allocations_succeed env st dev name →
  ∃ st',
    create_disk env dev name st
    = Ok (RTEMS_SUCCESSFUL, Some (fresh (dom (heap st))), st')
    ∧ table_wf st'
    ∧ heap st' = <[fresh (dom (heap st)) := fresh_disk_device dev name]> (heap st)
    ∧ diskdevs_mutex st' = diskdevs_mutex st
    ∧ semaphores st' = semaphores st
    ∧ diskdevs_protected st' = diskdevs_protected st
    ∧ (∀ M m, 0 ≤ M → 0 ≤ m →
         slot_at st' M m
         = if decide (M = major_of dev ∧ m = minor_of dev)
           then Some (fresh (dom (heap st))) else slot_at st M m).
Proof.
  intros Hwf [HM Hm] Hfree (HaM & Ham & Hmalloc & Hname).
  pose proof (major_of_range dev) as HMr.
  pose proof (minor_of_range dev) as Hmr.
  destruct (create_disk_table_entry_spec env dev st Hwf) as
    (r & st1 & Hrun & Hwf1 & Hsame & Hsl & Hnone & Hsome & _); [lia|lia|].
  assert (Hr : r ≠ None).
  { rewrite Hnone. intros [[Hn Hf]|[Hn Hf]].
    - rewrite HaM in Hf; done.
    - rewrite Ham in Hf; done. }
  destruct (Hsome Hr) as (-> & HM1 & Hm1 & _).
  destruct Hsame as (Hheap & Hmx & Hsem & Hpr & Htr).
  unfold create_disk. rewrite Hrun. simpl.
  destruct (read_slot_at st1 (major_of dev) (minor_of dev) Hwf1)
    as (dtab & -> & _ & _ & Hs); [lia|lia|].
  simpl. rewrite Hs, Hsl. simpl. unfold slot_of in Hfree. rewrite Hfree.
  rewrite Hmalloc. simpl.
  set (st1' := match name with
               | Some n => log_event
                             (EvRegisterName n (major_of dev) (minor_of dev)) st1
               | None => st1
               end).
  assert (Hst1' : disktab st1' = disktab st1
                  ∧ disktab_size st1' = disktab_size st1
                  ∧ heap st1' = heap st1
                  ∧ diskdevs_mutex st1' = diskdevs_mutex st1
                  ∧ semaphores st1' = semaphores st1
                  ∧ diskdevs_protected st1' = diskdevs_protected st1)
    by (unfold st1'; by destruct name).
  destruct Hst1' as (Hd1 & Hz1 & Hh1 & Hx1 & Hs1 & Hp1).
  set (st1'' := store (fresh (dom (heap st1')))
                  (fresh_disk_device dev name) st1').
  destruct (write_slot_spec st1'' (major_of dev) (minor_of dev)
              (Some (fresh (dom (heap st1')))))
    as (st2 & Hw & Hwf2 & Hsame2 & Hsz2 & Hms2 & Hsl2).
  { apply (table_wf_ext st1); [by rewrite <- Hd1|by rewrite <- Hz1|done]. }
  { change (disktab_size st1'') with (disktab_size st1'). lia. }
  { rewrite (minor_size_ext st1); [lia|]. by rewrite <- Hd1. }
  assert (Hgoal :
    (if not_null name && negb (strdup_ok env)
     then Ok (RTEMS_NO_MEMORY, None, st1)
     else if not_null name && negb (register_name_ok env)
          then Ok (RTEMS_UNSATISFIED, None, st1')
          else st ← write_slot st1'' (major_of dev) (minor_of dev)
                      (Some (fresh (dom (heap st1'))));
               Ok (RTEMS_SUCCESSFUL, Some (fresh (dom (heap st1'))), st))
    = Ok (RTEMS_SUCCESSFUL, Some (fresh (dom (heap st))), st2)).
  { rewrite Hw. simpl. rewrite Hh1, Hheap.
    destruct name as [n|]; [|done].
    destruct Hname as [-> ->]; done. }
  exists st2. split; [exact Hgoal|].
  destruct Hsame2 as (Hheap2 & Hmx2 & Hsem2 & Hpr2 & Htr2).
  split_and!.
  - done.
  - rewrite Hheap2. unfold st1''. simpl. by rewrite Hh1, Hheap.
  - rewrite Hmx2. unfold st1''. simpl. by rewrite Hx1.
  - rewrite Hsem2. unfold st1''. simpl. by rewrite Hs1.
  - rewrite Hpr2. unfold st1''. simpl. by rewrite Hp1.
  - intros M m HM0 Hm0. rewrite Hsl2 by done. rewrite Hh1, Hheap.
    destruct (decide (M = major_of dev ∧ m = minor_of dev)); [done|].
    rewrite (slot_at_ext st1 st1'') by (by rewrite <- Hd1). apply Hsl.
Qed.

(** ** The lock in a sequential run *)

Lemma disk_lock_free st :
  lock_free st → disk_lock st = (RTEMS_SUCCESSFUL, set_protected true st).
Proof. intros [Hin _]. unfold disk_lock. by rewrite decide_True. Qed.

Lemma disk_unlock_held st :
  diskdevs_mutex st ∈ semaphores st →
  disk_unlock st = Ok (set_protected false st).
Proof. intros Hin. unfold disk_unlock. simpl. by rewrite decide_True. Qed.

Lemma set_protected_roundtrip st :
  diskdevs_protected st = false → set_protected false (set_protected true st) = st.
Proof. destruct st. simpl. by intros ->. Qed.

Lemma allocations_succeed_ext env st st' dev name :
  disktab st' = disktab st → disktab_size st' = disktab_size st →
  allocations_succeed env st dev name → allocations_succeed env st' dev name.
Proof.
  intros Hd Hs. unfold allocations_succeed, needs_major, needs_minor.
  by rewrite (minor_size_ext st st') by done; rewrite Hs.
Qed.

(** ** Claim C8: a physical disk right after its creation *)

(** C8: for every block size above zero and every handler that is not
    null, with the slot of the identifier free and the allocations
    succeeding, [rtems_disk_create_phys] succeeds, and [rtems_disk_obtain]
    on the same identifier right after it returns a descriptor that has the
    block size supplied, is its own physical device, and has use count
    1. *)
Theorem create_phys_then_obtain env dev block_size block_count handler
    driver_data name st :
  table_wf st → lock_free st →
  0 < block_size → handler ≠ None →
  addressable dev → slot_of st dev = None →
  allocations_succeed env st dev name →
  ∃ st1 dd st2 d,
    rtems_disk_create_phys env dev block_size block_count handler driver_data
      name st = Ok (RTEMS_SUCCESSFUL, st1)
    ∧ rtems_disk_obtain dev st1 = Ok (Some dd, st2)
    ∧ heap st2 !! dd = Some d
    ∧ dd_block_size d = block_size
    ∧ dd_phys_dev d = Some dd
    ∧ dd_uses d = 1.
Proof.
  intros Hwf Hlock Hbs Hh Haddr Hfree Halloc.
  pose proof Hlock as [Hmx Hpr].
  unfold rtems_disk_create_phys.
  destruct handler as [h|]; [|done]. simpl.
  rewrite bool_decide_eq_false_2 by lia.
  rewrite (disk_lock_free _ Hlock). simpl.
  destruct (create_disk_free env dev name (set_protected true st))
    as (st' & -> & Hwf' & Hheap & Hmx' & Hsem' & Hpr' & Hsl); try done.
  simpl. simpl in Hheap.
  set (p := fresh (dom (heap st))) in *.
  unfold deref. rewrite Hheap, lookup_insert_eq. simpl.
  destruct (ioctl_capabilities env) as [rc caps].
  rewrite disk_unlock_held by (simpl; by rewrite Hmx', Hsem').
  eexists _, p, _, _. split; [reflexivity|].
  pose proof (major_of_range dev) as HMr.
  pose proof (minor_of_range dev) as Hmr.
  unfold rtems_disk_obtain. simpl.
  rewrite get_disk_entry_spec by (eapply table_wf_ext; [| |exact Hwf']; done).
  unfold slot_of.
  rewrite (slot_at_ext st') by done.
  rewrite Hsl by lia. rewrite decide_True by done.
  simpl. rewrite lookup_insert_eq. simpl.
  split; [reflexivity|]. simpl. rewrite lookup_insert_eq.
  split; [reflexivity|]. done.
Qed.

(** Discharges a decidable side condition on a given registry by running
    its decision procedure. *)
Ltac by_decision := apply (bool_decide_unpack _); vm_compute; exact I.

Lemma fair_weather_succeeds st dev name :
  allocations_succeed fair_weather st dev name.
Proof. unfold allocations_succeed. by split_and!. Qed.

(** A run of the theorem: the disk (1, 0) of 1000 blocks of 512 bytes on
    the registry right after initialization. *)
Lemma create_phys_then_obtain_witness :
  table_wf initialized ∧ lock_free initialized
  ∧ slot_of initialized (rtems_filesystem_make_dev_t 1 0) = None
  ∧ ∃ st1 dd st2 d,
      rtems_disk_create_phys fair_weather (rtems_filesystem_make_dev_t 1 0)
        512 1000 (Some 7) 0 None initialized = Ok (RTEMS_SUCCESSFUL, st1)
      ∧ rtems_disk_obtain (rtems_filesystem_make_dev_t 1 0) st1
        = Ok (Some dd, st2)
      ∧ heap st2 !! dd = Some d
      ∧ dd_block_size d = 512
      ∧ dd_phys_dev d = Some dd
      ∧ dd_uses d = 1.
Proof.
  split_and!; [by_decision|by_decision|by vm_compute|].
  apply create_phys_then_obtain;
    [by_decision|by_decision|lia|done|by_decision|by vm_compute|].
  apply fair_weather_succeeds.
Defined.

(** ** Running the checker *)

Lemma forall_slots_sound test st :
  forall_slots test st = true →
  ∀ major minor p,
    0 ≤ major → 0 ≤ minor →
    slot_at st major minor = Some p → test major minor p = true.
Proof.
  intros Hc major minor p HM Hm Hs.
  destruct (slot_at_Some _ _ _ _ Hs) as (dtab & a & Ht & Ha & Hl).
  unfold forall_slots in Hc. unfold table_at in Ht.
  destruct (disktab st) as [|t|]; try done.
  rewrite forallb_forall in Hc.
  specialize (Hc (Z.to_nat major, dtab)). simpl in Hc. rewrite Ha in Hc.
  assert (Hin : In (Z.to_nat major, dtab) (imap pair t)).
  { apply list_elem_of_In, elem_of_lookup_imap. by exists (Z.to_nat major), dtab. }
  specialize (Hc Hin). unfold forall_array in Hc.
  rewrite forallb_forall in Hc.
  specialize (Hc (Z.to_nat minor, Some p)). simpl in Hc.
  assert (Hin' : In (Z.to_nat minor, Some p) (imap pair a)).
  { apply list_elem_of_In, elem_of_lookup_imap.
    by exists (Z.to_nat minor), (Some p). }
  specialize (Hc Hin'). by rewrite !Z2Nat.id in Hc by lia.
Qed.

Lemma check_slots_sound st : check_slots st = true → slots_ok st.
Proof.
  intros Hc major minor p HM Hm Hs.
  pose proof (forall_slots_sound _ _ Hc major minor p HM Hm Hs) as Hok.
  by apply bool_decide_eq_true in Hok.
Qed.

Lemma check_registry_sound st : check_registry st = true → registry_wf st.
Proof.
  unfold check_registry. intros [[H1 H2]%andb_true_iff H3]%andb_true_iff.
  apply bool_decide_eq_true in H1, H2.
  split; [done|done|by apply check_slots_sound].
Qed.

(** What the invariant says of the descriptor in a slot. *)
Lemma slots_ok_slot_of st dev p :
  slots_ok st → slot_of st dev = Some p →
  ∃ d, heap st !! p = Some d
       ∧ dd_dev d = rtems_filesystem_make_dev_t (major_of dev) (minor_of dev)
       ∧ 0 ≤ dd_uses d < 2 ^ 32
       ∧ 0 ≤ dd_size d < 2 ^ 32
       ∧ ∃ q o, dd_phys_dev d = Some q ∧ heap st !! q = Some o
                ∧ dd_phys_dev o = Some q ∧ slot_of st (dd_dev o) = Some q.
Proof.
  intros Hok Hs.
  pose proof (major_of_range dev) as HMr.
  pose proof (minor_of_range dev) as Hmr.
  specialize (Hok _ _ _ (proj1 HMr) (proj1 Hmr) Hs). unfold slot_ok in Hok.
  destruct (heap st !! p) as [d|]; [|done].
  destruct Hok as (Hdev & Hu & Hsz & Hown).
  exists d. split_and!; try done; try lia.
  destruct (dd_phys_dev d) as [q|]; [|done].
  destruct (heap st !! q) as [o|] eqn:Ho; [|done].
  destruct Hown. by exists q, o.
Qed.

(** A free slot and an allocator that refuses: [create_disk] reports the
    failure and leaves every slot and every descriptor as they were. *)
Lemma create_disk_refused env dev name st :
  table_wf st → addressable dev → slot_of st dev = None →
  ¬ allocations_succeed env st dev name →
  ∃ sc st',
    create_disk env dev name st = Ok (sc, None, st')
    ∧ (sc = RTEMS_NO_MEMORY ∨ sc = RTEMS_UNSATISFIED)
    ∧ table_wf st'
    ∧ (heap st' = heap st
       ∧ diskdevs_mutex st' = diskdevs_mutex st
       ∧ semaphores st' = semaphores st
       ∧ diskdevs_protected st' = diskdevs_protected st
       ∧ trace st' =
           trace st
           ++ (if bool_decide (sc = RTEMS_UNSATISFIED) then
                 match name with
                 | Some n => [EvRegisterName n (major_of dev) (minor_of dev)]
                 | None => []
                 end
               else []))
    ∧ (∀ M m, slot_at st' M m = slot_at st M m)
    ∧ (sc = RTEMS_UNSATISFIED ↔ memory_succeeds env st dev name).
Proof.
  intros Hwf [HM Hm] Hfree Hno.
  pose proof (major_of_range dev) as HMr.
  pose proof (minor_of_range dev) as Hmr.
  destruct (create_disk_table_entry_spec env dev st Hwf) as
    (r & st1 & Hrun & Hwf1 & Hsame & Hsl & Hnone & Hsome & _); [lia|lia|].
  destruct Hsame as (Hheap & Hmx & Hsem & Hpr & Htr).
  unfold create_disk. rewrite Hrun. simpl.
  assert (Hmem_tab : r ≠ None →
            (needs_major st dev → realloc_major_ok env = true)
            ∧ (needs_minor st dev → realloc_minor_ok env = true)).
  { intros Hr. split; intros Hn.
    - destruct (realloc_major_ok env) eqn:E; [done|].
      destruct Hr. apply Hnone. by left.
    - destruct (realloc_minor_ok env) eqn:E; [done|].
      destruct Hr. apply Hnone. by right. }
  assert (Hno_mem : ∀ st2,
            heap st2 = heap st1 → diskdevs_mutex st2 = diskdevs_mutex st1 →
            semaphores st2 = semaphores st1 →
            diskdevs_protected st2 = diskdevs_protected st1 →
            trace st2 = trace st1 →
            disktab st2 = disktab st1 → disktab_size st2 = disktab_size st1 →
            ¬ memory_succeeds env st dev name →
            (RTEMS_NO_MEMORY = RTEMS_NO_MEMORY
             ∨ RTEMS_NO_MEMORY = RTEMS_UNSATISFIED)
            ∧ table_wf st2
            ∧ (heap st2 = heap st
               ∧ diskdevs_mutex st2 = diskdevs_mutex st
               ∧ semaphores st2 = semaphores st
               ∧ diskdevs_protected st2 = diskdevs_protected st
               ∧ trace st2 = trace st ++ [])
            ∧ (∀ M m, slot_at st2 M m = slot_at st M m)
            ∧ (RTEMS_NO_MEMORY = RTEMS_UNSATISFIED
               ↔ memory_succeeds env st dev name)).
  { intros st2 Hh2 Hx2 Hs2 Hp2 Ht2 Hd2 Hz2 Hnm.
    split; [by left|]. split; [by eapply table_wf_ext; [| |exact Hwf1]|].
    split.
    { split_and!; try congruence. rewrite app_nil_r. congruence. }
    split; [intros M m; rewrite (slot_at_ext st1) by done; apply Hsl|].
    split; [done|tauto]. }
  destruct r as [[M m]|].
  2: { exists RTEMS_NO_MEMORY, st1. split; [done|].
       apply Hno_mem; try done. intros (HaM & Ham & _).
       destruct (proj1 Hnone eq_refl) as [[Hn Hf]|[Hn Hf]].
       - by rewrite HaM in Hf.
       - by rewrite Ham in Hf. }
  destruct (Hsome ltac:(done)) as ([= -> ->] & HM1 & Hm1 & _).
  destruct (Hmem_tab ltac:(done)) as [HaM Ham].
  destruct (read_slot_at st1 (major_of dev) (minor_of dev) Hwf1)
    as (dtab & -> & _ & _ & Hs); [lia|lia|].
  simpl. rewrite Hs, Hsl. simpl. unfold slot_of in Hfree. rewrite Hfree.
  destruct (malloc_ok env) eqn:Hmalloc; simpl.
  2: { exists RTEMS_NO_MEMORY, st1. split; [done|].
       apply Hno_mem; try done. intros (_ & _ & ? & _). congruence. }
  destruct name as [n|]; simpl.
  2: { destruct Hno. split_and!; done. }
  destruct (strdup_ok env) eqn:Hstr; simpl.
  2: { exists RTEMS_NO_MEMORY, st1. split; [done|].
       apply Hno_mem; try done. intros (_ & _ & _ & Hn).
       by rewrite Hn in Hstr. }
  destruct (register_name_ok env) eqn:Hreg; simpl.
  { destruct Hno. split_and!; done. }
  eexists RTEMS_UNSATISFIED, _. split; [reflexivity|].
  split; [by right|].
  split; [by eapply table_wf_ext; [| |exact Hwf1]|].
  split; [simpl; split_and!; try done; by rewrite Htr|].
  split; [intros M m; rewrite (slot_at_ext st1) by done; apply Hsl|].
  split; [intros _|done]. split_and!; done.
Qed.

(** ** [rtems_disk_create_log] *)

Lemma deref_store_eq st p d : deref (store p d st) p = Ok d.
Proof. unfold deref, store. simpl. by rewrite lookup_insert_eq. Qed.

Lemma deref_Some st p d : heap st !! p = Some d → deref st p = Ok d.
Proof. unfold deref. by intros ->. Qed.

(** The range test of the code, on 32-bit arguments, is the range
    condition on integers. *)
Lemma range_test begin_block block_count size :
  is_u32 begin_block → is_u32 block_count → is_u32 size →
  bool_decide (begin_block >= size)
  || bool_decide (u32 (begin_block + block_count) <= begin_block)
  || bool_decide (u32 (begin_block + block_count) > size)
  = negb (bool_decide (valid_range begin_block block_count size)).
Proof.
  unfold is_u32, valid_range. intros Hb Hc Hs.
  destruct (decide (begin_block + block_count < 2 ^ 32)) as [Hlt|Hge].
  - rewrite u32_small by lia.
    repeat case_bool_decide; simpl; try done; lia.
  - assert (Hw : u32 (begin_block + block_count)
                 = begin_block + block_count - 2 ^ 32).
    { unfold u32. symmetry. eapply Z.mod_unique_pos with (q := 1); lia. }
    rewrite Hw.
    repeat case_bool_decide; simpl; try done; lia.
Qed.

Lemma set_uses_roundtrip pd :
  0 ≤ dd_uses pd < 2 ^ 32 →
  set_uses (u32 (u32 (dd_uses pd + 1) - 1))
    (set_uses (u32 (dd_uses pd + 1)) pd) = pd.
Proof.
  intros Hu. destruct pd. unfold set_uses.
  cbn [dd_dev dd_phys_dev dd_capabilities dd_name dd_uses dd_start dd_size
       dd_block_size dd_media_block_size dd_ioctl dd_driver_data dd_deleted]
    in *.
  by rewrite u32_incr_decr.
Qed.

(** Undoing the reference [get_disk_entry] took on the physical disk and
    unlocking gives back the registry as it was at the call. *)
Lemma restore_uses {A : Type} (k : registry → result A) st pp pd :
  lock_free st → heap st !! pp = Some pd → 0 ≤ dd_uses pd < 2 ^ 32 →
  (st1 ← decrement_uses pp
           (store pp (set_uses (u32 (dd_uses pd + 1)) pd)
              (set_protected true st));
   st2 ← disk_unlock st1;
   k st2) = k st.
Proof.
  intros [Hmx Hpr] Hpd Hu. unfold decrement_uses, deref. simpl.
  rewrite lookup_insert_eq. simpl.
  rewrite disk_unlock_held by done. simpl.
  f_equal. destruct st as [tab sz mx pr h sems tr]. simpl in *. subst pr.
  unfold set_protected, store, set_heap. simpl. f_equal.
  rewrite insert_insert_eq. apply insert_id.
  by rewrite set_uses_roundtrip.
Qed.

(** [rtems_disk_create_log] once the physical disk is found: the reference
    is taken, the range is tested, and the rest is [create_disk] and the
    initialization of the new descriptor. *)
Lemma create_log_found env dev phys begin_block block_count name st pp pd :
  table_wf st → lock_free st →
  slot_of st phys = Some pp → heap st !! pp = Some pd →
  dd_deleted pd = false → dd_phys_dev pd = Some pp →
  0 ≤ dd_uses pd < 2 ^ 32 →
  is_u32 (dd_size pd) → is_u32 begin_block → is_u32 block_count →
  rtems_disk_create_log env dev phys begin_block block_count name st
  = let st_a := store pp (set_uses (u32 (dd_uses pd + 1)) pd)
                  (set_protected true st) in
    if bool_decide (valid_range begin_block block_count (dd_size pd)) then
      '(sc, dd, st1) ← create_disk env dev name st_a;
      if bool_decide (sc ≠ RTEMS_SUCCESSFUL) then
        st2 ← decrement_uses pp st1;
        st3 ← disk_unlock st2;
        Ok (sc, st3)
      else
        '(p, d) ← deref_opt st1 dd;
        pd' ← deref st1 pp;
        let d :=
          mk_disk_device (dd_dev d) (Some pp) (dd_capabilities d)
            (dd_name d) (dd_uses d) begin_block block_count
            (dd_block_size pd') (dd_block_size pd') (dd_ioctl pd')
            (dd_driver_data pd') (dd_deleted d) in
        st2 ← disk_unlock (store p d st1);
        Ok (RTEMS_SUCCESSFUL, st2)
    else Ok (RTEMS_INVALID_NUMBER, st).
Proof.
  intros Hwf Hlock Hpp Hpd Hlive Hphys Hu Hsz Hb Hc.
  unfold rtems_disk_create_log.
  rewrite (disk_lock_free _ Hlock). simpl.
  rewrite get_disk_entry_spec by (by eapply table_wf_ext; [| |exact Hwf]).
  unfold slot_of in *. rewrite (slot_at_ext st) by done. rewrite Hpp.
  simpl. rewrite Hpd, Hlive. simpl.
  rewrite deref_store_eq. simpl.
  unfold is_physical_disk. simpl. rewrite bool_decide_eq_true_2 by done.
  simpl. rewrite range_test by done.
  destruct (bool_decide (valid_range begin_block block_count (dd_size pd)));
    simpl.
  - done.
  - by apply (restore_uses (λ s, Ok (RTEMS_INVALID_NUMBER, s))).
Qed.

Lemma heap_restore (h : gmap ptr rtems_disk_device) pp pd :
  h !! pp = Some pd → 0 ≤ dd_uses pd < 2 ^ 32 →
  <[pp := set_uses (u32 (u32 (dd_uses pd + 1) - 1))
            (set_uses (u32 (dd_uses pd + 1)) pd)]>
    (<[pp := set_uses (u32 (dd_uses pd + 1)) pd]> h) = h.
Proof.
  intros Hpd Hu. rewrite insert_insert_eq, set_uses_roundtrip by done.
  by apply insert_id.
Qed.

(** The slot of the new identifier is taken: the call fails with
    [RTEMS_RESOURCE_IN_USE] and gives back the registry as it was. *)
Lemma create_log_occupied env dev phys begin_block block_count name st pp pd q :
  table_wf st → lock_free st →
  slot_of st phys = Some pp → heap st !! pp = Some pd →
  dd_deleted pd = false → dd_phys_dev pd = Some pp →
  0 ≤ dd_uses pd < 2 ^ 32 →
  is_u32 (dd_size pd) → is_u32 begin_block → is_u32 block_count →
  valid_range begin_block block_count (dd_size pd) →
  slot_of st dev = Some q →
  rtems_disk_create_log env dev phys begin_block block_count name st
  = Ok (RTEMS_RESOURCE_IN_USE, st).
Proof.
  intros Hwf Hlock Hpp Hpd Hlive Hphys Hu Hsz Hb Hc Hvalid Hq.
  rewrite (create_log_found _ _ _ _ _ _ _ pp pd) by done.
  cbv zeta. rewrite bool_decide_eq_true_2 by done.
  rewrite (create_disk_occupied _ _ _ _ q);
    [|by eapply table_wf_ext; [| |exact Hwf]|done].
  simpl. by apply (restore_uses (λ s, Ok (RTEMS_RESOURCE_IN_USE, s))).
Qed.

(** The allocator refuses: the call fails, and every slot and every
    descriptor is as before. *)
Lemma create_log_refused env dev phys begin_block block_count name st pp pd :
  table_wf st → lock_free st →
  slot_of st phys = Some pp → heap st !! pp = Some pd →
  dd_deleted pd = false → dd_phys_dev pd = Some pp →
  0 ≤ dd_uses pd < 2 ^ 32 →
  is_u32 (dd_size pd) → is_u32 begin_block → is_u32 block_count →
  valid_range begin_block block_count (dd_size pd) →
  addressable dev → slot_of st dev = None →
  ¬ allocations_succeed env st dev name →
  ∃ sc st',
    rtems_disk_create_log env dev phys begin_block block_count name st
    = Ok (sc, st')
    ∧ (sc = RTEMS_NO_MEMORY ∨ sc = RTEMS_UNSATISFIED)
    ∧ heap st' = heap st
    ∧ table_wf st' ∧ lock_free st'
    ∧ (∀ M m, slot_at st' M m = slot_at st M m).
Proof.
  intros Hwf Hlock Hpp Hpd Hlive Hphys Hu Hsz Hb Hc Hvalid Haddr Hfree Hno.
  pose proof Hlock as [Hmx Hpr].
  rewrite (create_log_found _ _ _ _ _ _ _ pp pd) by done.
  cbv zeta. rewrite bool_decide_eq_true_2 by done.
  set (st_a := store pp (set_uses (u32 (dd_uses pd + 1)) pd)
                 (set_protected true st)).
  destruct (create_disk_refused env dev name st_a)
    as (sc & st1 & -> & Hsc & Hwf1 & (Hh1 & Hx1 & Hs1 & Hp1 & Ht1) & Hsl1
        & _).
  { by eapply table_wf_ext; [| |exact Hwf]. }
  { done. }
  { done. }
  { intros Ha. apply Hno. by eapply allocations_succeed_ext; [| |exact Ha]. }
  simpl. rewrite bool_decide_eq_true_2 by (destruct Hsc; by subst).
  unfold decrement_uses.
  rewrite (deref_Some st1 pp (set_uses (u32 (dd_uses pd + 1)) pd))
    by (rewrite Hh1; apply lookup_insert_eq).
  simpl. rewrite disk_unlock_held by (simpl; by rewrite Hx1, Hs1).
  eexists _, _. split; [reflexivity|]. split; [done|]. simpl. split_and!.
  - rewrite Hh1. by apply heap_restore.
  - eapply table_wf_ext; [| |exact Hwf1]; done.
  - split; simpl; [by rewrite Hx1, Hs1|done].
  - intros M m. rewrite <- (slot_at_ext st st_a) by done.
    rewrite <- Hsl1. by apply slot_at_ext.
Qed.

(** Everything in order: the call succeeds, the physical disk keeps the
    reference taken on it, and a fresh descriptor is installed. *)
Lemma create_log_success env dev phys begin_block block_count name st pp pd :
  table_wf st → lock_free st →
  slot_of st phys = Some pp → heap st !! pp = Some pd →
  dd_deleted pd = false → dd_phys_dev pd = Some pp →
  0 ≤ dd_uses pd < 2 ^ 32 →
  is_u32 (dd_size pd) → is_u32 begin_block → is_u32 block_count →
  valid_range begin_block block_count (dd_size pd) →
  addressable dev → slot_of st dev = None →
  allocations_succeed env st dev name →
  ∃ st',
    rtems_disk_create_log env dev phys begin_block block_count name st
    = Ok (RTEMS_SUCCESSFUL, st')
    ∧ fresh (dom (heap st)) ≠ pp
    ∧ heap st' =
        <[fresh (dom (heap st)) :=
            mk_disk_device dev (Some pp) 0 name 0 begin_block block_count
              (dd_block_size pd) (dd_block_size pd) (dd_ioctl pd)
              (dd_driver_data pd) false]>
          (<[pp := set_uses (u32 (dd_uses pd + 1)) pd]> (heap st))
    ∧ table_wf st' ∧ lock_free st'
    ∧ (∀ M m, 0 ≤ M → 0 ≤ m →
         slot_at st' M m
         = if decide (M = major_of dev ∧ m = minor_of dev)
           then Some (fresh (dom (heap st))) else slot_at st M m).
Proof.
  intros Hwf Hlock Hpp Hpd Hlive Hphys Hu Hsz Hb Hc Hvalid Haddr Hfree Halloc.
  pose proof Hlock as [Hmx Hpr].
  rewrite (create_log_found _ _ _ _ _ _ _ pp pd) by done.
  cbv zeta. rewrite bool_decide_eq_true_2 by done.
  set (st_a := store pp (set_uses (u32 (dd_uses pd + 1)) pd)
                 (set_protected true st)).
  assert (Hdom : dom (heap st_a) = dom (heap st)).
  { unfold st_a. simpl. apply dom_insert_lookup_L. by rewrite Hpd. }
  assert (Hne : fresh (dom (heap st)) ≠ pp).
  { intros Heq. apply (is_fresh (dom (heap st))). rewrite Heq.
    apply elem_of_dom. by rewrite Hpd. }
  destruct (create_disk_free env dev name st_a)
    as (st1 & -> & Hwf1 & Hh1 & Hx1 & Hs1 & Hp1 & Hsl1).
  { by eapply table_wf_ext; [| |exact Hwf]. }
  { done. }
  { done. }
  { by eapply allocations_succeed_ext; [| |exact Halloc]. }
  rewrite Hdom in *. set (p := fresh (dom (heap st))) in *.
  simpl. unfold deref_opt.
  rewrite (deref_Some st1 p (fresh_disk_device dev name))
    by (rewrite Hh1; apply lookup_insert_eq).
  simpl.
  rewrite (deref_Some st1 pp (set_uses (u32 (dd_uses pd + 1)) pd)).
  2:{ rewrite Hh1, lookup_insert_ne by done. apply lookup_insert_eq. }
  simpl. rewrite disk_unlock_held by (simpl; by rewrite Hx1, Hs1).
  eexists. split; [reflexivity|]. split; [done|]. simpl. split_and!.
  - rewrite Hh1. by rewrite insert_insert_eq.
  - eapply table_wf_ext; [| |exact Hwf1]; done.
  - split; simpl; [by rewrite Hx1, Hs1|done].
  - intros M m HM0 Hm0. rewrite (slot_at_ext st1) by done.
    rewrite Hsl1 by done.
    destruct (decide (M = major_of dev ∧ m = minor_of dev)); [done|].
    by apply slot_at_ext.
Qed.

(** ** Claim C7: creating over an occupied slot *)

(** C7: when the slot of an identifier holds a descriptor (deleted or
    not), a creation of a physical disk with that identifier (block size
    above zero, handler not null), and a creation of a logical disk with
    that identifier (on a live physical disk, with a range that fits it),
    fail with [RTEMS_RESOURCE_IN_USE] and give back the registry as it was:
    the slot, the descriptor in it and every use count are unchanged. *)
Theorem create_over_occupied_slot env st dev q :
  registry_wf st → slot_of st dev = Some q →
  (∀ block_size block_count handler driver_data name,
     handler ≠ None → block_size ≠ 0 →
     rtems_disk_create_phys env dev block_size block_count handler
       driver_data name st = Ok (RTEMS_RESOURCE_IN_USE, st))
  ∧ (∀ phys pp pd begin_block block_count name,
       slot_of st phys = Some pp → heap st !! pp = Some pd →
       dd_deleted pd = false → dd_phys_dev pd = Some pp →
       is_u32 begin_block → is_u32 block_count →
       valid_range begin_block block_count (dd_size pd) →
       rtems_disk_create_log env dev phys begin_block block_count name st
       = Ok (RTEMS_RESOURCE_IN_USE, st)).
Proof.
  intros [Hwf Hlock Hslots] Hq. split.
  - intros block_size block_count handler driver_data name Hh Hbs.
    pose proof Hlock as [Hmx Hpr].
    unfold rtems_disk_create_phys.
    destruct handler as [h|]; [|done]. simpl.
    rewrite bool_decide_eq_false_2 by done.
    rewrite (disk_lock_free _ Hlock). simpl.
    rewrite (create_disk_occupied _ _ _ _ q);
      [|by eapply table_wf_ext; [| |exact Hwf]|done].
    simpl. rewrite disk_unlock_held by done. simpl.
    by rewrite set_protected_roundtrip.
  - intros phys pp pd begin_block block_count name Hpp Hpd Hlive Hphys Hb Hc
      Hvalid.
    destruct (slots_ok_slot_of _ _ _ Hslots Hpp)
      as (pd' & Hpd' & _ & Hu & Hsz & _).
    rewrite Hpd in Hpd'. injection Hpd' as <-.
    by eapply create_log_occupied.
Qed.

(** Establishes the invariant of a given registry by running the
    checker. *)
Ltac by_checker := apply check_registry_sound; vm_compute; reflexivity.

(** A run of the theorem: on the registry that holds the disk (1, 0), a
    second physical disk (1, 0), and a logical disk (1, 0) on the disk
    (1, 0). *)
Lemma create_over_occupied_slot_witness :
  registry_wf one_disk
  ∧ slot_of one_disk (rtems_filesystem_make_dev_t 1 0) = Some 1%positive
  ∧ rtems_disk_create_phys fair_weather (rtems_filesystem_make_dev_t 1 0)
      512 1000 (Some 7) 0 None one_disk = Ok (RTEMS_RESOURCE_IN_USE, one_disk)
  ∧ rtems_disk_create_log fair_weather (rtems_filesystem_make_dev_t 1 0)
      (rtems_filesystem_make_dev_t 1 0) 0 10 None one_disk
    = Ok (RTEMS_RESOURCE_IN_USE, one_disk).
Proof.
  assert (Hwf : registry_wf one_disk) by by_checker.
  assert (Hq : slot_of one_disk (rtems_filesystem_make_dev_t 1 0)
               = Some 1%positive) by (by vm_compute).
  destruct (create_over_occupied_slot fair_weather one_disk
              (rtems_filesystem_make_dev_t 1 0) 1%positive Hwf Hq)
    as [Hphys Hlog].
  split_and!; [done|done|by apply Hphys|].
  eapply (Hlog (rtems_filesystem_make_dev_t 1 0) 1%positive);
    [done|by vm_compute|done|done|by_decision|by_decision|by_decision].
Defined.

(** The physical identifier designates nothing that can be obtained: the
    call fails with [RTEMS_INVALID_ID] and gives back the registry as it
    was. *)
Lemma create_log_not_found env dev phys begin_block block_count name st :
  table_wf st → lock_free st →
  get_disk_entry phys st = Ok (None, st) →
  rtems_disk_create_log env dev phys begin_block block_count name st
  = Ok (RTEMS_INVALID_ID, st).
Proof.
  intros Hwf Hlock Hget. pose proof Hlock as [Hmx Hpr].
  unfold rtems_disk_create_log. rewrite (disk_lock_free _ Hlock). simpl.
  rewrite get_disk_entry_spec in * by (by eapply table_wf_ext; [| |exact Hwf]).
  unfold slot_of in *. rewrite (slot_at_ext st) by done. simpl.
  destruct (slot_at st (major_of phys) (minor_of phys)) as [pp|].
  - destruct (heap st !! pp) as [pd|]; [|done].
    destruct (dd_deleted pd); [|done].
    simpl. rewrite disk_unlock_held by done. simpl.
    by rewrite set_protected_roundtrip.
  - simpl. rewrite disk_unlock_held by done. simpl.
    by rewrite set_protected_roundtrip.
Qed.

(** The physical identifier designates a logical disk: the same. *)
Lemma create_log_on_logical env dev phys begin_block block_count name st pp pd :
  table_wf st → lock_free st →
  slot_of st phys = Some pp → heap st !! pp = Some pd →
  dd_deleted pd = false → dd_phys_dev pd ≠ Some pp →
  0 ≤ dd_uses pd < 2 ^ 32 →
  rtems_disk_create_log env dev phys begin_block block_count name st
  = Ok (RTEMS_INVALID_ID, st).
Proof.
  intros Hwf Hlock Hpp Hpd Hlive Hlog Hu.
  unfold rtems_disk_create_log. rewrite (disk_lock_free _ Hlock). simpl.
  rewrite get_disk_entry_spec by (by eapply table_wf_ext; [| |exact Hwf]).
  unfold slot_of in *. rewrite (slot_at_ext st) by done. rewrite Hpp.
  simpl. rewrite Hpd, Hlive. simpl.
  rewrite deref_store_eq. simpl.
  unfold is_physical_disk. simpl. rewrite bool_decide_eq_false_2 by done.
  simpl. by apply (restore_uses (λ s, Ok (RTEMS_INVALID_ID, s))).
Qed.

(** ** Claim C5: the range of a logical disk *)

(** C5: on a live physical disk of size S, with 32-bit arguments,
    [rtems_disk_create_log] succeeds when count > 0 and start + count <= S
    (the slot of the new identifier being free and the allocations
    succeeding); when the range violates that bound it fails with
    [RTEMS_INVALID_NUMBER], creates no slot and changes no descriptor, and
    a later call with the same identifier and a range that fits
    succeeds. *)
Theorem create_log_range env dev phys begin_block block_count name st pp pd :
  registry_wf st →
  slot_of st phys = Some pp → heap st !! pp = Some pd →
  dd_deleted pd = false → dd_phys_dev pd = Some pp →
  is_u32 begin_block → is_u32 block_count → addressable dev →
  (valid_range begin_block block_count (dd_size pd) →
   slot_of st dev = None → allocations_succeed env st dev name →
   ∃ st', rtems_disk_create_log env dev phys begin_block block_count name st
          = Ok (RTEMS_SUCCESSFUL, st')
          ∧ is_Some (slot_of st' dev))
  ∧ (¬ valid_range begin_block block_count (dd_size pd) →
     ∃ st1, rtems_disk_create_log env dev phys begin_block block_count name st
            = Ok (RTEMS_INVALID_NUMBER, st1)
       ∧ slot_of st1 dev = slot_of st dev
       ∧ heap st1 = heap st
       ∧ ∀ env' begin_block' block_count',
           is_u32 begin_block' → is_u32 block_count' →
           valid_range begin_block' block_count' (dd_size pd) →
           slot_of st dev = None → allocations_succeed env' st dev name →
           ∃ st2, rtems_disk_create_log env' dev phys begin_block'
                    block_count' name st1 = Ok (RTEMS_SUCCESSFUL, st2)
                  ∧ is_Some (slot_of st2 dev)).
Proof.
  intros [Hwf Hlock Hslots] Hpp Hpd Hlive Hphys Hb Hc Haddr.
  destruct (slots_ok_slot_of _ _ _ Hslots Hpp)
    as (pd' & Hpd' & _ & Hu & Hsz & _).
  rewrite Hpd in Hpd'. injection Hpd' as <-.
  pose proof (major_of_range dev) as HMr.
  pose proof (minor_of_range dev) as Hmr.
  assert (Hgood : ∀ env' b c,
            is_u32 b → is_u32 c → valid_range b c (dd_size pd) →
            slot_of st dev = None → allocations_succeed env' st dev name →
            ∃ st', rtems_disk_create_log env' dev phys b c name st
                   = Ok (RTEMS_SUCCESSFUL, st')
                   ∧ is_Some (slot_of st' dev)).
  { intros env' b c Hb' Hc' Hvalid Hfree Halloc.
    destruct (create_log_success env' dev phys b c name st pp pd)
      as (st' & Hrun & _ & _ & _ & _ & Hsl); try done.
    exists st'. split; [done|]. unfold slot_of.
    rewrite Hsl, decide_True by (done || lia). done. }
  split.
  - intros Hvalid Hfree Halloc. by apply Hgood.
  - intros Hinvalid. exists st.
    rewrite (create_log_found _ _ _ _ _ _ _ pp pd) by done.
    cbv zeta. rewrite bool_decide_eq_false_2 by done.
    split_and!; try done.
Qed.

(** A run of the theorem on the disk (1, 0) of 1000 blocks: the range
    100..199 is accepted; the range 950..1049 is refused, after which the
    range 100..199 is accepted for the same identifier. *)
Lemma create_log_range_witness :
  registry_wf one_disk
  ∧ valid_range 100 100 1000 ∧ ¬ valid_range 950 100 1000
  ∧ (∃ st', rtems_disk_create_log fair_weather
              (rtems_filesystem_make_dev_t 2 0)
              (rtems_filesystem_make_dev_t 1 0) 100 100 None one_disk
            = Ok (RTEMS_SUCCESSFUL, st')
            ∧ is_Some (slot_of st' (rtems_filesystem_make_dev_t 2 0)))
  ∧ (∃ st1, rtems_disk_create_log fair_weather
              (rtems_filesystem_make_dev_t 2 0)
              (rtems_filesystem_make_dev_t 1 0) 950 100 None one_disk
            = Ok (RTEMS_INVALID_NUMBER, st1)
      ∧ ∃ st2, rtems_disk_create_log fair_weather
                 (rtems_filesystem_make_dev_t 2 0)
                 (rtems_filesystem_make_dev_t 1 0) 100 100 None st1
               = Ok (RTEMS_SUCCESSFUL, st2)
               ∧ is_Some (slot_of st2 (rtems_filesystem_make_dev_t 2 0))).
Proof.
  assert (Hwf : registry_wf one_disk) by by_checker.
  assert (Hv : valid_range 100 100 1000) by by_decision.
  assert (Hn : ¬ valid_range 950 100 1000) by by_decision.
  assert (Hfree : slot_of one_disk (rtems_filesystem_make_dev_t 2 0) = None)
    by (by vm_compute).
  split_and!; [done|done|done| |].
  - eapply (proj1 (create_log_range fair_weather
                     (rtems_filesystem_make_dev_t 2 0)
                     (rtems_filesystem_make_dev_t 1 0) 100 100 None one_disk
                     1%positive _ Hwf ltac:(by vm_compute)
                     ltac:(by vm_compute) ltac:(done) ltac:(done)
                     ltac:(by_decision) ltac:(by_decision)
                     ltac:(by_decision)));
      [exact Hv|exact Hfree|apply fair_weather_succeeds].
  - destruct (proj2 (create_log_range fair_weather
                       (rtems_filesystem_make_dev_t 2 0)
                       (rtems_filesystem_make_dev_t 1 0) 950 100 None one_disk
                       1%positive _ Hwf ltac:(by vm_compute)
                       ltac:(by vm_compute) ltac:(done) ltac:(done)
                       ltac:(by_decision) ltac:(by_decision)
                       ltac:(by_decision)) Hn)
      as (st1 & Hrun & _ & _ & Hnext).
    exists st1. split; [done|].
    apply (Hnext fair_weather 100 100);
      [by_decision|by_decision|exact Hv|exact Hfree
      |apply fair_weather_succeeds].
Defined.

(** ** Claim C6: the use count of the physical disk *)

(** C6, as amended: [rtems_disk_create_log] returns, for every
    identifier whose slot is occupied and for every identifier with both
    indices below 2^32 - 1.  It succeeds exactly when the physical
    identifier designates a live physical disk, the range fits it, the
    slot of the new identifier is free, and the allocations and the
    registration of the name succeed.  When it fails, for whatever reason,
    every descriptor is as before the call, the use count of the physical
    disk included.  When it succeeds, the use count of the physical disk,
    a 32-bit counter, is one more than before modulo 2^32: exactly one
    more when it was below 2^32 - 1; the other descriptors are as
    before. *)
Theorem create_log_use_count env dev phys begin_block block_count name st :
  registry_wf st →
  is_u32 begin_block → is_u32 block_count →
  (slot_of st dev = None → addressable dev) →
  ∃ sc st',
    rtems_disk_create_log env dev phys begin_block block_count name st
    = Ok (sc, st')
    ∧ (sc = RTEMS_SUCCESSFUL ↔
         ∃ pp pd,
           slot_of st phys = Some pp ∧ heap st !! pp = Some pd
           ∧ dd_deleted pd = false ∧ dd_phys_dev pd = Some pp
           ∧ valid_range begin_block block_count (dd_size pd)
           ∧ slot_of st dev = None
           ∧ allocations_succeed env st dev name)
    ∧ (sc ≠ RTEMS_SUCCESSFUL → heap st' = heap st)
    ∧ (sc = RTEMS_SUCCESSFUL →
       ∃ pp pd pd',
         slot_of st phys = Some pp ∧ heap st !! pp = Some pd
         ∧ dd_deleted pd = false ∧ dd_phys_dev pd = Some pp
         ∧ heap st' !! pp = Some pd'
         ∧ dd_uses pd' = u32 (dd_uses pd + 1)
         ∧ (dd_uses pd + 1 < 2 ^ 32 → dd_uses pd' = dd_uses pd + 1)
         ∧ ∀ q d, q ≠ pp → heap st !! q = Some d → heap st' !! q = Some d).
Proof.
  intros [Hwf Hlock Hslots] Hb Hc Haddr'.
  destruct (slot_of st phys) as [pp|] eqn:Hpp.
  2:{ exists RTEMS_INVALID_ID, st. split; [|split; [|done]].
      - apply create_log_not_found; [done|done|].
        rewrite get_disk_entry_spec by done. by rewrite Hpp.
      - split; [done|]. by intros (pp' & pd' & ? & _). }
  destruct (slots_ok_slot_of _ _ _ Hslots Hpp)
    as (pd & Hpd & _ & Hu & Hsz & _).
  destruct (dd_deleted pd) eqn:Hlive.
  { exists RTEMS_INVALID_ID, st. split; [|split; [|done]].
    - apply create_log_not_found; [done|done|].
      rewrite get_disk_entry_spec by done. by rewrite Hpp, Hpd, Hlive.
    - split; [done|]. intros (pp' & pd' & [= <-] & Hpd' & Hl & _).
      rewrite Hpd in Hpd'. injection Hpd' as <-. congruence. }
  destruct (decide (dd_phys_dev pd = Some pp)) as [Hphys|Hlog].
  2:{ exists RTEMS_INVALID_ID, st. split; [|split; [|done]].
      - by eapply create_log_on_logical.
      - split; [done|]. intros (pp' & pd' & [= <-] & Hpd' & _ & Hp & _).
        rewrite Hpd in Hpd'. injection Hpd' as <-. done. }
  destruct (decide (valid_range begin_block block_count (dd_size pd)))
    as [Hvalid|Hinvalid].
  2:{ exists RTEMS_INVALID_NUMBER, st. split; [|split; [|done]].
      - rewrite (create_log_found _ _ _ _ _ _ _ pp pd) by done.
        cbv zeta. by rewrite bool_decide_eq_false_2.
      - split; [done|].
        intros (pp' & pd' & [= <-] & Hpd' & _ & _ & Hv & _).
        rewrite Hpd in Hpd'. injection Hpd' as <-. done. }
  destruct (slot_of st dev) as [q|] eqn:Hq.
  { exists RTEMS_RESOURCE_IN_USE, st. split; [|split; [|done]].
    - by eapply create_log_occupied.
    - split; [done|]. by intros (pp' & pd' & _ & _ & _ & _ & _ & ? & _). }
  assert (Haddr : addressable dev) by (by apply Haddr').
  destruct (decide (allocations_succeed env st dev name)) as [Halloc|Hno].
  - destruct (create_log_success env dev phys begin_block block_count name
                st pp pd) as (st' & Hrun & Hne & Hheap & _); try done.
    exists RTEMS_SUCCESSFUL, st'. split; [done|].
    split; [split; [intros _; by exists pp, pd|done]|].
    split; [done|].
    intros _. exists pp, pd, (set_uses (u32 (dd_uses pd + 1)) pd).
    split_and!; try done.
    + rewrite Hheap, lookup_insert_ne by done. apply lookup_insert_eq.
    + intros Hfit. simpl. apply u32_small. lia.
    + intros q d Hqne Hq'. rewrite Hheap.
      rewrite lookup_insert_ne.
      * by rewrite lookup_insert_ne.
      * intros Heq. apply (is_fresh (dom (heap st))). rewrite Heq.
        apply elem_of_dom. by rewrite Hq'.
  - destruct (create_log_refused env dev phys begin_block block_count name
                st pp pd) as (sc & st' & Hrun & Hsc & Hheap & _); try done.
    assert (Hne : sc ≠ RTEMS_SUCCESSFUL) by (by destruct Hsc as [-> | ->]).
    exists sc, st'. split; [done|].
    split; [split; [done|]|done].
    by intros (pp' & pd' & _ & _ & _ & _ & _ & _ & ?).
Qed.

(** Two runs of the theorem on the disk (1, 0), which nobody holds.  The
    logical disk (2, 0) over the blocks 100 to 199 is created, and the use
    count goes from 0 to 1; the logical disk (2, 0) over the blocks 950 to
    1049 is refused, and every descriptor stays as it was. *)
Lemma create_log_use_count_witness :
  registry_wf one_disk
  ∧ (∃ st' pd pd',
       rtems_disk_create_log fair_weather (rtems_filesystem_make_dev_t 2 0)
         (rtems_filesystem_make_dev_t 1 0) 100 100 None one_disk
       = Ok (RTEMS_SUCCESSFUL, st')
       ∧ heap one_disk !! 1%positive = Some pd ∧ dd_uses pd = 0
       ∧ heap st' !! 1%positive = Some pd' ∧ dd_uses pd' = 1)
  ∧ (∃ sc st',
       rtems_disk_create_log fair_weather (rtems_filesystem_make_dev_t 2 0)
         (rtems_filesystem_make_dev_t 1 0) 950 100 None one_disk
       = Ok (sc, st')
       ∧ sc ≠ RTEMS_SUCCESSFUL ∧ heap st' = heap one_disk).
Proof.
  assert (Hwf : registry_wf one_disk) by by_checker.
  assert (Haddr : addressable (rtems_filesystem_make_dev_t 2 0))
    by by_decision.
  assert (Hslot : slot_of one_disk (rtems_filesystem_make_dev_t 1 0)
                  = Some 1%positive) by (vm_compute; reflexivity).
  assert (Hdisk : heap one_disk !! 1%positive
                  = Some (mk_disk_device (rtems_filesystem_make_dev_t 1 0)
                            (Some 1%positive) 0 None 0 0 1000 512 512
                            (Some 7) 0 false)) by (vm_compute; reflexivity).
  split; [exact Hwf|]. split.
  - destruct (create_log_use_count fair_weather
                (rtems_filesystem_make_dev_t 2 0)
                (rtems_filesystem_make_dev_t 1 0) 100 100 None one_disk Hwf)
      as (sc & st' & Hrun & Hiff & _ & Hsucc);
      [by_decision|by_decision|intros _; exact Haddr|].
    assert (Hsc : sc = RTEMS_SUCCESSFUL).
    { apply Hiff. eexists _, _. split; [exact Hslot|].
      split; [exact Hdisk|]. split; [reflexivity|]. split; [reflexivity|].
      split; [by_decision|]. split; [by vm_compute|].
      apply fair_weather_succeeds. }
    destruct (Hsucc Hsc) as (pp & pd & pd' & Hpp & Hpd & _ & _ & Hpd' & Huses
                             & _).
    rewrite Hslot in Hpp. injection Hpp as <-.
    rewrite Hdisk in Hpd. injection Hpd as <-.
    rewrite Hsc in Hrun. eexists st', _, pd'. split; [exact Hrun|].
    split; [exact Hdisk|]. split; [reflexivity|]. split; [exact Hpd'|].
    rewrite Huses. reflexivity.
  - destruct (create_log_use_count fair_weather
                (rtems_filesystem_make_dev_t 2 0)
                (rtems_filesystem_make_dev_t 1 0) 950 100 None one_disk Hwf)
      as (sc & st' & Hrun & Hiff & Hfail & _);
      [by_decision|by_decision|intros _; exact Haddr|].
    assert (Hsc : sc ≠ RTEMS_SUCCESSFUL).
    { intros Hs. apply Hiff in Hs
        as (pp & pd & Hpp & Hpd & _ & _ & Hv & _).
      rewrite Hslot in Hpp. injection Hpp as <-.
      rewrite Hdisk in Hpd. injection Hpd as <-.
      revert Hv. by_decision. }
    exists sc, st'. split; [exact Hrun|]. split; [exact Hsc|].
    by apply Hfail.
Defined.

(** ** [rtems_disk_next] *)

Lemma next_dtab_wf st major dtab :
  table_wf st → table_at st major = Some dtab →
  next_dtab st major = Ok (Some dtab).
Proof.
  intros (t & Ht & _)%table_wf_live Hd. unfold next_dtab. rewrite Ht.
  by rewrite (read_dtab_Some _ _ _ Hd).
Qed.

Lemma read_slot_Ok st major dtab minor slot :
  table_wf st → 0 ≤ major → 0 ≤ minor →
  table_at st major = Some dtab → read_slot dtab minor = Ok slot →
  slot_at st major minor = slot ∧ minor < dt_size dtab.
Proof.
  intros Hwf HM Hm Hd Hr.
  destruct (table_at_Some _ _ _ Hwf HM Hd) as [_ Hdwf].
  unfold read_slot in Hr. unfold slot_at. rewrite Hd.
  unfold dtab_wf in Hdwf. destruct (dt_minor dtab) as [a|]; [|done].
  destruct (a !! Z.to_nat minor) as [s|] eqn:Ha; [|done].
  injection Hr as ->. split; [done|].
  apply lookup_lt_Some in Ha. lia.
Qed.

(** Whatever the loop returns sits in the first occupied slot at or after
    the position the loop starts from, in the order of (major, minor). *)
Lemma next_loop_sound st :
  table_wf st →
  ∀ fuel major minor p,
    0 ≤ major < disktab_size st → 0 ≤ minor →
    next_loop fuel st major minor = Ok (Some p) →
    ∃ M k, 0 ≤ M < disktab_size st ∧ 0 ≤ k
      ∧ slot_at st M k = Some p
      ∧ (major < M ∨ (major = M ∧ minor ≤ k))
      ∧ ∀ M' j, 0 ≤ M' → 0 ≤ j →
          (major < M' ∨ (major = M' ∧ minor ≤ j)) →
          (M' < M ∨ (M' = M ∧ j < k)) →
          slot_at st M' j = None.
Proof.
  intros Hwf.
  pose proof Hwf as (_ & _ & _ & Hsz & _)%table_wf_live.
  induction fuel as [|fuel IH]; intros major minor p HM Hm Hrun; [done|].
  destruct (table_at_lt st major Hwf HM) as (dtab & Hd & Hdwf).
  assert (Hms : minor_size st major = dt_size dtab)
    by (unfold minor_size; by rewrite Hd).
  simpl in Hrun. rewrite (next_dtab_wf _ _ _ Hwf Hd) in Hrun. simpl in Hrun.
  destruct (bool_decide_reflect (minor > dt_size dtab)) as [Hgt|Hle].
  - rewrite u32_small in Hrun by lia.
    destruct (bool_decide_reflect (major + 1 >= disktab_size st)); [done|].
    apply IH in Hrun as (M & k & HMr & Hk & Hs & Hord & Hbetween); [|lia|lia].
    exists M, k. split_and!; try done; try lia.
    intros M' j HM' Hj Hlo Hhi.
    destruct (decide (M' = major)) as [->|Hne].
    + apply slot_at_beyond; [done|lia|done|]. rewrite Hms. lia.
    + apply Hbetween; try done; lia.
  - destruct (read_slot dtab minor) as [slot|] eqn:Hr; simpl in Hrun; [|done].
    destruct (read_slot_Ok _ _ _ _ _ Hwf (proj1 HM) Hm Hd Hr) as [Hs Hlt].
    destruct slot as [q|].
    + injection Hrun as ->. exists major, minor.
      split_and!; try done; lia.
    + unfold dtab_wf in Hdwf.
      assert (dt_size dtab < 2 ^ 32) by (destruct (dt_minor dtab); lia).
      rewrite u32_small in Hrun by lia.
      apply IH in Hrun as (M & k & HMr & Hk & Hsk & Hord & Hbetween);
        [|lia|lia].
      exists M, k. split_and!; try done; try lia.
      intros M' j HM' Hj Hlo Hhi.
      destruct (decide (M' = major ∧ j = minor)) as [[-> ->]|Hne]; [done|].
      apply Hbetween; try done; lia.
Qed.

(** A scan that meets an occupied slot before the end of the inner table
    returns it. *)
Lemma next_loop_scan st :
  table_wf st →
  ∀ n fuel major minor p,
    0 ≤ major < disktab_size st → 0 ≤ minor → (n < fuel)%nat →
    slot_at st major (minor + Z.of_nat n) = Some p →
    (∀ j, minor ≤ j < minor + Z.of_nat n → slot_at st major j = None) →
    next_loop fuel st major minor = Ok (Some p).
Proof.
  intros Hwf.
  induction n as [|n IH]; intros fuel major minor p HM Hm Hfuel Hs Hempty;
    (destruct fuel as [|fuel]; [lia|]);
    match type of Hs with
    | slot_at _ _ ?k = _ =>
        assert (Hk : k < minor_size st major)
          by (eapply (slot_at_bounds st major k p); [done|lia|lia|exact Hs])
    end;
    destruct (read_slot_at st major minor Hwf HM ltac:(lia))
      as (dtab & Hd & Hsz & _ & Hr);
    assert (Hat : table_at st major = Some dtab)
      by (rewrite read_dtab_table_at in Hd;
          destruct (disktab st); try done;
          destruct (table_at st major); by simplify_eq);
    simpl; rewrite (next_dtab_wf _ _ _ Hwf Hat); simpl;
    rewrite bool_decide_eq_false_2 by lia; rewrite Hr; simpl.
  - replace (minor + Z.of_nat 0) with minor in Hs by lia. by rewrite Hs.
  - rewrite Hempty by lia.
    destruct (table_at_Some _ _ _ Hwf (proj1 HM) Hat) as [_ Hdwf].
    unfold dtab_wf in Hdwf.
    assert (dt_size dtab < 2 ^ 32) by (destruct (dt_minor dtab); lia).
    rewrite u32_small by lia.
    apply IH; [done|lia|lia| |].
    + by replace (minor + 1 + Z.of_nat n) with (minor + Z.of_nat (S n)) by lia.
    + intros j Hj. apply Hempty. lia.
Qed.

Lemma next_fuel_enough st major dtab :
  table_at st major = Some dtab →
  (Z.to_nat (dt_size dtab) + 2 < next_fuel st)%nat.
Proof.
  unfold table_at, next_fuel, table_fuel.
  destruct (disktab st) as [|t|]; try done.
  generalize (Z.to_nat major). clear major. intros i.
  revert i. induction t as [|d t IH]; intros i Hi; [done|].
  destruct i as [|i]; simpl in *.
  - injection Hi as ->. lia.
  - specialize (IH i Hi). lia.
Qed.

Lemma minor_size_bound st major :
  table_wf st → 0 ≤ major → minor_size st major < 2 ^ 32.
Proof.
  intros Hwf HM. unfold minor_size.
  destruct (table_at st major) as [d|] eqn:Hd; [|done].
  apply table_at_Some in Hd as [_ Hd]; [|done|done].
  unfold dtab_wf in Hd. destruct (dt_minor d); lia.
Qed.

(** The order of identifiers is the order of (major, minor). *)
Lemma dev_lt_split a b :
  0 ≤ a < 2 ^ 64 → 0 ≤ b < 2 ^ 64 →
  a < b ↔ major_of a < major_of b
          ∨ (major_of a = major_of b ∧ minor_of a < minor_of b).
Proof.
  intros Ha Hb.
  pose proof (make_split a Ha) as Ea. pose proof (make_split b Hb) as Eb.
  pose proof (major_of_range a). pose proof (minor_of_range a).
  pose proof (major_of_range b). pose proof (minor_of_range b).
  unfold rtems_filesystem_make_dev_t in *. lia.
Qed.

Lemma slot_of_make st major minor :
  0 ≤ major < 2 ^ 32 → 0 ≤ minor < 2 ^ 32 →
  slot_of st (rtems_filesystem_make_dev_t major minor)
  = slot_at st major minor.
Proof.
  intros HM Hm. unfold slot_of.
  by rewrite major_of_make, minor_of_make by done.
Qed.

(** One call: the descriptor returned sits in the occupied slot with the
    smallest identifier above the argument. *)
Lemma rtems_disk_next_sound st dev p :
  registry_wf st → 0 ≤ dev < 2 ^ 64 - 1 →
  rtems_disk_next dev st = Ok (Some p) →
  ∃ d, heap st !! p = Some d
       ∧ slot_of st (dd_dev d) = Some p
       ∧ dev < dd_dev d < 2 ^ 64 - 1
       ∧ ∀ dev', dev < dev' < dd_dev d → slot_of st dev' = None.
Proof.
  intros [Hwf _ Hslots] Hdev Hrun.
  pose proof Hwf as (_ & _ & _ & Hsz & _)%table_wf_live.
  unfold rtems_disk_next in Hrun.
  assert (Hstart : u64 (dev + 1) = dev + 1)
    by (unfold u64; apply Z.mod_small; lia).
  rewrite Hstart, split_eq in Hrun.
  pose proof (major_of_range (dev + 1)) as HMr.
  pose proof (minor_of_range (dev + 1)) as Hmr.
  destruct (bool_decide_reflect (major_of (dev + 1) >= disktab_size st));
    [done|].
  apply next_loop_sound in Hrun
    as (M & k & HM & Hk & Hs & Hord & Hbetween); [|done|lia|lia].
  destruct (slot_at_bounds _ _ _ _ Hwf (proj1 HM) Hk Hs) as [_ Hkb].
  pose proof (minor_size_bound st M Hwf (proj1 HM)) as Hmb.
  pose proof (Hslots M k p (proj1 HM) Hk Hs) as Hok. unfold slot_ok in Hok.
  destruct (heap st !! p) as [d|]; [|done].
  destruct Hok as (Hdd & _).
  exists d. split; [done|].
  assert (Hdr : 0 ≤ dd_dev d < 2 ^ 64 - 1)
    by (rewrite Hdd; unfold rtems_filesystem_make_dev_t; lia).
  assert (HMd : major_of (dd_dev d) = M)
    by (rewrite Hdd; apply major_of_make; lia).
  assert (Hmd : minor_of (dd_dev d) = k)
    by (rewrite Hdd; apply minor_of_make; lia).
  split_and!.
  - unfold slot_of. by rewrite HMd, Hmd.
  - assert (dev + 1 ≤ dd_dev d); [|lia].
    destruct (decide (dev + 1 = dd_dev d)) as [|Hne]; [lia|].
    assert (dev + 1 < dd_dev d); [|lia].
    apply dev_lt_split; [lia|lia|]. rewrite HMd, Hmd.
    destruct Hord as [|[? Hle]]; [by left|right]. split; [done|].
    destruct (decide (minor_of (dev + 1) = k)) as [Heq|]; [|lia].
    destruct Hne. rewrite <- (make_split (dev + 1)), <- (make_split (dd_dev d))
      by lia. by rewrite HMd, Hmd, Heq, H.
  - lia.
  - intros dev' Hbet.
    pose proof (major_of_range dev'). pose proof (minor_of_range dev').
    unfold slot_of. apply Hbetween; [lia|lia| |].
    + destruct (decide (dev + 1 = dev')) as [<-|]; [lia|].
      assert (Hlt : dev + 1 < dev') by lia.
      apply dev_lt_split in Hlt; lia.
    + assert (Hlt : dev' < dd_dev d) by lia.
      apply dev_lt_split in Hlt; [|lia|lia]. by rewrite HMd, Hmd in Hlt.
Qed.

(** One call: an occupied slot in the inner table of the successor
    identifier, with no occupied slot before it, is returned. *)
Lemma rtems_disk_next_progress st dev nxt p :
  table_wf st → 0 ≤ dev → dev < nxt < 2 ^ 64 →
  major_of nxt = major_of (dev + 1) →
  slot_of st nxt = Some p →
  (∀ dev', dev < dev' < nxt → slot_of st dev' = None) →
  rtems_disk_next dev st = Ok (Some p).
Proof.
  intros Hwf Hdev Hnxt Hmaj Hs Hempty.
  pose proof (major_of_range nxt) as HMr.
  pose proof (minor_of_range nxt) as Hmr.
  pose proof (minor_of_range (dev + 1)) as Hmr'.
  unfold slot_of in Hs.
  destruct (slot_at_bounds _ _ _ _ Hwf (proj1 HMr) (proj1 Hmr) Hs)
    as [HM Hk].
  unfold rtems_disk_next.
  assert (Hstart : u64 (dev + 1) = dev + 1)
    by (unfold u64; apply Z.mod_small; lia).
  rewrite Hstart, split_eq, <- Hmaj.
  rewrite bool_decide_eq_false_2 by lia.
  assert (Hle : minor_of (dev + 1) ≤ minor_of nxt).
  { destruct (decide (dev + 1 = nxt)) as [->|]; [lia|].
    assert (Hlt : dev + 1 < nxt) by lia.
    apply dev_lt_split in Hlt; lia. }
  destruct (table_at_lt st (major_of nxt) Hwf ltac:(lia)) as (dtab & Hd & _).
  pose proof (next_fuel_enough _ _ _ Hd) as Hfuel.
  assert (Hsize : minor_size st (major_of nxt) = dt_size dtab)
    by (unfold minor_size; by rewrite Hd).
  apply (next_loop_scan st Hwf
           (Z.to_nat (minor_of nxt - minor_of (dev + 1)))); [lia|lia|lia| |].
  - by replace (minor_of (dev + 1)
                + Z.of_nat (Z.to_nat (minor_of nxt - minor_of (dev + 1))))
      with (minor_of nxt) by lia.
  - intros j Hj.
    rewrite <- (slot_of_make st (major_of nxt) j) by lia.
    apply Hempty.
    pose proof (make_split (dev + 1) ltac:(lia)) as E1.
    pose proof (make_split nxt ltac:(lia)) as E2.
    rewrite <- Hmaj in E1.
    unfold rtems_filesystem_make_dev_t in *. lia.
Qed.

Lemma table_fuel_drop t n : (table_fuel (drop n t) ≤ table_fuel t)%nat.
Proof.
  revert n. induction t as [|d t IH]; intros [|n]; simpl; try lia.
  specialize (IH n). unfold table_fuel in *. lia.
Qed.

Lemma table_fuel_lookup t n dtab :
  t !! n = Some dtab →
  table_fuel (drop n t)
  = (Z.to_nat (dt_size dtab) + 2 + table_fuel (drop (S n) t))%nat.
Proof.
  intros Hl. by rewrite (drop_S _ _ _ Hl).
Qed.

(** The loop ends before its fuel does. *)
Lemma next_loop_terminates st t :
  table_wf st → disktab st = TabLive t →
  ∀ fuel major minor,
    0 ≤ major < disktab_size st → 0 ≤ minor →
    (table_fuel (drop (Z.to_nat major) t)
     < fuel + Z.to_nat (Z.min minor (minor_size st major + 1)))%nat →
    next_loop fuel st major minor ≠ Fault OutOfFuel.
Proof.
  intros Hwf Ht.
  pose proof Hwf as (t' & Ht' & Hlen & Hsz & _)%table_wf_live.
  rewrite Ht in Ht'. injection Ht' as <-.
  induction fuel as [|fuel IH]; intros major minor HM Hm Hfuel;
    destruct (table_at_lt st major Hwf HM) as (dtab & Hd & Hdwf);
    assert (Hl : t !! Z.to_nat major = Some dtab)
      by (unfold table_at in Hd; by rewrite Ht in Hd);
    assert (Hms : minor_size st major = dt_size dtab)
      by (unfold minor_size; by rewrite Hd);
    pose proof (minor_size_nonneg st major Hwf (proj1 HM)) as Hnn;
    pose proof (minor_size_bound st major Hwf (proj1 HM)) as Hb;
    rewrite (table_fuel_lookup _ _ _ Hl) in Hfuel; rewrite Hms in *.
  - lia.
  - simpl. rewrite (next_dtab_wf _ _ _ Hwf Hd). simpl.
    destruct (bool_decide_reflect (minor > dt_size dtab)) as [Hgt|Hle].
    + rewrite u32_small by lia.
      destruct (bool_decide_reflect (major + 1 >= disktab_size st)); [done|].
      apply IH; [lia|lia|].
      replace (Z.to_nat (major + 1)) with (S (Z.to_nat major)) by lia.
      lia.
    + destruct (read_slot dtab minor) as [slot|f] eqn:Hr; simpl.
      * destruct (read_slot_Ok _ _ _ _ _ Hwf (proj1 HM) Hm Hd Hr) as [_ Hlt].
        destruct slot as [q|]; [done|].
        rewrite u32_small by lia.
        apply IH; [lia|lia|].
        rewrite (table_fuel_lookup _ _ _ Hl), Hms. lia.
      * unfold read_slot in Hr. destruct (dt_minor dtab) as [a|];
          [destruct (a !! Z.to_nat minor)|]; by simplify_eq.
Qed.

(** [rtems_disk_next] never stops for want of fuel. *)
Lemma rtems_disk_next_terminates st dev :
  table_wf st → rtems_disk_next dev st ≠ Fault OutOfFuel.
Proof.
  intros Hwf.
  pose proof Hwf as (t & Ht & _)%table_wf_live.
  unfold rtems_disk_next. rewrite split_eq.
  set (start := u64 (dev + 1)).
  pose proof (major_of_range start) as HMr.
  pose proof (minor_of_range start) as Hmr.
  destruct (bool_decide_reflect (major_of start >= disktab_size st)); [done|].
  apply (next_loop_terminates st t); [done|done|lia|lia|].
  unfold next_fuel. rewrite Ht.
  pose proof (table_fuel_drop t (Z.to_nat (major_of start))). lia.
Qed.

(** ** Claim C3: iterating over the table *)

(** C3, counterexample: the registry holds the descriptor (1, 0), deleted
    and not yet reclaimed, and the live descriptor (1, 1), the only one
    that can be obtained.  Starting from (0, 100), below (1, 1), the first
    call does not skip the deleted descriptor: it returns it. *)
Lemma next_returns_deleted_counterexample :
  ∃ p d,
    rtems_disk_next (rtems_filesystem_make_dev_t 0 100) pending_and_live
    = Ok (Some p)
    ∧ heap pending_and_live !! p = Some d
    ∧ dd_dev d = rtems_filesystem_make_dev_t 1 0
    ∧ dd_deleted d = true
    ∧ rtems_disk_obtain (rtems_filesystem_make_dev_t 1 0) pending_and_live
      = Ok (None, pending_and_live)
    ∧ (∃ st', rtems_disk_obtain (rtems_filesystem_make_dev_t 1 1)
                pending_and_live = Ok (Some 2%positive, st'))
    ∧ rtems_filesystem_make_dev_t 0 100 < rtems_filesystem_make_dev_t 1 1.
Proof.
  eexists 1%positive, _.
  split; [by vm_compute|]. split; [by vm_compute|].
  split; [by vm_compute|]. split; [by vm_compute|].
  split; [vm_compute; reflexivity|].
  split; [eexists; vm_compute; reflexivity|by vm_compute].
Qed.

(** C3, as amended: on a registry that satisfies the invariant, start
    from any identifier below the largest one and call
    [rtems_disk_next] again and again on the identifier of the descriptor
    last returned.  The descriptors returned sit in occupied slots, in
    strictly ascending order of (major, minor), and no occupied slot lies
    between the start and the first or between two consecutive ones: empty
    slots are skipped, occupied ones are not, whether their descriptor is
    live or deleted and not yet reclaimed.  A call does return the occupied
    slot with the smallest identifier above its argument when that slot
    lies in the inner table of the successor of the argument. *)
Theorem rtems_disk_next_ascending st dev :
  registry_wf st → 0 ≤ dev < 2 ^ 64 - 1 →
  (∀ n, ascending_occupied st dev (visit n st dev))
  ∧ (∀ nxt p,
       dev < nxt < 2 ^ 64 → major_of nxt = major_of (dev + 1) →
       slot_of st nxt = Some p →
       (∀ dev', dev < dev' < nxt → slot_of st dev' = None) →
       rtems_disk_next dev st = Ok (Some p)).
Proof.
  intros Hwf Hdev. split.
  - intros n. revert dev Hdev.
    induction n as [|n IH]; intros dev Hdev; [done|].
    simpl. destruct (rtems_disk_next dev st) as [[p|]|] eqn:Hrun; try done.
    destruct (rtems_disk_next_sound _ _ _ Hwf Hdev Hrun)
      as (d & Hd & Hs & Hlt & Hempty).
    rewrite Hd. simpl. exists d. split_and!; try done; try lia.
    apply IH. lia.
  - intros nxt p Hnxt Hmaj Hs Hempty.
    eapply rtems_disk_next_progress; try done; [apply Hwf|lia].
Qed.

(** A run of the theorem: from (1, 0) on the registry with the deleted
    descriptor (1, 0) and the live descriptor (1, 1), the next call
    returns the descriptor of (1, 1), and the iteration from (0, 100) is in
    ascending order. *)
Lemma rtems_disk_next_ascending_witness :
  registry_wf pending_and_live
  ∧ ascending_occupied pending_and_live (rtems_filesystem_make_dev_t 0 100)
      (visit 2 pending_and_live (rtems_filesystem_make_dev_t 0 100))
  ∧ rtems_disk_next (rtems_filesystem_make_dev_t 1 0) pending_and_live
    = Ok (Some 2%positive).
Proof.
  assert (Hwf : registry_wf pending_and_live) by by_checker.
  split; [exact Hwf|].
  destruct (rtems_disk_next_ascending pending_and_live
              (rtems_filesystem_make_dev_t 0 100) Hwf ltac:(by_decision))
    as [Hasc _].
  split; [apply Hasc|].
  destruct (rtems_disk_next_ascending pending_and_live
              (rtems_filesystem_make_dev_t 1 0) Hwf ltac:(by_decision))
    as [_ Hprog].
  apply (Hprog (rtems_filesystem_make_dev_t 1 1));
    [by_decision|by vm_compute|by vm_compute|].
  intros dev' Hbet.
  unfold rtems_filesystem_make_dev_t in Hbet. lia.
Defined.

(** ** Claim C4: the reads of [rtems_disk_next] *)

(** C4, at the failing inputs.  On the registry right after
    initialization, whose eight inner tables are null, the call on the
    last identifier, whose successor is (0, 0), follows the null inner
    array of major number 0, and the call on (0, 100) steps to major
    number 1 and follows the null inner array there.  On
    the registry with the disk (1, 0), whose inner table of major number 1
    has eight entries, the call on (1, 7), whose successor has minor number
    8, reads the entry of index 8; so does the call on (1, 3), after
    passing the empty slots 4 to 7.  Both registries satisfy the
    invariant. *)
Theorem rtems_disk_next_out_of_bounds :
  registry_wf initialized ∧ registry_wf one_disk
  ∧ rtems_disk_next (2 ^ 64 - 1) initialized = Fault NullDeref
  ∧ rtems_disk_next (rtems_filesystem_make_dev_t 0 100) initialized
    = Fault NullDeref
  ∧ minor_size one_disk 1 = 8
  ∧ minor_of (rtems_filesystem_make_dev_t 1 7 + 1) = minor_size one_disk 1
  ∧ rtems_disk_next (rtems_filesystem_make_dev_t 1 7) one_disk
    = Fault OutOfBounds
  ∧ rtems_disk_next (rtems_filesystem_make_dev_t 1 3) one_disk
    = Fault OutOfBounds.
Proof.
  split; [by_checker|]. split; [by_checker|]. by vm_compute.
Qed.

(** ** The scan of [rtems_disk_cleanup] *)

(** A loop whose body keeps an invariant and never faults keeps the
    invariant and does not fault. *)
Lemma for_loop_inv {T : Type} (I : Z → T → Prop) (body : Z → T → result T) :
  ∀ n i s,
    I i s →
    (∀ j s, i ≤ j < i + Z.of_nat n → I j s →
            ∃ s', body j s = Ok s' ∧ I (j + 1) s') →
    ∃ s', for_loop n i body s = Ok s' ∧ I (i + Z.of_nat n) s'.
Proof.
  induction n as [|n IH]; intros i s Hi Hstep.
  - exists s. split; [done|]. by replace (i + Z.of_nat 0) with i by lia.
  - destruct (Hstep i s ltac:(lia) Hi) as (s1 & Hb & Hi1).
    destruct (IH (i + 1) s1 Hi1) as (s' & Hrun & Hend).
    { intros j s2 Hj. apply Hstep. lia. }
    exists s'. simpl. rewrite Hb. simpl. split; [done|].
    by replace (i + Z.of_nat (S n)) with (i + 1 + Z.of_nat n) by lia.
Qed.

Lemma marked_refl h : marked h h.
Proof. intros q. by left. Qed.

Lemma marked_lookup h h' q d :
  marked h h' → h !! q = Some d →
  ∃ d', h' !! q = Some d' ∧ set_deleted true d' = set_deleted true d
        ∧ dd_dev d' = dd_dev d ∧ dd_phys_dev d' = dd_phys_dev d
        ∧ dd_uses d' = dd_uses d.
Proof.
  intros Hm Hq. destruct (Hm q) as [Heq|(d0 & Hq0 & Hq')].
  - exists d. by rewrite Heq.
  - rewrite Hq in Hq0. injection Hq0 as <-.
    exists (set_deleted true d). by destruct d.
Qed.

Lemma marked_insert h h' q d :
  marked h h' → h !! q = Some d →
  marked h (<[q := set_deleted true d]> h').
Proof.
  intros Hm Hq q'. destruct (decide (q = q')) as [<-|Hne].
  - right. exists d. by rewrite lookup_insert_eq.
  - rewrite lookup_insert_ne by done. apply Hm.
Qed.

Lemma check_children_in_use_sound st pp :
  check_children_in_use st pp = true → children_in_use st pp.
Proof.
  intros Hc major minor q dq HM Hm Hs Hne Hq Hown.
  pose proof (forall_slots_sound _ _ Hc major minor q HM Hm Hs) as Hok.
  simpl in Hok. rewrite Hq in Hok.
  rewrite bool_decide_eq_false_2 in Hok by done.
  rewrite (bool_decide_eq_true_2 _ Hown) in Hok. simpl in Hok.
  apply negb_true_iff, bool_decide_eq_false in Hok. done.
Qed.

(** The owner of a descriptor is determined by the identifier the owner
    carries. *)
Lemma owner_by_dev st pp pd o od :
  slots_ok st →
  slot_of st (dd_dev pd) = Some pp →
  heap st !! o = Some od → slot_of st (dd_dev od) = Some o →
  dd_dev od = dd_dev pd → o = pp.
Proof. intros _ Hpp _ Ho Heq. rewrite Heq, Hpp in Ho. by injection Ho. Qed.

Section Scan.

Variables (st : registry) (pp : ptr) (pd : rtems_disk_device).
Hypothesis Hwf : table_wf st.
Hypothesis Hslots : slots_ok st.
Hypothesis Hpp : slot_of st (dd_dev pd) = Some pp.
Hypothesis Hpd : heap st !! pp = Some pd.
Hypothesis Hin_use : children_in_use st pp.

(** One iteration of the inner loop while every logical disk of [pp] is
    in use: nothing is freed, the count stays 0, and the descriptor in
    the slot, if it is a logical disk of [pp], is marked deleted. *)
Lemma cleanup_slot_marks major minor h' :
  0 ≤ major < disktab_size st → 0 ≤ minor < minor_size st major →
  marked (heap st) h' → h' !! pp = Some (set_deleted true pd) →
  children_marked st pp major minor h' →
  ∃ h'',
    cleanup_slot (dd_dev pd) pp major minor (scanning st h', 0)
    = Ok (scanning st h'', 0)
    ∧ marked (heap st) h''
    ∧ h'' !! pp = Some (set_deleted true pd)
    ∧ children_marked st pp major (minor + 1) h''.
Proof.
  intros HM Hm Hmark Hpp' Hdone.
  unfold cleanup_slot.
  destruct (read_slot_at (scanning st h') major minor)
    as (dtab & Hrd & _ & _ & Hrs); [by eapply table_wf_ext| done | done |].
  rewrite Hrd. simpl. rewrite Hrs. simpl.
  rewrite (slot_at_ext st (scanning st h')) by done.
  destruct (slot_at st major minor) as [q|] eqn:Hq.
  - pose proof (Hslots major minor q (proj1 HM) (proj1 Hm) Hq) as Hok.
    unfold slot_ok in Hok.
    destruct (heap st !! q) as [dq|] eqn:Hdq; [|done].
    destruct Hok as (_ & _ & _ & Hown).
    destruct (dd_phys_dev dq) as [o|] eqn:Ho; [|done].
    destruct (heap st !! o) as [od|] eqn:Hod; [|done].
    destruct Hown as [Hophys Hoslot].
    destruct (marked_lookup _ _ _ _ Hmark Hdq)
      as (dq' & Hdq' & Esd & _ & Eown & Euses).
    destruct (marked_lookup _ _ _ _ Hmark Hod)
      as (od' & Hod' & _ & Edev & _ & _).
    rewrite (deref_Some (scanning st h') q dq') by done. simpl.
    rewrite Eown, Ho. unfold deref_opt.
    rewrite (deref_Some (scanning st h') o od') by done. simpl.
    rewrite Edev.
    destruct (bool_decide_reflect (dd_dev od = dd_dev pd)) as [Hdev|Hdev];
      [destruct (bool_decide_reflect (q ≠ pp)) as [Hne|Heq]|]; simpl.
    + assert (o = pp) as -> by (by eapply owner_by_dev).
      rewrite Euses.
      rewrite bool_decide_eq_false_2
        by (by eapply (Hin_use major minor q dq); try done; lia).
      rewrite Esd.
      exists (<[q := set_deleted true dq]> h'). split; [done|].
      split_and!.
      * by apply marked_insert.
      * by rewrite lookup_insert_ne.
      * intros M m q0 dq0 HM0 Hm0 Hpos Hq0 Hne0 Hdq0 Hown0.
        destruct (decide (q = q0)) as [<-|Hqq].
        -- rewrite Hdq in Hdq0. injection Hdq0 as <-.
           apply lookup_insert_eq.
        -- rewrite lookup_insert_ne by done.
           apply (Hdone M m q0 dq0); try done.
           destruct (decide (M = major ∧ m = minor)) as [[-> ->]|]; [|lia].
           rewrite Hq in Hq0. by injection Hq0.
    + exists h'. split; [done|]. split_and!; try done.
      intros M m q0 dq0 HM0 Hm0 Hpos Hq0 Hne0 Hdq0 Hown0.
      apply (Hdone M m q0 dq0); try done.
      destruct (decide (M = major ∧ m = minor)) as [[-> ->]|]; [|lia].
      rewrite Hq in Hq0. injection Hq0 as <-. by apply dec_stable in Heq.
    + exists h'. split; [done|]. split_and!; try done.
      intros M m q0 dq0 HM0 Hm0 Hpos Hq0 Hne0 Hdq0 Hown0.
      apply (Hdone M m q0 dq0); try done.
      destruct (decide (M = major ∧ m = minor)) as [[-> ->]|]; [|lia].
      rewrite Hq in Hq0. injection Hq0 as <-.
      rewrite Hdq in Hdq0. injection Hdq0 as <-.
      rewrite Ho in Hown0. injection Hown0 as ->.
      rewrite Hpd in Hod. by injection Hod as <-.
  - exists h'. split; [done|]. split_and!; try done.
    intros M m q0 dq0 HM0 Hm0 Hpos Hq0 Hne0 Hdq0 Hown0.
    apply (Hdone M m q0 dq0); try done.
    destruct (decide (M = major ∧ m = minor)) as [[-> ->]|]; [|lia].
    by rewrite Hq in Hq0.
Qed.

(** The inner loop over one major number. *)
Lemma cleanup_major_marks major h' :
  0 ≤ major < disktab_size st →
  marked (heap st) h' → h' !! pp = Some (set_deleted true pd) →
  children_marked st pp major 0 h' →
  ∃ h'',
    cleanup_major (dd_dev pd) pp major (scanning st h', 0)
    = Ok (scanning st h'', 0)
    ∧ marked (heap st) h''
    ∧ h'' !! pp = Some (set_deleted true pd)
    ∧ children_marked st pp (major + 1) 0 h''.
Proof.
  intros HM Hmark Hpp' Hdone.
  destruct (table_at_lt st major Hwf HM) as (dtab & Hd & Hdwf).
  assert (Hms : minor_size st major = dt_size dtab)
    by (unfold minor_size; by rewrite Hd).
  unfold cleanup_major. simpl fst.
  rewrite (read_dtab_Some (scanning st h') major dtab) by done. simpl.
  destruct (for_loop_inv
              (λ j s, ∃ h, s = (scanning st h, 0)
                           ∧ marked (heap st) h
                           ∧ h !! pp = Some (set_deleted true pd)
                           ∧ children_marked st pp major j h)
              (cleanup_slot (dd_dev pd) pp major)
              (Z.to_nat (dt_size dtab)) 0 (scanning st h', 0))
    as (s' & Hrun & h'' & -> & Hmark'' & Hpp'' & Hdone'').
  { by exists h'. }
  { intros j s Hj (h & -> & Hm1 & Hp1 & Hd1).
    assert (0 ≤ dt_size dtab) by (rewrite <- Hms; apply minor_size_nonneg; [done|lia]).
    destruct (cleanup_slot_marks major j h) as (h2 & Hstep & ? & ? & ?);
      try done; [lia|].
    exists (scanning st h2, 0). split; [done|]. by exists h2. }
  exists h''. split; [done|]. split_and!; try done.
  intros M m q dq HM0 Hm0 Hpos Hq Hne Hdq Hown.
  apply (Hdone'' M m q dq); try done.
  destruct (decide (M = major)) as [->|]; [|lia]. right. split; [done|].
  destruct (slot_at_bounds _ _ _ _ Hwf HM0 Hm0 Hq) as [_ Hb].
  assert (0 ≤ dt_size dtab) by (rewrite <- Hms; apply minor_size_nonneg; [done|lia]).
  lia.
Qed.

(** The whole scan. *)
Lemma cleanup_scan_marks h0 :
  marked (heap st) h0 → h0 !! pp = Some (set_deleted true pd) →
  ∃ h',
    for_loop (Z.to_nat (disktab_size st)) 0 (cleanup_major (dd_dev pd) pp)
      (scanning st h0, 0)
    = Ok (scanning st h', 0)
    ∧ marked (heap st) h'
    ∧ h' !! pp = Some (set_deleted true pd)
    ∧ children_marked st pp (disktab_size st) 0 h'.
Proof.
  intros Hmark Hpp'.
  pose proof Hwf as (_ & _ & _ & Hsz & _)%table_wf_live.
  destruct (for_loop_inv
              (λ M s, ∃ h, s = (scanning st h, 0)
                           ∧ marked (heap st) h
                           ∧ h !! pp = Some (set_deleted true pd)
                           ∧ children_marked st pp M 0 h)
              (cleanup_major (dd_dev pd) pp)
              (Z.to_nat (disktab_size st)) 0 (scanning st h0, 0))
    as (s' & Hrun & h' & -> & Hmark' & Hpp'' & Hdone').
  { exists h0. split_and!; try done.
    intros M m q dq HM0 Hm0 Hpos. lia. }
  { intros M s HM (h & -> & Hm1 & Hp1 & Hd1).
    destruct (cleanup_major_marks M h) as (h2 & Hstep & ? & ? & ?);
      try done; [lia|].
    exists (scanning st h2, 0). split; [done|]. by exists h2. }
  exists h'. split; [done|]. split_and!; try done.
  by replace (0 + Z.of_nat (Z.to_nat (disktab_size st)))
    with (disktab_size st) in Hdone' by lia.
Qed.

End Scan.

(** ** [rtems_disk_delete] *)

Lemma unlock_scanning st h :
  lock_free st → disk_unlock (scanning st h) = Ok (set_heap h st).
Proof.
  intros [Hmx Hpr]. rewrite disk_unlock_held by done.
  f_equal. destruct st. simpl in *. by subst.
Qed.

Lemma store_store st p d1 d2 : store p d2 (store p d1 st) = store p d2 st.
Proof. unfold store. simpl. by rewrite insert_insert_eq. Qed.

Lemma store_scanning st p d :
  store p d (set_protected true st) = scanning st (<[p := d]> (heap st)).
Proof. reflexivity. Qed.

Lemma store_same st p d : heap st !! p = Some d → store p d st = st.
Proof.
  intros Hp. unfold store. rewrite insert_id by done. by destruct st.
Qed.

(** Nothing to delete: the identifier designates nothing that can be
    obtained. *)
Lemma delete_not_found dev st :
  table_wf st → lock_free st →
  get_disk_entry dev st = Ok (None, st) →
  rtems_disk_delete dev st = Ok (RTEMS_INVALID_ID, st).
Proof.
  intros Hwf Hlock Hget. pose proof Hlock as [Hmx Hpr].
  unfold rtems_disk_delete. rewrite (disk_lock_free _ Hlock). simpl.
  rewrite get_disk_entry_spec in * by (by eapply table_wf_ext; [| |exact Hwf]).
  unfold slot_of in *. rewrite (slot_at_ext st) by done. simpl.
  destruct (slot_at st (major_of dev) (minor_of dev)) as [pp|].
  - destruct (heap st !! pp) as [pd|]; [|done].
    destruct (dd_deleted pd); [|done].
    simpl. rewrite disk_unlock_held by done. simpl.
    by rewrite set_protected_roundtrip.
  - simpl. rewrite disk_unlock_held by done. simpl.
    by rewrite set_protected_roundtrip.
Qed.

(** Deleting a physical disk that has references left and whose logical
    disks are all in use: nothing is reclaimed; the physical disk and all
    its logical disks are marked deleted. *)
Lemma delete_physical_in_use st dev pp pd :
  registry_wf st →
  slot_of st dev = Some pp → heap st !! pp = Some pd →
  dd_deleted pd = false → dd_phys_dev pd = Some pp → dd_uses pd ≠ 0 →
  children_in_use st pp →
  ∃ h',
    rtems_disk_delete dev st = Ok (RTEMS_SUCCESSFUL, set_heap h' st)
    ∧ marked (heap st) h'
    ∧ h' !! pp = Some (set_deleted true pd)
    ∧ children_marked st pp (disktab_size st) 0 h'.
Proof.
  intros [Hwf Hlock Hslots] Hs Hpd Hlive Hphys Huses Hin_use.
  destruct (slots_ok_slot_of _ _ _ Hslots Hs)
    as (pd0 & Hpd0 & Hdev & Hu & _ & q & o & Hq & Ho & _ & Hoslot).
  rewrite Hpd in Hpd0. injection Hpd0 as <-.
  rewrite Hphys in Hq. injection Hq as <-.
  rewrite Hpd in Ho. injection Ho as <-.
  set (h0 := <[pp := set_deleted true pd]> (heap st)).
  destruct (cleanup_scan_marks st pp pd Hwf Hslots Hoslot Hpd Hin_use h0)
    as (h' & Hscan & Hmark & Hpp' & Hdone).
  { apply marked_insert; [apply marked_refl|done]. }
  { apply lookup_insert_eq. }
  exists h'. split; [|done].
  unfold rtems_disk_delete. rewrite (disk_lock_free _ Hlock). simpl.
  rewrite get_disk_entry_spec by (by eapply table_wf_ext; [| |exact Hwf]).
  unfold slot_of in *. rewrite (slot_at_ext st) by done. rewrite Hs.
  simpl. rewrite Hpd, Hlive. simpl.
  unfold decrement_uses. rewrite deref_store_eq. simpl.
  rewrite deref_store_eq. simpl.
  rewrite set_uses_roundtrip by done.
  rewrite !store_store, store_scanning. fold h0.
  unfold rtems_disk_cleanup.
  rewrite (deref_Some (scanning st h0) pp (set_deleted true pd))
    by apply lookup_insert_eq.
  simpl. rewrite Hphys. unfold deref_opt.
  rewrite (deref_Some (scanning st h0) pp (set_deleted true pd))
    by apply lookup_insert_eq.
  simpl. rewrite Hscan. simpl.
  rewrite (deref_Some (scanning st h') pp (set_deleted true pd)) by done.
  simpl.
  replace (dd_uses pd - 0) with (dd_uses pd) by lia.
  rewrite u32_small by done.
  rewrite bool_decide_eq_false_2 by done.
  rewrite store_same
    by (change (heap (scanning st h')) with h'; rewrite Hpp'; by destruct pd).
  simpl.
  by rewrite (unlock_scanning _ _ Hlock).
Qed.

(** ** Claim C2: deleting a physical disk whose logical disks are in use *)

(** C2, counterexample: the disk (1, 0) has the logical disks (2, 0) and
    (2, 1), each obtained once.  After the deletion of (1, 0), which
    succeeds, [rtems_disk_obtain] on (2, 0) and on (2, 1) returns no
    descriptor. *)
Lemma children_not_obtainable_counterexample :
  ∃ st' d1 d2,
    rtems_disk_delete (rtems_filesystem_make_dev_t 1 0) family_in_use
    = Ok (RTEMS_SUCCESSFUL, st')
    ∧ heap family_in_use !! 2%positive = Some d1
    ∧ dd_phys_dev d1 = Some 1%positive ∧ dd_uses d1 = 1
    ∧ heap family_in_use !! 3%positive = Some d2
    ∧ dd_phys_dev d2 = Some 1%positive ∧ dd_uses d2 = 1
    ∧ slot_of st' (rtems_filesystem_make_dev_t 2 0) = Some 2%positive
    ∧ slot_of st' (rtems_filesystem_make_dev_t 2 1) = Some 3%positive
    ∧ rtems_disk_obtain (rtems_filesystem_make_dev_t 2 0) st' = Ok (None, st')
    ∧ rtems_disk_obtain (rtems_filesystem_make_dev_t 2 1) st' = Ok (None, st').
Proof.
  eexists _, _, _.
  split; [vm_compute; reflexivity|].
  split; [vm_compute; reflexivity|]. split; [done|]. split; [done|].
  split; [vm_compute; reflexivity|]. split; [done|]. split; [done|].
  split; [by vm_compute|]. split; [by vm_compute|].
  split; vm_compute; reflexivity.
Qed.

(** C2, as amended: take a physical disk that is live, has a use count
    above zero, and whose logical disks, two or any number of them, all
    have a use count above zero.  Its deletion succeeds.  The physical
    disk is not reclaimed: its slot still holds its descriptor, marked
    deleted, with the use count it had.  Every one of its logical disks
    keeps its slot and its use count and is marked deleted; obtaining it
    returns no descriptor and deleting it fails with
    [RTEMS_INVALID_ID]. *)
Theorem delete_physical_with_children_in_use st dev pp pd :
  registry_wf st →
  slot_of st dev = Some pp → heap st !! pp = Some pd →
  dd_deleted pd = false → dd_phys_dev pd = Some pp → dd_uses pd ≠ 0 →
  children_in_use st pp →
  ∃ st',
    rtems_disk_delete dev st = Ok (RTEMS_SUCCESSFUL, st')
    ∧ slot_of st' dev = Some pp
    ∧ heap st' !! pp = Some (set_deleted true pd)
    ∧ ∀ devc c dc,
        slot_of st devc = Some c → c ≠ pp →
        heap st !! c = Some dc → dd_phys_dev dc = Some pp →
        slot_of st' devc = Some c
        ∧ heap st' !! c = Some (set_deleted true dc)
        ∧ rtems_disk_obtain devc st' = Ok (None, st')
        ∧ rtems_disk_delete devc st' = Ok (RTEMS_INVALID_ID, st').
Proof.
  intros Hwf Hs Hpd Hlive Hphys Huses Hin_use.
  destruct (delete_physical_in_use st dev pp pd)
    as (h' & Hrun & Hmark & Hpp' & Hdone); try done.
  destruct Hwf as [Hwf Hlock Hslots].
  exists (set_heap h' st). split; [done|]. split; [done|]. split; [done|].
  intros devc c dc Hc Hne Hdc Hown.
  pose proof (major_of_range devc) as HMr.
  pose proof (minor_of_range devc) as Hmr.
  destruct (slot_at_bounds _ _ _ _ Hwf (proj1 HMr) (proj1 Hmr) Hc) as [HM _].
  assert (Hc' : h' !! c = Some (set_deleted true dc)).
  { apply (Hdone (major_of devc) (minor_of devc) c dc); try done; lia. }
  assert (Hwf' : table_wf (set_heap h' st)) by (by eapply table_wf_ext).
  assert (Hget : get_disk_entry devc (set_heap h' st)
                 = Ok (None, set_heap h' st)).
  { rewrite get_disk_entry_spec by done.
    unfold slot_of in *. rewrite (slot_at_ext st) by done.
    rewrite Hc. simpl. by rewrite Hc'. }
  split_and!; try done.
  - unfold rtems_disk_obtain. simpl. by rewrite (proj2 Hlock).
  - by apply delete_not_found.
Qed.

(** A run of the theorem on the disk (1, 0) and its logical disks (2, 0)
    and (2, 1), each obtained once. *)
Lemma delete_physical_with_children_in_use_witness :
  registry_wf family_in_use
  ∧ children_in_use family_in_use 1%positive
  ∧ ∃ st',
      rtems_disk_delete (rtems_filesystem_make_dev_t 1 0) family_in_use
      = Ok (RTEMS_SUCCESSFUL, st')
      ∧ slot_of st' (rtems_filesystem_make_dev_t 1 0) = Some 1%positive
      ∧ rtems_disk_delete (rtems_filesystem_make_dev_t 2 0) st'
        = Ok (RTEMS_INVALID_ID, st')
      ∧ rtems_disk_delete (rtems_filesystem_make_dev_t 2 1) st'
        = Ok (RTEMS_INVALID_ID, st').
Proof.
  assert (Hwf : registry_wf family_in_use) by by_checker.
  assert (Hin : children_in_use family_in_use 1%positive)
    by (apply check_children_in_use_sound; vm_compute; reflexivity).
  split; [exact Hwf|]. split; [exact Hin|].
  destruct (delete_physical_with_children_in_use family_in_use
              (rtems_filesystem_make_dev_t 1 0) 1%positive _ Hwf
              ltac:(by vm_compute) ltac:(by vm_compute) ltac:(done)
              ltac:(done) ltac:(done) Hin)
    as (st' & Hrun & Hslot & _ & Hchildren).
  exists st'. split; [exact Hrun|]. split; [exact Hslot|]. split.
  - eapply (Hchildren (rtems_filesystem_make_dev_t 2 0) 2%positive);
      [by vm_compute|done|by vm_compute|done].
  - eapply (Hchildren (rtems_filesystem_make_dev_t 2 1) 3%positive);
      [by vm_compute|done|by vm_compute|done].
Defined.

(** ** Claim C1: obtain, delete, release *)

(** C1, at the failing inputs.  The physical disk (1, 0), alone in the
    registry, and the logical disk (2, 0) on it, are each obtained, then
    deleted, which succeeds, then released.  The release brings the use
    count to 0 with the deletion mark set and calls [rtems_disk_delete],
    which returns [RTEMS_INVALID_ID] because [get_disk_entry] does not
    return a descriptor marked deleted.  The descriptor stays allocated
    and its slot still holds it; [rtems_disk_obtain] returns no
    descriptor. *)
Theorem release_after_delete_does_not_reclaim :
  (∃ dd st1 st2 st3 d,
     rtems_disk_obtain (rtems_filesystem_make_dev_t 1 0) one_disk
     = Ok (Some dd, st1)
     ∧ rtems_disk_delete (rtems_filesystem_make_dev_t 1 0) st1
       = Ok (RTEMS_SUCCESSFUL, st2)
     ∧ rtems_disk_release dd st2 = Ok (RTEMS_SUCCESSFUL, st3)
     ∧ rtems_disk_delete (rtems_filesystem_make_dev_t 1 0) st3
       = Ok (RTEMS_INVALID_ID, st3)
     ∧ slot_of st3 (rtems_filesystem_make_dev_t 1 0) = Some dd
     ∧ heap st3 !! dd = Some d
     ∧ dd_uses d = 0 ∧ dd_deleted d = true
     ∧ rtems_disk_obtain (rtems_filesystem_make_dev_t 1 0) st3
       = Ok (None, st3))
  ∧ (∃ dd st1 st2 st3 d,
       rtems_disk_obtain (rtems_filesystem_make_dev_t 2 0) two_disks
       = Ok (Some dd, st1)
       ∧ rtems_disk_delete (rtems_filesystem_make_dev_t 2 0) st1
         = Ok (RTEMS_SUCCESSFUL, st2)
       ∧ rtems_disk_release dd st2 = Ok (RTEMS_SUCCESSFUL, st3)
       ∧ rtems_disk_delete (rtems_filesystem_make_dev_t 2 0) st3
         = Ok (RTEMS_INVALID_ID, st3)
       ∧ slot_of st3 (rtems_filesystem_make_dev_t 2 0) = Some dd
       ∧ heap st3 !! dd = Some d
       ∧ dd_uses d = 0 ∧ dd_deleted d = true
       ∧ rtems_disk_obtain (rtems_filesystem_make_dev_t 2 0) st3
         = Ok (None, st3)).
Proof.
  split.
  - eexists _, _, _, _, _.
    split; [vm_compute; reflexivity|]. split; [vm_compute; reflexivity|].
    split; [vm_compute; reflexivity|]. split; [vm_compute; reflexivity|].
    split; [vm_compute; reflexivity|]. split; [vm_compute; reflexivity|].
    split; [done|]. split; [done|]. vm_compute; reflexivity.
  - eexists _, _, _, _, _.
    split; [vm_compute; reflexivity|]. split; [vm_compute; reflexivity|].
    split; [vm_compute; reflexivity|]. split; [vm_compute; reflexivity|].
    split; [vm_compute; reflexivity|]. split; [vm_compute; reflexivity|].
    split; [done|]. split; [done|]. vm_compute; reflexivity.
Qed.

(** * Further properties of the registry *)

(** ** The invariant under a change of one descriptor *)

(** Rewriting a descriptor in place keeps the invariant of the slots when
    the identifier, the owner and the size stay and the use count stays in
    range. *)
Lemma slots_ok_store st p d d' :
  slots_ok st → heap st !! p = Some d →
  dd_dev d' = dd_dev d → dd_phys_dev d' = dd_phys_dev d →
  dd_size d' = dd_size d → 0 ≤ dd_uses d' < 2 ^ 32 →
  slots_ok (store p d' st).
Proof.
  intros Hok Hp Hdev Hown Hsize Hu major minor q HM Hm Hq.
  rewrite (slot_at_ext st) in Hq by done.
  pose proof (Hok major minor q HM Hm Hq) as Hslot.
  unfold slot_ok in *.
  change (heap (store p d' st)) with (<[p := d']> (heap st)).
  assert (Hlook : ∀ r x, heap st !! r = Some x →
            ∃ x', <[p := d']> (heap st) !! r = Some x'
                  ∧ dd_dev x' = dd_dev x ∧ dd_phys_dev x' = dd_phys_dev x
                  ∧ dd_size x' = dd_size x
                  ∧ (0 ≤ dd_uses x < 2 ^ 32 → 0 ≤ dd_uses x' < 2 ^ 32)).
  { intros r x Hr. destruct (decide (p = r)) as [<-|Hne].
    - rewrite Hp in Hr. injection Hr as <-. exists d'.
      by rewrite lookup_insert_eq.
    - exists x. by rewrite lookup_insert_ne. }
  destruct (heap st !! q) as [dq|] eqn:Hdq; [|done].
  destruct Hslot as (Hqdev & Hqu & Hqs & Hqown).
  destruct (Hlook q dq Hdq) as (dq' & -> & Edev & Eown & Esize & Euses).
  rewrite Edev, Eown, Esize.
  split_and!; try done; try lia; try (by apply Euses).
  destruct (dd_phys_dev dq) as [o|]; [|done].
  destruct (heap st !! o) as [od|] eqn:Hod; [|done].
  destruct (Hlook o od Hod) as (od' & -> & Eodev & Eoown & _).
  rewrite Eodev, Eoown. destruct Hqown as [? Hoslot]. split; [done|].
  unfold slot_of in *. by rewrite (slot_at_ext st).
Qed.

Lemma registry_wf_store st p d d' :
  registry_wf st → heap st !! p = Some d →
  dd_dev d' = dd_dev d → dd_phys_dev d' = dd_phys_dev d →
  dd_size d' = dd_size d → 0 ≤ dd_uses d' < 2 ^ 32 →
  registry_wf (store p d' st).
Proof.
  intros [Hwf Hlock Hslots] Hp Hdev Hown Hsize Hu. split.
  - by eapply table_wf_ext.
  - done.
  - by eapply slots_ok_store.
Qed.

(** ** Obtain and release *)

(** [rtems_disk_obtain] on a registry that satisfies the invariant, in
    full. *)
Lemma obtain_spec st dev :
  registry_wf st →
  rtems_disk_obtain dev st =
    match slot_of st dev with
    | None => Ok (None, st)
    | Some p =>
        match heap st !! p with
        | None => Fault UseAfterFree
        | Some d =>
            if dd_deleted d then Ok (None, st)
            else Ok (Some p, store p (set_uses (u32 (dd_uses d + 1)) d) st)
        end
    end.
Proof.
  intros [Hwf [_ Hpr] _]. unfold rtems_disk_obtain. rewrite Hpr. simpl.
  by apply get_disk_entry_spec.
Qed.

(** A lookup never faults, never touches the table, and changes at most
    the use count of the descriptor it returns: an identifier whose slot is
    empty, lies beyond the table or holds a descriptor marked deleted gives
    no descriptor and the registry as it was; a live descriptor is
    returned with its use count incremented, and the invariant holds
    after. *)
Theorem rtems_disk_obtain_lookup st dev :
  registry_wf st →
  (slot_of st dev = None → rtems_disk_obtain dev st = Ok (None, st))
  ∧ (∀ p, slot_of st dev = Some p →
       ∃ d, heap st !! p = Some d
         ∧ (dd_deleted d = true →
              rtems_disk_obtain dev st = Ok (None, st))
         ∧ (dd_deleted d = false →
              ∃ st1,
                rtems_disk_obtain dev st = Ok (Some p, st1)
                ∧ disktab st1 = disktab st
                ∧ disktab_size st1 = disktab_size st
                ∧ trace st1 = trace st
                ∧ heap st1 = <[p := set_uses (u32 (dd_uses d + 1)) d]> (heap st)
                ∧ registry_wf st1)).
Proof.
  intros Hwf. rewrite (obtain_spec _ _ Hwf). split.
  - by intros ->.
  - intros p Hp. rewrite Hp.
    destruct (slots_ok_slot_of _ _ _ (wf_slots _ Hwf) Hp)
      as (d & Hd & _ & Hu & _).
    exists d. rewrite Hd. split; [done|]. split.
    + by intros ->.
    + intros ->. eexists. split; [reflexivity|]. split_and!; try done.
      eapply registry_wf_store; try done. apply u32_range.
Qed.

Lemma rtems_disk_obtain_lookup_witness :
  registry_wf one_disk
  ∧ rtems_disk_obtain (rtems_filesystem_make_dev_t 3 5) one_disk
    = Ok (None, one_disk)
  ∧ ∃ d, heap one_disk !! 1%positive = Some d
      ∧ (dd_deleted d = false →
         ∃ st1, rtems_disk_obtain (rtems_filesystem_make_dev_t 1 0) one_disk
                = Ok (Some 1%positive, st1)
           ∧ disktab st1 = disktab one_disk
           ∧ disktab_size st1 = disktab_size one_disk
           ∧ trace st1 = trace one_disk
           ∧ heap st1
             = <[1%positive := set_uses (u32 (dd_uses d + 1)) d]>
                 (heap one_disk)
           ∧ registry_wf st1).
Proof.
  assert (Hwf : registry_wf one_disk) by by_checker.
  split; [exact Hwf|]. split.
  - apply (proj1 (rtems_disk_obtain_lookup one_disk
                    (rtems_filesystem_make_dev_t 3 5) Hwf)).
    by vm_compute.
  - destruct (proj2 (rtems_disk_obtain_lookup one_disk
                       (rtems_filesystem_make_dev_t 1 0) Hwf) 1%positive)
      as (d & Hd & _ & Hlive); [by vm_compute|].
    exists d. split; [exact Hd|exact Hlive].
Defined.

(** Releasing what was just obtained gives back the registry as it was
    before the lookup. *)
Theorem obtain_release_round_trip st dev p st1 :
  registry_wf st →
  rtems_disk_obtain dev st = Ok (Some p, st1) →
  rtems_disk_release p st1 = Ok (RTEMS_SUCCESSFUL, st).
Proof.
  intros Hwf Hrun. rewrite (obtain_spec _ _ Hwf) in Hrun.
  destruct (slot_of st dev) as [q|] eqn:Hq; [|done].
  destruct (slots_ok_slot_of _ _ _ (wf_slots _ Hwf) Hq)
    as (d & Hd & _ & Hu & _).
  rewrite Hd in Hrun. destruct (dd_deleted d) eqn:Hlive; [done|].
  injection Hrun as <- <-.
  unfold rtems_disk_release. rewrite deref_store_eq. simpl.
  rewrite Hlive, andb_false_r.
  rewrite store_store, set_uses_roundtrip by done.
  by rewrite store_same.
Qed.

Lemma obtain_release_round_trip_witness :
  registry_wf one_disk
  ∧ ∃ st1,
      rtems_disk_obtain (rtems_filesystem_make_dev_t 1 0) one_disk
      = Ok (Some 1%positive, st1)
      ∧ rtems_disk_release 1%positive st1 = Ok (RTEMS_SUCCESSFUL, one_disk).
Proof.
  assert (Hwf : registry_wf one_disk) by by_checker.
  split; [exact Hwf|]. eexists. 
  assert (Hrun : rtems_disk_obtain (rtems_filesystem_make_dev_t 1 0) one_disk
                 = Ok (Some 1%positive,
                       after (rtems_disk_obtain
                                (rtems_filesystem_make_dev_t 1 0) one_disk)))
    by (vm_compute; reflexivity).
  split; [exact Hrun|].
  exact (obtain_release_round_trip one_disk _ _ _ Hwf Hrun).
Defined.

(** ** Claim C6: the use count at the maximum of its type *)

(** Lookups add up in the use count, modulo 2^32. *)
Lemma obtain_times_spec n : ∀ st dev p d,
  registry_wf st → slot_of st dev = Some p → heap st !! p = Some d →
  dd_deleted d = false →
  obtain_times n dev st
  = store p (set_uses (u32 (dd_uses d + Z.of_nat n)) d) st.
Proof.
  induction n as [|n IH]; intros st dev p d Hwf Hp Hd Hlive.
  - destruct (slots_ok_slot_of _ _ _ (wf_slots _ Hwf) Hp)
      as (d0 & Hd0 & _ & Hu & _).
    rewrite Hd in Hd0. injection Hd0 as <-.
    simpl. replace (dd_uses d + Z.of_nat 0) with (dd_uses d) by lia.
    rewrite u32_small by done. symmetry. apply store_same.
    rewrite Hd. by destruct d.
  - cbn [obtain_times]. rewrite (obtain_spec _ _ Hwf), Hp, Hd, Hlive.
    cbn [after].
    rewrite (IH _ dev p (set_uses (u32 (dd_uses d + 1)) d)).
    + rewrite store_store.
      replace (u32 (dd_uses d + Z.of_nat (S n)))
        with (u32 (u32 (dd_uses d + 1) + Z.of_nat n))
        by (unfold u32; rewrite Zplus_mod_idemp_l; f_equal; lia).
      by destruct d.
    + eapply registry_wf_store; try done. apply u32_range.
    + unfold slot_of in *. by rewrite (slot_at_ext st).
    + apply lookup_insert_eq.
    + done.
Qed.

(** C6, counterexample: after 2^32 - 1 lookups the use count of the disk
    (1, 0) stands at 2^32 - 1.  Creating the logical disk (2, 0) on it
    succeeds, and the use count of the physical disk is 0 afterwards, not
    one more than before. *)
Lemma use_count_wraps_counterexample :
  obtain_times (Z.to_nat (2 ^ 32 - 1)) (rtems_filesystem_make_dev_t 1 0)
    one_disk = saturated_disk
  ∧ registry_wf saturated_disk
  ∧ ∃ pd st' pd',
      heap saturated_disk !! 1%positive = Some pd
      ∧ dd_uses pd = 2 ^ 32 - 1
      ∧ rtems_disk_create_log fair_weather (rtems_filesystem_make_dev_t 2 0)
          (rtems_filesystem_make_dev_t 1 0) 100 100 None saturated_disk
        = Ok (RTEMS_SUCCESSFUL, st')
      ∧ heap st' !! 1%positive = Some pd'
      ∧ dd_uses pd' = 0
      ∧ dd_uses pd' ≠ dd_uses pd + 1.
Proof.
  split; [|split].
  - rewrite (obtain_times_spec _ one_disk _ 1%positive
               (mk_disk_device (rtems_filesystem_make_dev_t 1 0)
                  (Some 1%positive) 0 None 0 0 1000 512 512 (Some 7) 0
                  false));
      [|by_checker|vm_compute; reflexivity|vm_compute; reflexivity|done].
    rewrite Z2Nat.id by lia. reflexivity.
  - by_checker.
  - eexists _, _, _. split; [vm_compute; reflexivity|].
    split; [reflexivity|]. split; [vm_compute; reflexivity|].
    split; [vm_compute; reflexivity|]. split; [reflexivity|]. done.
Qed.

(** A release never takes a descriptor out of the table and never frees
    it.  For a descriptor installed in the slot of its identifier,
    [rtems_disk_release] decrements the use count and changes nothing else,
    whether the descriptor is marked deleted or not and whether the count
    reaches zero or not: the deletion it asks for when the last reference
    to a deleted disk goes looks the disk up with [get_disk_entry], which
    does not find deleted disks. *)
Theorem rtems_disk_release_keeps_descriptor st p d :
  registry_wf st → heap st !! p = Some d → slot_of st (dd_dev d) = Some p →
  rtems_disk_release p st
  = Ok (RTEMS_SUCCESSFUL, store p (set_uses (u32 (dd_uses d - 1)) d) st)
  ∧ slot_of (store p (set_uses (u32 (dd_uses d - 1)) d) st) (dd_dev d)
    = Some p
  ∧ registry_wf (store p (set_uses (u32 (dd_uses d - 1)) d) st).
Proof.
  intros Hwf Hd Hslot.
  assert (Hwf' : registry_wf (store p (set_uses (u32 (dd_uses d - 1)) d) st)).
  { eapply registry_wf_store; try done. apply u32_range. }
  split_and!; [|by unfold slot_of; rewrite (slot_at_ext st)|done].
  unfold rtems_disk_release. rewrite (deref_Some _ _ _ Hd). simpl.
  destruct (bool_decide (u32 (dd_uses d - 1) = 0) && dd_deleted d) eqn:E;
    [|done].
  apply andb_true_iff in E as [_ Hdel].
  rewrite delete_not_found; [done|apply Hwf'|apply Hwf'|].
  rewrite get_disk_entry_spec by apply Hwf'.
  unfold slot_of in *. rewrite (slot_at_ext st) by done. rewrite Hslot.
  change (heap (store p (set_uses (u32 (dd_uses d - 1)) d) st))
    with (<[p := set_uses (u32 (dd_uses d - 1)) d]> (heap st)).
  rewrite lookup_insert_eq. simpl. by rewrite Hdel.
Qed.

Lemma rtems_disk_release_keeps_descriptor_witness :
  registry_wf pending_disk
  ∧ ∃ d, heap pending_disk !! 1%positive = Some d
      ∧ dd_deleted d = true ∧ dd_uses d = 1
      ∧ rtems_disk_release 1%positive pending_disk
        = Ok (RTEMS_SUCCESSFUL,
              store 1%positive (set_uses (u32 (dd_uses d - 1)) d)
                pending_disk)
      ∧ slot_of (store 1%positive (set_uses (u32 (dd_uses d - 1)) d)
                   pending_disk) (dd_dev d) = Some 1%positive.
Proof.
  assert (Hwf : registry_wf pending_disk) by by_checker.
  split; [exact Hwf|].
  eexists. split; [vm_compute; reflexivity|].
  split; [reflexivity|]. split; [reflexivity|].
  split.
  - refine (proj1 (rtems_disk_release_keeps_descriptor pending_disk
                     1%positive _ Hwf _ _)); vm_compute; reflexivity.
  - refine (proj1 (proj2 (rtems_disk_release_keeps_descriptor pending_disk
                     1%positive _ Hwf _ _))); vm_compute; reflexivity.
Defined.

(** ** Without the lock *)

(** Before [rtems_disk_io_initialize] and after [rtems_disk_io_done] the
    semaphore [diskdevs_mutex] names does not exist.  The operations that
    take the lock then refuse with [RTEMS_NOT_CONFIGURED] and leave the
    registry alone; with an empty table, the lookup and the enumeration
    find nothing. *)
Theorem operations_without_lock env st dev :
  diskdevs_mutex st ∉ semaphores st →
  (∀ block_size block_count handler driver_data name,
     handler ≠ None → block_size ≠ 0 →
     rtems_disk_create_phys env dev block_size block_count handler
       driver_data name st = Ok (RTEMS_NOT_CONFIGURED, st))
  ∧ (∀ phys begin_block block_count name,
       rtems_disk_create_log env dev phys begin_block block_count name st
       = Ok (RTEMS_NOT_CONFIGURED, st))
  ∧ rtems_disk_delete dev st = Ok (RTEMS_NOT_CONFIGURED, st)
  ∧ (disktab_size st = 0 →
       rtems_disk_obtain dev st = Ok (None, st)
       ∧ rtems_disk_next dev st = Ok None).
Proof.
  intros Hno.
  assert (Hlock : disk_lock st = (RTEMS_NOT_CONFIGURED, st)).
  { unfold disk_lock. by rewrite decide_False. }
  split_and!.
  - intros block_size block_count [h|] driver_data name Hh Hbs; [|done].
    unfold rtems_disk_create_phys. simpl.
    rewrite bool_decide_eq_false_2 by done. by rewrite Hlock.
  - intros. unfold rtems_disk_create_log. by rewrite Hlock.
  - unfold rtems_disk_delete. by rewrite Hlock.
  - intros Hsize. split.
    + assert (Hget : get_disk_entry dev st = Ok (None, st)).
      { unfold get_disk_entry. rewrite split_eq.
        pose proof (major_of_range dev).
        rewrite (bool_decide_eq_false_2 (major_of dev < disktab_size st))
          by lia.
        done. }
      unfold rtems_disk_obtain.
      destruct (diskdevs_protected st); simpl; [|done].
      by rewrite Hlock.
    + unfold rtems_disk_next. rewrite split_eq.
      pose proof (major_of_range (u64 (dev + 1))).
      rewrite bool_decide_eq_true_2 by lia. done.
Qed.

Lemma operations_without_lock_witness :
  (diskdevs_mutex (boot ∅) ∉ semaphores (boot ∅))
  ∧ rtems_disk_create_phys fair_weather (rtems_filesystem_make_dev_t 1 0)
      512 1000 (Some 7) 0 None (boot ∅)
    = Ok (RTEMS_NOT_CONFIGURED, boot ∅)
  ∧ rtems_disk_delete (rtems_filesystem_make_dev_t 1 0) (boot ∅)
    = Ok (RTEMS_NOT_CONFIGURED, boot ∅)
  ∧ rtems_disk_obtain (rtems_filesystem_make_dev_t 1 0) (boot ∅)
    = Ok (None, boot ∅).
Proof.
  assert (Hno : diskdevs_mutex (boot ∅) ∉ semaphores (boot ∅))
    by (simpl; apply not_elem_of_empty).
  pose proof (operations_without_lock fair_weather (boot ∅)
                (rtems_filesystem_make_dev_t 1 0) Hno)
    as (Hphys & _ & Hdel & Hfind).
  split; [exact Hno|]. split; [by apply Hphys|].
  split; [exact Hdel|]. by apply Hfind.
Defined.

(** ** The invariant under a change of the table *)

(** The invariant of the slots speaks of the heap and of the slots only:
    it carries over to a registry with the same heap and the same slots,
    whatever the capacity of its tables. *)
Lemma slots_ok_ext st st' :
  heap st' = heap st →
  (∀ M m, 0 ≤ M → 0 ≤ m → slot_at st' M m = slot_at st M m) →
  slots_ok st → slots_ok st'.
Proof.
  intros Hheap Hsl Hok major minor q HM Hm Hq. rewrite Hsl in Hq by done.
  pose proof (Hok major minor q HM Hm Hq) as Hslot.
  unfold slot_ok, slot_of in *. rewrite Hheap.
  destruct (heap st !! q) as [dq|]; [|done].
  destruct Hslot as (? & ? & ? & Hown). split_and!; try done; try lia.
  destruct (dd_phys_dev dq) as [o|]; [|done].
  destruct (heap st !! o) as [od|]; [|done].
  pose proof (major_of_range (dd_dev od)).
  pose proof (minor_of_range (dd_dev od)).
  by rewrite Hsl by lia.
Qed.

(** Installing a new descriptor in a free slot keeps the invariant of the
    slots, when the new descriptor fits its slot. *)
Lemma slots_ok_install st st' p d M0 m0 :
  slots_ok st → heap st !! p = None →
  heap st' = <[p := d]> (heap st) →
  slot_at st M0 m0 = None →
  (∀ M m, 0 ≤ M → 0 ≤ m →
     slot_at st' M m
     = if decide (M = M0 ∧ m = m0) then Some p else slot_at st M m) →
  slot_ok st' M0 m0 p →
  slots_ok st'.
Proof.
  intros Hok Hp Hheap Hfree Hsl Hnew major minor q HM Hm Hq.
  rewrite Hsl in Hq by done.
  destruct (decide (major = M0 ∧ minor = m0)) as [[-> ->]|Hne].
  { by injection Hq as <-. }
  pose proof (Hok major minor q HM Hm Hq) as Hslot.
  unfold slot_ok in *. rewrite Hheap.
  destruct (heap st !! q) as [dq|] eqn:Hdq; [|done].
  rewrite lookup_insert_ne by congruence. rewrite Hdq.
  destruct Hslot as (? & ? & ? & Hown). split_and!; try done; try lia.
  destruct (dd_phys_dev dq) as [o|]; [|done].
  destruct (heap st !! o) as [od|] eqn:Hod; [|done].
  rewrite lookup_insert_ne by congruence. rewrite Hod.
  destruct Hown as [? Hoslot]. split; [done|].
  unfold slot_of in *.
  pose proof (major_of_range (dd_dev od)).
  pose proof (minor_of_range (dd_dev od)).
  rewrite Hsl by lia. rewrite decide_False; [done|].
  intros [E1 E2]. rewrite E1, E2 in Hoslot. congruence.
Qed.

(** ** Creation of a physical disk *)

Lemma write_slot_trace st major minor v st' :
  write_slot st major minor v = Ok st' → trace st' = trace st.
Proof.
  unfold write_slot. intros H.
  destruct (disktab st) as [|t|]; try done.
  destruct (t !! Z.to_nat major) as [dtab|]; [|done].
  destruct (dt_minor dtab) as [a|]; [|done].
  destruct (decide (Z.to_nat minor < length a)%nat); [|done].
  by injection H as <-.
Qed.

(** What [create_disk] tells the naming service: the name, once, when the
    call gets as far as the registration, whether the registration is
    accepted or refused; nothing when it fails before. *)
Lemma create_disk_trace env dev name st sc dd st' :
  table_wf st → addressable dev →
  create_disk env dev name st = Ok (sc, dd, st') →
  trace st' =
    trace st ++
    (if bool_decide (sc = RTEMS_SUCCESSFUL)
        || bool_decide (sc = RTEMS_UNSATISFIED) then
       match name with
       | Some n => [EvRegisterName n (major_of dev) (minor_of dev)]
       | None => []
       end
     else []).
Proof.
  intros Hwf [HM Hm] Hrun.
  pose proof (major_of_range dev) as HMr.
  pose proof (minor_of_range dev) as Hmr.
  destruct (create_disk_table_entry_spec env dev st Hwf) as
    (r & st1 & Hentry & Hwf1 & Hsame & Hsl & Hnone & Hsome & _); [lia|lia|].
  destruct Hsame as (_ & _ & _ & _ & Htr).
  unfold create_disk in Hrun. rewrite Hentry in Hrun. simpl in Hrun.
  destruct r as [[M m]|].
  2: { injection Hrun as <- <- <-. simpl. by rewrite app_nil_r. }
  destruct (Hsome ltac:(done)) as ([= -> ->] & _).
  destruct (read_dtab st1 (major_of dev)) as [dtab|]; [|done].
  simpl in Hrun.
  destruct (read_slot dtab (minor_of dev)) as [[q|]|]; [| |done].
  { injection Hrun as <- <- <-. simpl. by rewrite app_nil_r. }
  simpl in Hrun.
  destruct (malloc_ok env); simpl in Hrun.
  2: { injection Hrun as <- <- <-. simpl. by rewrite app_nil_r. }
  destruct name as [n|]; simpl in Hrun.
  - destruct (strdup_ok env); simpl in Hrun.
    2: { injection Hrun as <- <- <-. simpl. by rewrite app_nil_r. }
    destruct (register_name_ok env); simpl in Hrun.
    2: { injection Hrun as <- <- <-. simpl. by rewrite Htr. }
    match type of Hrun with
    | context [write_slot ?s ?a ?b ?c] =>
        destruct (write_slot s a b c) as [st2|] eqn:Hw; [|done]
    end.
    simpl in Hrun. injection Hrun as <- <- <-.
    rewrite (write_slot_trace _ _ _ _ _ Hw). simpl. by rewrite Htr.
  - match type of Hrun with
    | context [write_slot ?s ?a ?b ?c] =>
        destruct (write_slot s a b c) as [st2|] eqn:Hw; [|done]
    end.
    simpl in Hrun. injection Hrun as <- <- <-.
    rewrite (write_slot_trace _ _ _ _ _ Hw). simpl.
    by rewrite Htr, app_nil_r.
Qed.

(** Settles the conjuncts of an outcome that are decided by the case at
    hand. *)
Ltac by_case :=
  split_and!; try done; try (intros; tauto);
  try (split; [done|intros (? & ? & ? & ?); done || congruence || tauto]).

(** Every call of [rtems_disk_create_phys] on a registry that satisfies the
    invariant returns, provided that the identifier, when the arguments
    pass the first two checks and the slot is free, so that the call gets
    to the allocations, has both indices below 2^32 - 1.  The arguments are checked first, then the
    slot, then the allocations, then the registration of the name, and
    the status tells which check failed.  The call succeeds exactly when
    the handler is not null, the block size is not zero, the slot of the
    identifier is free, and the allocations and the registration succeed.
    A call that fails leaves no descriptor and no occupied slot behind,
    and has asked nothing of the driver; the naming service has been
    called only when it is the registration that was refused; the tables
    may have grown, and the invariant holds. *)
Theorem rtems_disk_create_phys_outcome env dev block_size block_count handler
    driver_data name st :
  registry_wf st →
  (handler ≠ None → block_size ≠ 0 → slot_of st dev = None →
   addressable dev) →
  ∃ sc st',
    rtems_disk_create_phys env dev block_size block_count handler driver_data
      name st = Ok (sc, st')
    ∧ (sc = RTEMS_SUCCESSFUL ↔
         handler ≠ None ∧ block_size ≠ 0 ∧ slot_of st dev = None
         ∧ allocations_succeed env st dev name)
    ∧ (handler = None → sc = RTEMS_INVALID_ADDRESS)
    ∧ (handler ≠ None → block_size = 0 → sc = RTEMS_INVALID_NUMBER)
    ∧ (handler ≠ None → block_size ≠ 0 → slot_of st dev ≠ None →
         sc = RTEMS_RESOURCE_IN_USE)
    ∧ (handler ≠ None → block_size ≠ 0 → slot_of st dev = None →
         ¬ memory_succeeds env st dev name → sc = RTEMS_NO_MEMORY)
    ∧ (handler ≠ None → block_size ≠ 0 → slot_of st dev = None →
         memory_succeeds env st dev name →
         ¬ allocations_succeed env st dev name → sc = RTEMS_UNSATISFIED)
    ∧ (sc ≠ RTEMS_SUCCESSFUL →
         heap st' = heap st
         ∧ (∀ M m, slot_at st' M m = slot_at st M m)
         ∧ trace st' =
             trace st
             ++ (if bool_decide (sc = RTEMS_UNSATISFIED) then
                   match name with
                   | Some n =>
                       [EvRegisterName n (major_of dev) (minor_of dev)]
                   | None => []
                   end
                 else [])
         ∧ registry_wf st').
Proof.
  intros Hreg Haddr'. pose proof Hreg as [Hwf Hlock Hslots].
  pose proof Hlock as [Hmx Hpr].
  assert (Hsame : ∀ sc, sc ≠ RTEMS_UNSATISFIED → sc ≠ RTEMS_SUCCESSFUL →
            heap st = heap st
            ∧ (∀ M m, slot_at st M m = slot_at st M m)
            ∧ trace st =
                trace st
                ++ (if bool_decide (sc = RTEMS_UNSATISFIED) then
                      match name with
                      | Some n =>
                          [EvRegisterName n (major_of dev) (minor_of dev)]
                      | None => []
                      end
                    else [])
            ∧ registry_wf st).
  { intros sc Hsc _. rewrite bool_decide_eq_false_2 by done.
    by rewrite app_nil_r. }
  unfold rtems_disk_create_phys.
  destruct handler as [h|]; simpl.
  2: { exists RTEMS_INVALID_ADDRESS, st. by_case. by apply Hsame. }
  destruct (decide (block_size = 0)) as [Hbs|Hbs].
  { rewrite bool_decide_eq_true_2 by done.
    exists RTEMS_INVALID_NUMBER, st. by_case. by apply Hsame. }
  rewrite bool_decide_eq_false_2 by done.
  rewrite (disk_lock_free _ Hlock). simpl.
  assert (Hwfl : table_wf (set_protected true st))
    by (by eapply table_wf_ext; [| |exact Hwf]).
  destruct (slot_of st dev) as [q|] eqn:Hfree.
  { rewrite (create_disk_occupied env dev name _ q) by done. simpl.
    rewrite disk_unlock_held by done. simpl.
    rewrite set_protected_roundtrip by done.
    exists RTEMS_RESOURCE_IN_USE, st. by_case. by apply Hsame. }
  assert (Haddr : addressable dev) by (by apply Haddr').
  destruct (decide (allocations_succeed env st dev name)) as [Hal|Hal].
  - destruct (create_disk_free env dev name (set_protected true st))
      as (st1 & -> & Hwf1 & Hheap & Hmx1 & Hsem1 & Hpr1 & Hsl); try done.
    simpl. simpl in Hheap.
    unfold deref. rewrite Hheap, lookup_insert_eq. simpl.
    destruct (ioctl_capabilities env) as [rc caps].
    rewrite disk_unlock_held by (simpl; by rewrite Hmx1, Hsem1).
    eexists RTEMS_SUCCESSFUL, _. split; [reflexivity|].
    split; [done|]. split; [done|]. split; [done|]. split; [done|].
    split.
    { intros _ _ _ Hnm. destruct Hnm.
      destruct Hal as (? & ? & ? & Hn). split_and!; try done.
      intros Hsome. by apply Hn. }
    split; [tauto|done].
  - destruct (create_disk_refused env dev name (set_protected true st))
      as (sc & st1 & -> & Hsc & Hwf1 & Hsame1 & Hsl & Hiff); try done.
    destruct Hsame1 as (Hheap & Hmx1 & Hsem1 & Hpr1 & Htr).
    simpl in Hheap, Hmx1, Hsem1, Htr.
    change (memory_succeeds env (set_protected true st) dev name)
      with (memory_succeeds env st dev name) in Hiff.
    assert (Hne : sc ≠ RTEMS_SUCCESSFUL) by (by destruct Hsc as [-> | ->]).
    simpl. rewrite bool_decide_eq_true_2 by done.
    rewrite disk_unlock_held by (by rewrite Hmx1, Hsem1). simpl.
    exists sc, (set_protected false st1).
    split; [done|]. split; [tauto|]. split; [done|]. split; [done|].
    split; [done|].
    split.
    { intros _ _ _ Hnm. destruct Hsc as [->| ->]; [done|]. tauto. }
    split; [tauto|].
    intros _.
    assert (Hsl' : ∀ M m, slot_at (set_protected false st1) M m
                          = slot_at st M m).
    { intros M m. rewrite (slot_at_ext st1) by done.
      rewrite Hsl. by apply slot_at_ext. }
    split; [done|]. split; [done|]. split; [done|]. split.
    + by eapply table_wf_ext; [| |exact Hwf1].
    + split; simpl; [by rewrite Hmx1, Hsem1|done].
    + apply (slots_ok_ext st); [done| |done]. intros M m _ _. apply Hsl'.
Qed.

Lemma rtems_disk_create_phys_outcome_witness :
  registry_wf one_disk
  ∧ addressable (rtems_filesystem_make_dev_t 9 3)
  ∧ (∃ st',
      rtems_disk_create_phys
        (mk_environment true true false true true (0, 0) true true true)
        (rtems_filesystem_make_dev_t 9 3) 512 1000 (Some 7) 0 None one_disk
      = Ok (RTEMS_NO_MEMORY, st')
      ∧ heap st' = heap one_disk
      ∧ (∀ M m, slot_at st' M m = slot_at one_disk M m)
      ∧ trace st' = trace one_disk
      ∧ registry_wf st')
  ∧ (∃ st',
      rtems_disk_create_phys
        (mk_environment true true true true false (0, 0) true true true)
        (rtems_filesystem_make_dev_t 9 3) 512 1000 (Some 7) 0
        (Some "/dev/hdb"%string) one_disk
      = Ok (RTEMS_UNSATISFIED, st')
      ∧ heap st' = heap one_disk
      ∧ (∀ M m, slot_at st' M m = slot_at one_disk M m)
      ∧ trace st'
        = trace one_disk
          ++ [EvRegisterName "/dev/hdb"%string 9 3]
      ∧ registry_wf st').
Proof.
  assert (Hwf : registry_wf one_disk) by by_checker.
  assert (Haddr : addressable (rtems_filesystem_make_dev_t 9 3))
    by by_decision.
  assert (Hfree : slot_of one_disk (rtems_filesystem_make_dev_t 9 3) = None)
    by (by vm_compute).
  split; [exact Hwf|]. split; [exact Haddr|]. split.
  - destruct (rtems_disk_create_phys_outcome
                (mk_environment true true false true true (0, 0) true true
                   true)
                (rtems_filesystem_make_dev_t 9 3) 512 1000 (Some 7) 0 None
                one_disk Hwf (λ _ _ _, Haddr))
      as (sc & st' & Hrun & _ & _ & _ & _ & Hmem & _ & Hres).
    assert (Hsc : sc = RTEMS_NO_MEMORY).
    { apply Hmem; [done|done|exact Hfree|]. by intros (_ & _ & ? & _). }
    subst sc. exists st'. split; [exact Hrun|].
    destruct (Hres ltac:(done)) as (Hheap & Hsl & Htr & Hwf').
    split; [exact Hheap|]. split; [exact Hsl|]. split; [|exact Hwf'].
    rewrite Htr. apply app_nil_r.
  - destruct (rtems_disk_create_phys_outcome
                (mk_environment true true true true false (0, 0) true true
                   true)
                (rtems_filesystem_make_dev_t 9 3) 512 1000 (Some 7) 0
                (Some "/dev/hdb"%string) one_disk Hwf (λ _ _ _, Haddr))
      as (sc & st' & Hrun & _ & _ & _ & _ & _ & Hreg & Hres).
    assert (Hsc : sc = RTEMS_UNSATISFIED).
    { apply Hreg; [done|done|exact Hfree| |].
      - by split_and!.
      - intros (_ & _ & _ & Hn). by destruct Hn. }
    subst sc. exists st'. split; [exact Hrun|].
    destruct (Hres ltac:(done)) as (Hheap & Hsl & Htr & Hwf').
    split; [exact Hheap|]. split; [exact Hsl|]. split; [|exact Hwf'].
    rewrite Htr. reflexivity.
Defined.

(** The run of a successful [rtems_disk_create_phys]. *)
Lemma create_phys_success env dev block_size block_count
    handler driver_data name st :
  registry_wf st → 0 ≤ dev < 2 ^ 64 → is_u32 block_count →
  handler ≠ None → block_size ≠ 0 →
  addressable dev → slot_of st dev = None →
  allocations_succeed env st dev name →
  ∃ p st',
    rtems_disk_create_phys env dev block_size block_count handler driver_data
      name st = Ok (RTEMS_SUCCESSFUL, st')
    ∧ heap st !! p = None
    ∧ heap st' =
        <[p := mk_disk_device dev (Some p)
                 (if bool_decide (fst (ioctl_capabilities env) < 0) then 0
                  else snd (ioctl_capabilities env))
                 name 0 0 block_count block_size block_size handler
                 driver_data false]> (heap st)
    ∧ (∀ M m, 0 ≤ M → 0 ≤ m →
         slot_at st' M m
         = if decide (M = major_of dev ∧ m = minor_of dev) then Some p
           else slot_at st M m)
    ∧ trace st' =
        trace st
        ++ match name with
           | Some n => [EvRegisterName n (major_of dev) (minor_of dev)]
           | None => []
           end
        ++ [EvIoctl handler p RTEMS_BLKDEV_CAPABILITIES]
    ∧ registry_wf st'.
Proof.
  intros Hreg Hdev Hcount Hh Hbs Haddr Hfree Halloc.
  pose proof Hreg as [Hwf Hlock Hslots]. pose proof Hlock as [Hmx Hpr].
  pose proof (major_of_range dev) as HMr.
  pose proof (minor_of_range dev) as Hmr.
  unfold rtems_disk_create_phys.
  destruct handler as [h|]; [|done]. simpl.
  rewrite bool_decide_eq_false_2 by done.
  rewrite (disk_lock_free _ Hlock). simpl.
  assert (Hwfl : table_wf (set_protected true st))
    by (by eapply table_wf_ext; [| |exact Hwf]).
  destruct (create_disk_free env dev name (set_protected true st))
    as (st1 & Hrun & Hwf1 & Hheap & Hmx1 & Hsem1 & Hpr1 & Hsl); try done.
  pose proof (create_disk_trace _ _ _ _ _ _ _ Hwfl Haddr Hrun) as Htr.
  rewrite Hrun. simpl. simpl in Hheap, Htr, Hmx1, Hsem1.
  set (p := fresh (dom (heap st))) in *.
  assert (Hp : heap st !! p = None).
  { apply not_elem_of_dom. apply is_fresh. }
  unfold deref. rewrite Hheap, lookup_insert_eq. simpl.
  destruct (ioctl_capabilities env) as [rc caps]. simpl.
  rewrite disk_unlock_held by (simpl; by rewrite Hmx1, Hsem1).
  eexists p, _. split; [reflexivity|]. simpl.
  rewrite Hheap, insert_insert_eq.
  split; [done|]. split; [done|].
  assert (Hsl' : ∀ st2, disktab st2 = disktab st1 →
            ∀ M m, 0 ≤ M → 0 ≤ m →
              slot_at st2 M m
              = if decide (M = major_of dev ∧ m = minor_of dev) then Some p
                else slot_at st M m).
  { intros st2 Hst2 M m HM Hm. rewrite (slot_at_ext st1) by done.
    rewrite Hsl by done.
    destruct (decide (M = major_of dev ∧ m = minor_of dev)); [done|].
    by apply slot_at_ext. }
  split; [by apply Hsl'|].
  split; [by rewrite Htr, <- app_assoc|].
  split.
  - by eapply table_wf_ext; [| |exact Hwf1].
  - split; simpl; [by rewrite Hmx1, Hsem1|done].
  - eapply (slots_ok_install st _ p _ (major_of dev) (minor_of dev)
              Hslots Hp); [|exact Hfree|by apply Hsl'|].
    + simpl. rewrite Hheap, insert_insert_eq. reflexivity.
    + unfold slot_ok. simpl. rewrite Hheap, insert_insert_eq.
      rewrite lookup_insert_eq. simpl. rewrite lookup_insert_eq. simpl.
      split_and!; try done; try apply Hcount.
      * by rewrite make_split.
      * unfold slot_of. rewrite Hsl' by (done || lia).
        by rewrite decide_True.
Qed.

(** A successful [rtems_disk_create_phys] adds exactly one descriptor, at
    an address that was not in use, and puts it in the slot of the
    identifier; no other slot and no other descriptor changes.  The
    descriptor is its own physical disk, starts at block 0, has the block
    count, the block size (also as media block size), the handler and the
    driver data supplied, no reference, and the capabilities the driver
    reported, or none when the driver's answer was negative.  The name, if
    there is one, is registered before the driver is asked for its
    capabilities.  The invariant holds after. *)
Theorem rtems_disk_create_phys_installs env dev block_size block_count
    handler driver_data name st :
  registry_wf st → 0 ≤ dev < 2 ^ 64 → is_u32 block_count →
  handler ≠ None → block_size ≠ 0 →
  addressable dev → slot_of st dev = None →
  allocations_succeed env st dev name →
  ∃ p st',
    rtems_disk_create_phys env dev block_size block_count handler driver_data
      name st = Ok (RTEMS_SUCCESSFUL, st')
    ∧ heap st !! p = None
    ∧ heap st' =
        <[p := mk_disk_device dev (Some p)
                 (if bool_decide (fst (ioctl_capabilities env) < 0) then 0
                  else snd (ioctl_capabilities env))
                 name 0 0 block_count block_size block_size handler
                 driver_data false]> (heap st)
    ∧ (∀ M m, 0 ≤ M → 0 ≤ m →
         slot_at st' M m
         = if decide (M = major_of dev ∧ m = minor_of dev) then Some p
           else slot_at st M m)
    ∧ trace st' =
        trace st
        ++ match name with
           | Some n => [EvRegisterName n (major_of dev) (minor_of dev)]
           | None => []
           end
        ++ [EvIoctl handler p RTEMS_BLKDEV_CAPABILITIES]
    ∧ registry_wf st'.
Proof.
  intros. by apply create_phys_success.
Qed.

Lemma rtems_disk_create_phys_installs_witness :
  registry_wf initialized
  ∧ slot_of initialized (rtems_filesystem_make_dev_t 1 0) = None
  ∧ ∃ p st',
      rtems_disk_create_phys fair_weather (rtems_filesystem_make_dev_t 1 0)
        512 1000 (Some 7) 0 (Some "/dev/hda"%string) initialized
      = Ok (RTEMS_SUCCESSFUL, st')
      ∧ heap st' !! p
        = Some (mk_disk_device (rtems_filesystem_make_dev_t 1 0) (Some p) 0
                  (Some "/dev/hda"%string) 0 0 1000 512 512 (Some 7) 0 false)
      ∧ registry_wf st'.
Proof.
  assert (Hwf : registry_wf initialized) by by_checker.
  split; [exact Hwf|]. split; [by vm_compute|].
  destruct (rtems_disk_create_phys_installs fair_weather
              (rtems_filesystem_make_dev_t 1 0) 512 1000 (Some 7) 0
              (Some "/dev/hda"%string) initialized Hwf)
    as (p & st' & Hrun & _ & Hheap & _ & _ & Hwf');
    [by vm_compute|by_decision|done|done|by_decision|by vm_compute
    |apply fair_weather_succeeds|].
  exists p, st'. split; [exact Hrun|]. split; [|exact Hwf'].
  rewrite Hheap. apply lookup_insert_eq.
Defined.

(** ** Creation of a logical disk *)

(** A successful [rtems_disk_create_log] adds exactly one descriptor, at
    an address that was not in use, in the slot of the identifier.  The
    descriptor names the physical disk as its owner, covers the range
    supplied, takes the block size (also as media block size), the
    handler and the driver data from the physical disk, and has no
    reference.  The physical disk keeps the reference the lookup took;
    no other descriptor and no other slot changes, and the invariant holds
    after. *)
Theorem rtems_disk_create_log_installs env dev phys begin_block block_count
    name st pp pd :
  registry_wf st → 0 ≤ dev < 2 ^ 64 →
  slot_of st phys = Some pp → heap st !! pp = Some pd →
  dd_deleted pd = false → dd_phys_dev pd = Some pp →
  is_u32 begin_block → is_u32 block_count →
  valid_range begin_block block_count (dd_size pd) →
  addressable dev → slot_of st dev = None →
  allocations_succeed env st dev name →
  ∃ p d st',
    rtems_disk_create_log env dev phys begin_block block_count name st
    = Ok (RTEMS_SUCCESSFUL, st')
    ∧ heap st !! p = None
    ∧ heap st' !! p = Some d
    ∧ dd_dev d = dev ∧ dd_phys_dev d = Some pp ∧ dd_name d = name
    ∧ dd_start d = begin_block ∧ dd_size d = block_count
    ∧ dd_block_size d = dd_block_size pd
    ∧ dd_media_block_size d = dd_block_size pd
    ∧ dd_ioctl d = dd_ioctl pd ∧ dd_driver_data d = dd_driver_data pd
    ∧ dd_uses d = 0 ∧ dd_deleted d = false
    ∧ heap st' !! pp = Some (set_uses (u32 (dd_uses pd + 1)) pd)
    ∧ (∀ q, q ≠ p → q ≠ pp → heap st' !! q = heap st !! q)
    ∧ (∀ M m, 0 ≤ M → 0 ≤ m →
         slot_at st' M m
         = if decide (M = major_of dev ∧ m = minor_of dev) then Some p
           else slot_at st M m)
    ∧ registry_wf st'.
Proof.
  intros Hreg Hdev Hpp Hpd Hlive Hphys Hb Hc Hrange Haddr Hfree Halloc.
  pose proof Hreg as [Hwf Hlock Hslots].
  pose proof (major_of_range dev) as HMr.
  pose proof (minor_of_range dev) as Hmr.
  destruct (slots_ok_slot_of _ _ _ Hslots Hpp)
    as (pd0 & Hpd0 & _ & Hu & Hsz & q & o & Hq & Ho & _ & Hoslot).
  rewrite Hpd in Hpd0. injection Hpd0 as <-.
  rewrite Hphys in Hq. injection Hq as <-.
  rewrite Hpd in Ho. injection Ho as <-.
  destruct (create_log_success env dev phys begin_block block_count name st
              pp pd) as (st' & Hrun & Hne & Hheap & Hwf' & Hlock' & Hsl);
    try done.
  set (p := fresh (dom (heap st))) in *.
  assert (Hp : heap st !! p = None).
  { apply not_elem_of_dom. apply is_fresh. }
  eexists p, _, st'. split; [exact Hrun|]. split; [exact Hp|].
  split; [rewrite Hheap; apply lookup_insert_eq|]. simpl.
  do 11 (split; [done|]).
  split.
  { rewrite Hheap. rewrite lookup_insert_ne by done.
    apply lookup_insert_eq. }
  split.
  { intros r Hr1 Hr2. rewrite Hheap.
    rewrite lookup_insert_ne by done. by rewrite lookup_insert_ne. }
  split; [exact Hsl|].
  split; [done|done|].
  set (st_a := store pp (set_uses (u32 (dd_uses pd + 1)) pd) st).
  assert (Hok_a : slots_ok st_a).
  { eapply slots_ok_store; try done. apply u32_range. }
  eapply (slots_ok_install st_a st' p _ (major_of dev) (minor_of dev) Hok_a).
  - unfold st_a. simpl. by rewrite lookup_insert_ne.
  - exact Hheap.
  - by rewrite (slot_at_ext st).
  - intros M m HM Hm. rewrite Hsl by done.
    destruct (decide (M = major_of dev ∧ m = minor_of dev)); [done|].
    symmetry. by apply slot_at_ext.
  - unfold slot_ok. rewrite Hheap, lookup_insert_eq. simpl.
    rewrite lookup_insert_ne by done. rewrite lookup_insert_eq. simpl.
    split_and!; try done; try apply Hc.
    + by rewrite make_split.
    + unfold slot_of in *.
      pose proof (major_of_range (dd_dev pd)).
      pose proof (minor_of_range (dd_dev pd)).
      rewrite Hsl by lia. rewrite decide_False; [done|].
      intros [E1 E2]. rewrite E1, E2 in Hoslot. congruence.
Qed.

Lemma rtems_disk_create_log_installs_witness :
  registry_wf one_disk
  ∧ ∃ p d st',
      rtems_disk_create_log fair_weather (rtems_filesystem_make_dev_t 2 0)
        (rtems_filesystem_make_dev_t 1 0) 100 100 None one_disk
      = Ok (RTEMS_SUCCESSFUL, st')
      ∧ heap st' !! p = Some d
      ∧ dd_phys_dev d = Some 1%positive
      ∧ dd_start d = 100 ∧ dd_size d = 100
      ∧ dd_block_size d = 512 ∧ dd_ioctl d = Some 7
      ∧ registry_wf st'.
Proof.
  assert (Hwf : registry_wf one_disk) by by_checker.
  split; [exact Hwf|].
  destruct (rtems_disk_create_log_installs fair_weather
              (rtems_filesystem_make_dev_t 2 0)
              (rtems_filesystem_make_dev_t 1 0) 100 100 None one_disk
              1%positive
              (mk_disk_device (rtems_filesystem_make_dev_t 1 0)
                 (Some 1%positive) 0 None 0 0 1000 512 512 (Some 7) 0 false)
              Hwf)
    as (p & d & st' & Hrun & _ & Hd & _ & Hown & _ & Hstart & Hsize & Hbs
        & _ & Hio & _ & _ & _ & _ & _ & _ & Hwf');
    [by vm_compute|by vm_compute|by vm_compute|done|done|by_decision
    |by_decision|by_decision|by_decision|by vm_compute
    |apply fair_weather_succeeds|].
  exists p, d, st'. by split_and!.
Defined.

(** ** Initialization *)

(** A successful first [rtems_disk_io_initialize] establishes the
    invariant.  The table has [DISKTAB_INITIAL_SIZE] major numbers and no
    occupied slot, so every lookup finds nothing; the mutex is a semaphore
    that did not exist before; the buffer cache has been initialized; the
    heap is as it was. *)
Theorem rtems_disk_io_initialize_establishes env st :
  disktab_size st ≤ 0 →
  calloc_ok env = true → semaphore_create_ok env = true →
  bdbuf_init_ok env = true →
  ∃ st',
    rtems_disk_io_initialize env st = Ok (RTEMS_SUCCESSFUL, st')
    ∧ registry_wf st'
    ∧ disktab_size st' = DISKTAB_INITIAL_SIZE
    ∧ (∀ M m, slot_at st' M m = None)
    ∧ (∀ dev, rtems_disk_obtain dev st' = Ok (None, st'))
    ∧ (diskdevs_mutex st' ∉ semaphores st)
    ∧ diskdevs_mutex st' ≠ RTEMS_ID_NONE
    ∧ semaphores st' = {[diskdevs_mutex st']} ∪ semaphores st
    ∧ heap st' = heap st
    ∧ trace st' = trace st ++ [EvBdbufInit].
Proof.
  intros Hsize Hcalloc Hsem Hbdbuf.
  unfold rtems_disk_io_initialize.
  rewrite bool_decide_eq_false_2 by lia.
  rewrite Hcalloc, Hsem, Hbdbuf. simpl.
  set (id := fresh ({[RTEMS_ID_NONE]} ∪ semaphores st)).
  pose proof (is_fresh ({[RTEMS_ID_NONE]} ∪ semaphores st)) as Hid.
  fold id in Hid.
  eexists. split; [reflexivity|].
  match goal with |- registry_wf ?s ∧ _ => set (st' := s) end.
  assert (Hslots : ∀ M m, slot_at st' M m = None).
  { intros M m. unfold slot_at.
    assert (Ht : table_at st' M
                 = replicate (Z.to_nat DISKTAB_INITIAL_SIZE) zero_table
                     !! Z.to_nat M) by reflexivity.
    rewrite Ht.
    destruct (replicate (Z.to_nat DISKTAB_INITIAL_SIZE) zero_table
                !! Z.to_nat M) as [dtab|] eqn:E; [|done].
    apply lookup_replicate in E as [-> _]. done. }
  assert (Hwf : registry_wf st').
  { split.
    - assert (Ht : disktab st'
                   = TabLive (replicate (Z.to_nat DISKTAB_INITIAL_SIZE)
                                zero_table)) by reflexivity.
      unfold table_wf. rewrite Ht. rewrite length_replicate.
      split_and!; try done.
      apply Forall_replicate. reflexivity.
    - split; simpl; [|done]. apply elem_of_union_l. by apply elem_of_singleton.
    - intros M m q _ _ Hq. by rewrite Hslots in Hq. }
  split; [exact Hwf|]. split; [done|]. split; [exact Hslots|].
  split.
  { intros dev. rewrite (obtain_spec _ _ Hwf). unfold slot_of.
    by rewrite Hslots. }
  simpl. split_and!; try done.
  - intros Hin. apply Hid. by apply elem_of_union_r.
  - intros E. apply Hid. apply elem_of_union_l. by apply elem_of_singleton.
Qed.

Lemma rtems_disk_io_initialize_establishes_witness :
  disktab_size (boot ∅) ≤ 0
  ∧ ∃ st',
      rtems_disk_io_initialize fair_weather (boot ∅)
      = Ok (RTEMS_SUCCESSFUL, st')
      ∧ registry_wf st'
      ∧ rtems_disk_obtain (rtems_filesystem_make_dev_t 1 0) st'
        = Ok (None, st').
Proof.
  assert (Hsize : disktab_size (boot ∅) ≤ 0) by (simpl; lia).
  split; [exact Hsize|].
  destruct (rtems_disk_io_initialize_establishes fair_weather (boot ∅) Hsize)
    as (st' & Hrun & Hwf & _ & _ & Hfind & _); [done|done|done|].
  exists st'. split; [exact Hrun|]. split; [exact Hwf|]. apply Hfind.
Defined.

(** ** Deletion *)

(** A descriptor sits in one slot only: it carries the identifier of its
    slot. *)
Lemma slot_unique st M m M' m' q :
  table_wf st → slots_ok st →
  0 ≤ M → 0 ≤ m → 0 ≤ M' → 0 ≤ m' →
  slot_at st M m = Some q → slot_at st M' m' = Some q →
  M = M' ∧ m = m'.
Proof.
  intros Hwf Hok HM Hm HM' Hm' Hq Hq'.
  pose proof (Hok M m q HM Hm Hq) as H1.
  pose proof (Hok M' m' q HM' Hm' Hq') as H2.
  unfold slot_ok in *.
  destruct (heap st !! q) as [dq|]; [|done].
  destruct H1 as (E1 & _). destruct H2 as (E2 & _).
  rewrite E1 in E2. unfold rtems_filesystem_make_dev_t in E2.
  destruct (slot_at_bounds _ _ _ _ Hwf HM Hm Hq) as [_ Hb].
  destruct (slot_at_bounds _ _ _ _ Hwf HM' Hm' Hq') as [_ Hb'].
  pose proof (minor_size_bound st M Hwf HM).
  pose proof (minor_size_bound st M' Hwf HM').
  lia.
Qed.

(** Taking a descriptor that owns no other out of its slot and off the
    heap keeps the invariant of the slots. *)
Lemma slots_ok_remove st st' p M0 m0 :
  table_wf st → slots_ok st →
  0 ≤ M0 → 0 ≤ m0 → slot_at st M0 m0 = Some p →
  (∀ M m q dq, 0 ≤ M → 0 ≤ m → slot_at st M m = Some q → q ≠ p →
     heap st !! q = Some dq → dd_phys_dev dq ≠ Some p) →
  heap st' = delete p (heap st) →
  (∀ M m, 0 ≤ M → 0 ≤ m →
     slot_at st' M m
     = if decide (M = M0 ∧ m = m0) then None else slot_at st M m) →
  slots_ok st'.
Proof.
  intros Hwf Hok HM0 Hm0 Hp Hnone Hheap Hsl major minor q HM Hm Hq.
  rewrite Hsl in Hq by done.
  destruct (decide (major = M0 ∧ minor = m0)) as [|Hne]; [done|].
  assert (Hqp : q ≠ p).
  { intros ->. destruct Hne.
    by eapply (slot_unique st major minor M0 m0 p). }
  pose proof (Hok major minor q HM Hm Hq) as Hslot.
  unfold slot_ok in *. rewrite Hheap.
  rewrite lookup_delete_ne by done.
  destruct (heap st !! q) as [dq|] eqn:Hdq; [|done].
  destruct Hslot as (? & ? & ? & Hown). split_and!; try done; try lia.
  destruct (dd_phys_dev dq) as [o|] eqn:Ho; [|done].
  assert (Hop : o ≠ p).
  { intros ->. by eapply (Hnone major minor q dq). }
  rewrite lookup_delete_ne by done.
  destruct (heap st !! o) as [od|] eqn:Hod; [|done].
  destruct Hown as [? Hoslot]. split; [done|].
  unfold slot_of in *.
  pose proof (major_of_range (dd_dev od)).
  pose proof (minor_of_range (dd_dev od)).
  rewrite Hsl by lia. rewrite decide_False; [done|].
  intros [E1 E2]. rewrite E1, E2 in Hoslot. congruence.
Qed.

(** The way of [rtems_disk_delete] to the cleanup: the lookup takes a
    reference, the deletion gives it back and sets the mark. *)
Lemma delete_found dev st p d :
  table_wf st → lock_free st →
  slot_of st dev = Some p → heap st !! p = Some d →
  dd_deleted d = false → 0 ≤ dd_uses d < 2 ^ 32 →
  rtems_disk_delete dev st
  = (st1 ← rtems_disk_cleanup p
             (scanning st (<[p := set_deleted true d]> (heap st)));
     st2 ← disk_unlock st1;
     Ok (RTEMS_SUCCESSFUL, st2)).
Proof.
  intros Hwf Hlock Hs Hd Hlive Hu.
  unfold rtems_disk_delete. rewrite (disk_lock_free _ Hlock). simpl.
  rewrite get_disk_entry_spec by (by eapply table_wf_ext; [| |exact Hwf]).
  unfold slot_of in *. rewrite (slot_at_ext st) by done. rewrite Hs.
  simpl. rewrite Hd, Hlive. simpl.
  unfold decrement_uses. rewrite deref_store_eq. simpl.
  rewrite deref_store_eq. simpl.
  rewrite set_uses_roundtrip by done.
  by rewrite !store_store, store_scanning.
Qed.

(** The identifier of a descriptor in the table splits into the indices
    of its slot. *)
Lemma split_installed st dev p d :
  slots_ok st → slot_of st dev = Some p → heap st !! p = Some d →
  rtems_filesystem_split_dev_t (dd_dev d) = (major_of dev, minor_of dev).
Proof.
  intros Hok Hs Hd.
  destruct (slots_ok_slot_of _ _ _ Hok Hs) as (d0 & Hd0 & Hdev & _).
  rewrite Hd in Hd0. injection Hd0 as <-.
  pose proof (major_of_range dev). pose proof (minor_of_range dev).
  rewrite split_eq, Hdev.
  by rewrite major_of_make, minor_of_make by lia.
Qed.

(** Deleting a live logical disk whose physical disk is live.  A logical
    disk in use is marked deleted and keeps its slot, its use count and
    its place among the references of its physical disk; from then on a
    lookup does not find it.  A logical disk that is not in use is
    reclaimed at once: its slot is cleared, its descriptor freed, its name
    unlinked, and its physical disk loses the reference the logical disk
    held.  No other slot and no other descriptor changes, and the
    invariant holds after. *)
Theorem rtems_disk_delete_logical st dev p d pp pd :
  registry_wf st →
  slot_of st dev = Some p → heap st !! p = Some d → dd_deleted d = false →
  dd_phys_dev d = Some pp → p ≠ pp →
  heap st !! pp = Some pd → dd_deleted pd = false →
  (dd_uses d ≠ 0 →
     rtems_disk_delete dev st
     = Ok (RTEMS_SUCCESSFUL, store p (set_deleted true d) st)
     ∧ registry_wf (store p (set_deleted true d) st)
     ∧ rtems_disk_obtain dev (store p (set_deleted true d) st)
       = Ok (None, store p (set_deleted true d) st))
  ∧ (dd_uses d = 0 →
     ∃ st',
       rtems_disk_delete dev st = Ok (RTEMS_SUCCESSFUL, st')
       ∧ heap st'
         = delete p (<[pp := set_uses (u32 (dd_uses pd - 1)) pd]> (heap st))
       ∧ (∀ M m, 0 ≤ M → 0 ≤ m →
            slot_at st' M m
            = if decide (M = major_of dev ∧ m = minor_of dev) then None
              else slot_at st M m)
       ∧ trace st' =
           trace st ++ match dd_name d with
                       | Some n => [EvUnlink n]
                       | None => []
                       end
       ∧ registry_wf st').
Proof.
  intros Hreg Hs Hd Hlive Hown Hne Hpd Hplive.
  pose proof Hreg as [Hwf Hlock Hslots]. pose proof Hlock as [Hmx Hpr].
  pose proof (major_of_range dev) as HMr.
  pose proof (minor_of_range dev) as Hmr.
  destruct (slots_ok_slot_of _ _ _ Hslots Hs)
    as (d0 & Hd0 & Hdev & Hu & _).
  rewrite Hd in Hd0. injection Hd0 as <-.
  rewrite (delete_found dev st p d) by done.
  unfold rtems_disk_cleanup.
  rewrite (deref_Some (scanning st _) p (set_deleted true d))
    by apply lookup_insert_eq.
  simpl. rewrite Hown. unfold deref_opt.
  rewrite (deref_Some (scanning st _) pp pd)
    by (simpl; by rewrite lookup_insert_ne).
  simpl. rewrite Hplive.
  split.
  - intros Huses. rewrite bool_decide_eq_false_2 by done. simpl.
    rewrite (unlock_scanning _ _ Hlock).
    assert (Hwf' : registry_wf (store p (set_deleted true d) st))
      by (by eapply registry_wf_store).
    split; [done|]. split; [done|].
    rewrite (obtain_spec _ _ Hwf'). unfold slot_of in *.
    rewrite (slot_at_ext st) by done. rewrite Hs. simpl.
    by rewrite lookup_insert_eq.
  - intros Huses. rewrite bool_decide_eq_true_2 by done.
    unfold decrement_uses.
    rewrite (deref_Some (scanning st _) pp pd)
      by (simpl; by rewrite lookup_insert_ne).
    simpl.
    set (h1 := <[pp := set_uses (u32 (dd_uses pd - 1)) pd]>
                 (<[p := set_deleted true d]> (heap st))).
    change (store pp (set_uses (u32 (dd_uses pd - 1)) pd) (scanning st _))
      with (scanning st h1).
    rewrite (deref_Some (scanning st h1) p (set_deleted true d))
      by (unfold h1; simpl; rewrite lookup_insert_ne by done;
          apply lookup_insert_eq).
    simpl.
    pose proof (split_installed st dev p d Hslots Hs Hd) as Hsplit.
    rewrite split_eq in Hsplit. injection Hsplit as HMd Hmd.
    change (u32 (dd_dev d `div` 2 ^ 32)) with (major_of (dd_dev d)).
    change (u32 (dd_dev d)) with (minor_of (dd_dev d)).
    rewrite HMd, Hmd.
    destruct (write_slot_spec (scanning st h1) (major_of dev) (minor_of dev)
                None)
      as (st2 & Hw & Hwf2 & Hsame & Hsz2 & Hms2 & Hsl2).
    { by eapply table_wf_ext; [| |exact Hwf]. }
    { unfold slot_of in Hs.
      destruct (slot_at_bounds _ _ _ _ Hwf (proj1 HMr) (proj1 Hmr) Hs).
      simpl. lia. }
    { unfold slot_of in Hs.
      destruct (slot_at_bounds _ _ _ _ Hwf (proj1 HMr) (proj1 Hmr) Hs).
      rewrite (minor_size_ext st) by done. lia. }
    destruct Hsame as (Hheap2 & Hmx2 & Hsem2 & Hpr2 & Htr2).
    simpl in Hheap2, Hmx2, Hsem2, Hpr2, Htr2.
    rewrite Hw. simpl. unfold free_disk_device.
    rewrite (deref_Some st2 p (set_deleted true d))
      by (rewrite Hheap2; unfold h1; rewrite lookup_insert_ne by done;
          apply lookup_insert_eq).
    simpl. unfold is_physical_disk. simpl. rewrite Hown.
    rewrite bool_decide_eq_false_2 by congruence. simpl.
    set (st3 := match dd_name d with
                | Some n => log_event (EvUnlink n) st2
                | None => st2
                end).
    assert (Hst3 : disktab st3 = disktab st2
                   ∧ disktab_size st3 = disktab_size st2
                   ∧ heap st3 = heap st2
                   ∧ diskdevs_mutex st3 = diskdevs_mutex st2
                   ∧ semaphores st3 = semaphores st2
                   ∧ trace st3 = trace st2 ++ match dd_name d with
                                              | Some n => [EvUnlink n]
                                              | None => []
                                              end).
    { unfold st3. destruct (dd_name d); simpl; split_and!; try done.
      by rewrite app_nil_r. }
    destruct Hst3 as (Hd3 & Hz3 & Hh3 & Hx3 & Hs3 & Ht3).
    rewrite disk_unlock_held by (simpl; by rewrite Hx3, Hs3, Hmx2, Hsem2).
    eexists. split; [reflexivity|].
    assert (Hheap' : delete p h1
              = delete p (<[pp := set_uses (u32 (dd_uses pd - 1)) pd]>
                            (heap st))).
    { unfold h1. apply map_eq. intros r.
      destruct (decide (r = p)) as [->|Hr].
      - by rewrite !lookup_delete_eq.
      - rewrite !lookup_delete_ne by done.
        destruct (decide (r = pp)) as [->|Hr'].
        + by rewrite !lookup_insert_eq.
        + rewrite !lookup_insert_ne by done. done. }
    assert (Hsl' : ∀ st4, disktab st4 = disktab st3 →
              ∀ M m, 0 ≤ M → 0 ≤ m →
                slot_at st4 M m
                = if decide (M = major_of dev ∧ m = minor_of dev) then None
                  else slot_at st M m).
    { intros st4 Hst4 M m HM Hm.
      rewrite (slot_at_ext st2) by (by rewrite Hst4).
      rewrite Hsl2 by done.
      destruct (decide (M = major_of dev ∧ m = minor_of dev)); [done|].
      by apply slot_at_ext. }
    simpl. rewrite Hh3, Hheap2, Hheap', Ht3, Htr2.
    split; [done|]. split; [by apply Hsl'|]. split; [done|].
    split.
    + apply (table_wf_ext st2); [done|by rewrite <- Hz3|done].
    + split; simpl; [by rewrite Hx3, Hs3, Hmx2, Hsem2|done].
    + set (st_a := store pp (set_uses (u32 (dd_uses pd - 1)) pd) st).
      assert (Hok_a : slots_ok st_a).
      { eapply slots_ok_store; try done. apply u32_range. }
      eapply (slots_ok_remove st_a _ p (major_of dev) (minor_of dev)).
      * by eapply table_wf_ext; [| |exact Hwf].
      * exact Hok_a.
      * lia.
      * lia.
      * by rewrite (slot_at_ext st).
      * intros M m q dq HM Hm Hq Hqp Hdq Hq_own.
        rewrite (slot_at_ext st) in Hq by done.
        pose proof (Hslots M m q HM Hm Hq) as Hslot.
        unfold slot_ok in Hslot.
        destruct (heap st !! q) as [dq0|] eqn:Hdq0; [|done].
        destruct Hslot as (_ & _ & _ & Hq_ok).
        assert (Hpo : dd_phys_dev dq0 = Some p).
        { unfold st_a in Hdq. simpl in Hdq.
          destruct (decide (q = pp)) as [->|Hqpp].
          - rewrite lookup_insert_eq in Hdq. injection Hdq as <-.
            simpl in Hq_own. rewrite Hpd in Hdq0. by injection Hdq0 as <-.
          - rewrite lookup_insert_ne in Hdq by done.
            rewrite Hdq0 in Hdq. by injection Hdq as <-. }
        rewrite Hpo, Hd in Hq_ok. destruct Hq_ok as [Hq_ok _]. congruence.
      * reflexivity.
      * intros M m HM Hm. rewrite Hsl' by done.
        destruct (decide (M = major_of dev ∧ m = minor_of dev)); [done|].
        symmetry. by apply slot_at_ext.
Qed.

Lemma rtems_disk_delete_logical_witness :
  registry_wf two_disks
  ∧ ∃ st',
      rtems_disk_delete (rtems_filesystem_make_dev_t 2 0) two_disks
      = Ok (RTEMS_SUCCESSFUL, st')
      ∧ slot_at st' 2 0 = None
      ∧ heap st' !! 2%positive = None
      ∧ (∃ pd', heap st' !! 1%positive = Some pd' ∧ dd_uses pd' = 0)
      ∧ registry_wf st'.
Proof.
  assert (Hwf : registry_wf two_disks) by by_checker.
  split; [exact Hwf|].
  destruct (proj2 (rtems_disk_delete_logical two_disks
                     (rtems_filesystem_make_dev_t 2 0) 2%positive
                     (mk_disk_device (rtems_filesystem_make_dev_t 2 0)
                        (Some 1%positive) 0 None 0 100 100 512 512 (Some 7) 0
                        false)
                     1%positive
                     (mk_disk_device (rtems_filesystem_make_dev_t 1 0)
                        (Some 1%positive) 0 None 1 0 1000 512 512 (Some 7) 0
                        false)
                     Hwf ltac:(vm_compute; reflexivity)
                     ltac:(vm_compute; reflexivity) eq_refl eq_refl
                     ltac:(done) ltac:(vm_compute; reflexivity) eq_refl)
              eq_refl)
    as (st' & Hrun & Hheap & Hsl & _ & Hwf').
  exists st'. split; [exact Hrun|].
  split; [rewrite Hsl by lia; by vm_compute|].
  split; [rewrite Hheap; apply lookup_delete_eq|].
  split; [|exact Hwf'].
  eexists. split; [rewrite Hheap; vm_compute; reflexivity|reflexivity].
Defined.

(** ** The order of a scan *)

Lemma slots_before_start st : slots_before st 0 0 = [].
Proof.
  unfold slots_before. destruct (disktab st) as [|t|]; try done.
  simpl. destruct (t !! Z.to_nat 0) as [dtab|]; [|done].
  by destruct (dt_minor dtab).
Qed.

(** One step of the inner loop. *)
Lemma slots_before_step st major minor :
  table_wf st → 0 ≤ major < disktab_size st →
  0 ≤ minor < minor_size st major →
  slots_before st major (minor + 1)
  = slots_before st major minor
    ++ match slot_at st major minor with
       | Some q => [q]
       | None => []
       end.
Proof.
  intros Hwf HM Hm.
  destruct (table_at_lt st major Hwf HM) as (dtab & Hd & Hdwf).
  unfold minor_size in Hm. unfold slots_before, slot_at. rewrite Hd in *.
  unfold table_at in Hd. destruct (disktab st) as [|t|]; try done.
  rewrite Hd. unfold dtab_wf in Hdwf.
  destruct (dt_minor dtab) as [a|]; [|lia].
  destruct Hdwf as [Hlen _].
  destruct (lookup_lt_is_Some_2 a (Z.to_nat minor)) as [slot Hslot]; [lia|].
  replace (Z.to_nat (minor + 1)) with (S (Z.to_nat minor)) by lia.
  rewrite (take_S_r _ _ _ Hslot), omap_app, Hslot. simpl.
  rewrite <- app_assoc. do 2 f_equal; try done; by destruct slot.
Qed.

(** From the end of one inner table to the start of the next. *)
Lemma slots_before_next st major :
  table_wf st → 0 ≤ major < disktab_size st →
  slots_before st (major + 1) 0 = slots_before st major (minor_size st major).
Proof.
  intros Hwf HM.
  destruct (table_at_lt st major Hwf HM) as (dtab & Hd & Hdwf).
  unfold minor_size, slots_before. rewrite Hd.
  unfold table_at in Hd. destruct (disktab st) as [|t|]; try done.
  rewrite Hd.
  replace (Z.to_nat (major + 1)) with (S (Z.to_nat major)) by lia.
  rewrite (take_S_r _ _ _ Hd), fmap_app, join_app. simpl.
  assert (Hnil : match t !! S (Z.to_nat major) with
                 | Some dtab0 =>
                     match dt_minor dtab0 with
                     | Some _ | _ => []
                     end
                 | None => []
                 end = ([] : list ptr)).
  { destruct (t !! S (Z.to_nat major)) as [d1|]; [|done].
    by destruct (dt_minor d1). }
  rewrite Hnil, !app_nil_r. f_equal.
  unfold row_slots, dtab_wf in *.
  destruct (dt_minor dtab) as [a|]; [|done].
  destruct Hdwf as [Hlen _]. rewrite take_ge by lia. done.
Qed.

(** What has been visited lies in a slot before the position of the
    scan. *)
Lemma slots_before_elem st major minor q :
  0 ≤ major →
  q ∈ slots_before st major minor →
  ∃ M m, 0 ≤ M ∧ 0 ≤ m
    ∧ (M < major ∨ (M = major ∧ m < minor))
    ∧ slot_at st M m = Some q.
Proof.
  intros HM. unfold slots_before. destruct (disktab st) as [|t|] eqn:Ht;
    [by intros ?%elem_of_nil| |by intros ?%elem_of_nil].
  intros [Hin|Hin]%elem_of_app.
  - apply list_elem_of_join in Hin as (l & Hq & Hl).
    apply list_elem_of_fmap in Hl as (dtab & -> & Hdtab).
    apply elem_of_take in Hdtab as (i & Hi & Hlt).
    unfold row_slots in Hq. destruct (dt_minor dtab) as [a|] eqn:Ha;
      [|by apply elem_of_nil in Hq].
    apply list_elem_of_omap in Hq as (slot & Hslot & Hid). simpl in Hid.
    subst slot. apply list_elem_of_lookup in Hslot as (j & Hj).
    exists (Z.of_nat i), (Z.of_nat j). split_and!; try lia.
    unfold slot_at, table_at. rewrite Ht, !Nat2Z.id, Hi, Ha, Hj. done.
  - destruct (t !! Z.to_nat major) as [dtab|] eqn:Hd;
      [|by apply elem_of_nil in Hin].
    destruct (dt_minor dtab) as [a|] eqn:Ha; [|by apply elem_of_nil in Hin].
    apply list_elem_of_omap in Hin as (slot & Hslot & Hid). simpl in Hid.
    subst slot. apply elem_of_take in Hslot as (j & Hj & Hlt).
    exists major, (Z.of_nat j). split_and!; try lia.
    unfold slot_at, table_at. rewrite Ht, Hd, Ha, Nat2Z.id, Hj. done.
Qed.

(** A scan visits every occupied slot. *)
Lemma all_slots_elem st M m q :
  table_wf st → 0 ≤ M → 0 ≤ m →
  slot_at st M m = Some q → q ∈ all_slots st.
Proof.
  intros Hwf HM Hm Hq.
  destruct (slot_at_Some _ _ _ _ Hq) as (dtab & a & Hd & Ha & Hslot).
  destruct (table_wf_live _ Hwf) as (t & Ht & Hlen & _).
  unfold all_slots, slots_before. unfold table_at in Hd.
  rewrite Ht in *. rewrite take_ge by lia.
  apply elem_of_app. left. apply list_elem_of_join.
  exists (row_slots dtab). split.
  - unfold row_slots. rewrite Ha. apply list_elem_of_omap.
    exists (Some q). split; [|done]. by eapply list_elem_of_lookup_2.
  - apply list_elem_of_fmap. exists dtab. split; [done|].
    by eapply list_elem_of_lookup_2.
Qed.

(** A descriptor in the slot the scan is about to look at has not been
    visited. *)
Lemma slots_before_fresh st major minor q :
  table_wf st → slots_ok st → 0 ≤ major → 0 ≤ minor →
  slot_at st major minor = Some q → q ∉ slots_before st major minor.
Proof.
  intros Hwf Hok HM Hm Hq Hin.
  apply slots_before_elem in Hin as (M & m & HM' & Hm' & Hpos & Hq');
    [|done].
  destruct (slot_unique st M m major minor q); try done. lia.
Qed.
(** ** The scan of [rtems_disk_cleanup] *)

Lemma elem_of_snoc_bool (V : list ptr) q r :
  bool_decide (r ∈ V ++ [q]) = bool_decide (r ∈ V) || bool_decide (r = q).
Proof.
  destruct (bool_decide_reflect (r ∈ V)) as [Hin|Hin]; simpl.
  - apply bool_decide_eq_true_2, elem_of_app. by left.
  - apply bool_decide_ext. rewrite elem_of_app, list_elem_of_singleton.
    tauto.
Qed.

Lemma reclaimed_snoc st pp V q :
  reclaimed st pp (V ++ [q])
  = reclaimed st pp V ++ (if is_child st pp q && unused st q then [q] else []).
Proof.
  unfold reclaimed. rewrite filter_app. f_equal.
  destruct (is_child st pp q && unused st q) eqn:E.
  - by rewrite filter_cons_True.
  - rewrite filter_cons_False; [done|]. by rewrite E.
Qed.

Section Cascade.

Variables (s0 : registry) (pp : ptr) (pd0 : rtems_disk_device).
Hypothesis Hwf : table_wf s0.
Hypothesis Hslots : slots_ok s0.
Hypothesis Hpp : slot_of s0 (dd_dev pd0) = Some pp.
Hypothesis Hpd : heap s0 !! pp = Some pd0.

(** The test of the scan, [dd->phys_dev->dev == dev && dd != physical_disk],
    picks the logical disks of [pp]. *)
Lemma child_test q dq o od :
  heap s0 !! q = Some dq → dd_phys_dev dq = Some o →
  heap s0 !! o = Some od → slot_of s0 (dd_dev od) = Some o →
  bool_decide (dd_dev od = dd_dev pd0) && bool_decide (q ≠ pp)
  = is_child s0 pp q.
Proof.
  intros Hdq Ho Hod Hoslot. unfold is_child. rewrite Hdq, Ho.
  destruct (decide (o = pp)) as [->|Hne].
  - rewrite Hpd in Hod. injection Hod as <-.
    rewrite (bool_decide_eq_true_2 (dd_dev pd0 = dd_dev pd0)) by done.
    rewrite (bool_decide_eq_true_2 (Some pp = Some pp)) by done.
    by rewrite andb_true_l, andb_true_r.
  - rewrite (bool_decide_eq_false_2 (dd_dev od = dd_dev pd0)).
    + rewrite (bool_decide_eq_false_2 (Some o = Some pp)) by congruence.
      by rewrite andb_false_r.
    + intros Hdev. destruct Hne. by eapply (owner_by_dev s0 pp pd0 o od).
Qed.

(** An owner is no logical disk. *)
Lemma owner_not_child o od :
  heap s0 !! o = Some od → dd_phys_dev od = Some o → is_child s0 pp o = false.
Proof.
  intros Hod Hphys. unfold is_child. rewrite Hod, Hphys.
  destruct (decide (o = pp)) as [->|Hne].
  - rewrite (bool_decide_eq_false_2 (pp ≠ pp)); [done|]. by intros [].
  - rewrite (bool_decide_eq_false_2 (Some o = Some pp)) by congruence.
    apply andb_false_r.
Qed.

(** One iteration of the inner loop. *)
Lemma cleanup_slot_scanned major minor cur count :
  0 ≤ major < disktab_size s0 → 0 ≤ minor < minor_size s0 major →
  scanned s0 pp (slots_before s0 major minor) cur count →
  ∃ cur' count',
    cleanup_slot (dd_dev pd0) pp major minor (cur, count) = Ok (cur', count')
    ∧ scanned s0 pp (slots_before s0 major (minor + 1)) cur' count'.
Proof.
  intros HM Hm Hsc. rewrite slots_before_step by done.
  set (V := slots_before s0 major minor) in *.
  pose proof Hsc as [Hwfc Hsz Hmin Hmx Hsem Hpr Hsl Hheap Hcnt Htr].
  unfold cleanup_slot.
  destruct (read_slot_at cur major minor Hwfc) as (dtab & -> & _ & _ & Hrs);
    [lia|rewrite Hmin; lia|].
  simpl. rewrite Hrs. simpl. rewrite Hsl by lia.
  destruct (slot_at s0 major minor) as [q|] eqn:Hq.
  2: { exists cur, count. split; [done|]. by rewrite app_nil_r. }
  assert (Hfresh : q ∉ V) by (apply slots_before_fresh; try done; lia).
  rewrite (bool_decide_eq_false_2 (q ∈ V)) by done. simpl.
  pose proof (Hslots major minor q (proj1 HM) (proj1 Hm) Hq) as Hok.
  unfold slot_ok in Hok.
  destruct (heap s0 !! q) as [dq|] eqn:Hdq; [|done].
  destruct Hok as (Hdev & Hu & Hs & Hown).
  destruct (dd_phys_dev dq) as [o|] eqn:Ho; [|done].
  destruct (heap s0 !! o) as [od|] eqn:Hod; [|done].
  destruct Hown as [Hophys Hoslot].
  assert (Hcq : heap cur !! q = Some dq).
  { rewrite Hheap. rewrite (bool_decide_eq_false_2 (q ∈ V)) by done. done. }
  assert (Hco : heap cur !! o = Some od).
  { rewrite Hheap, (owner_not_child o od), andb_false_r by done. done. }
  rewrite (deref_Some cur q dq) by done. simpl. rewrite Ho.
  unfold deref_opt. rewrite (deref_Some cur o od) by done. simpl.
  rewrite (child_test q dq o od) by done.
  assert (Hunused : unused s0 q = bool_decide (dd_uses dq = 0))
    by (unfold unused; by rewrite Hdq).
  assert (Hmem : ∀ M m r, 0 ≤ M → 0 ≤ m → slot_at s0 M m = Some r →
            ¬ (M = major ∧ m = minor) →
            bool_decide (r ∈ V ++ [q]) = bool_decide (r ∈ V)).
  { intros M m r HM' Hm' Hr Hne. rewrite elem_of_snoc_bool.
    rewrite (bool_decide_eq_false_2 (r = q)); [by rewrite orb_false_r|].
    intros ->. destruct Hne.
    eapply (slot_unique s0 M m major minor q); try done; lia. }
  destruct (is_child s0 pp q) eqn:Hchild; simpl.
  - destruct (decide (dd_uses dq = 0)) as [Hz|Hnz].
    + rewrite bool_decide_eq_true_2 by done.
      destruct (write_slot_spec cur major minor None Hwfc)
        as (cur1 & -> & Hwf1 & Hsame & Hsz1 & Hms1 & Hsl1);
        [lia|rewrite Hmin; lia|].
      destruct Hsame as (Hheap1 & Hmx1 & Hsem1 & Hpr1 & Htr1).
      simpl. unfold free_disk_device.
      rewrite (deref_Some cur1 q dq) by (by rewrite Hheap1). simpl.
      assert (Hnp : is_physical_disk q dq = false).
      { unfold is_physical_disk. apply bool_decide_eq_false_2.
        unfold is_child in Hchild. rewrite Hdq in Hchild.
        apply andb_true_iff in Hchild as [Hne Hpar].
        apply bool_decide_eq_true_1 in Hne, Hpar. congruence. }
      rewrite Hnp. simpl.
      set (cur2 := match dd_name dq with
                   | Some n => log_event (EvUnlink n) cur1
                   | None => cur1
                   end).
      assert (Hcur2 : disktab cur2 = disktab cur1
                      ∧ disktab_size cur2 = disktab_size cur1
                      ∧ heap cur2 = heap cur1
                      ∧ diskdevs_mutex cur2 = diskdevs_mutex cur1
                      ∧ semaphores cur2 = semaphores cur1
                      ∧ diskdevs_protected cur2 = diskdevs_protected cur1
                      ∧ trace cur2 = trace cur1 ++ free_events s0 q).
      { unfold cur2, free_events. rewrite Hdq, Hnp.
        destruct (dd_name dq); simpl; split_and!; try done.
        by rewrite app_nil_r. }
      destruct Hcur2 as (Hd2 & Hz2 & Hh2 & Hx2 & Hs2 & Hp2 & Ht2).
      clearbody cur2.
      eexists _, _. split; [reflexivity|].
      split; simpl.
      * apply (table_wf_ext cur1); [exact Hd2|exact Hz2|exact Hwf1].
      * by rewrite Hz2, Hsz1.
      * intros M. rewrite (minor_size_ext cur1) by exact Hd2.
        by rewrite Hms1.
      * by rewrite Hx2, Hmx1.
      * by rewrite Hs2, Hsem1.
      * by rewrite Hp2, Hpr1.
      * intros M m HM' Hm'. rewrite (slot_at_ext cur1) by exact Hd2.
        rewrite Hsl1 by done.
        destruct (decide (M = major ∧ m = minor)) as [[-> ->]|Hne].
        -- rewrite Hq, elem_of_snoc_bool, Hchild, Hunused.
           rewrite (bool_decide_eq_true_2 (q = q)) by done.
           rewrite (bool_decide_eq_true_2 (dd_uses dq = 0)) by done.
           by rewrite orb_true_r.
        -- rewrite Hsl by done.
           destruct (slot_at s0 M m) as [r|] eqn:Hr; [|done].
           by rewrite (Hmem M m r).
      * intros r. rewrite Hh2, Hheap1.
        destruct (decide (r = q)) as [->|Hrq].
        -- rewrite lookup_delete_eq, elem_of_snoc_bool, Hchild, Hunused.
           rewrite (bool_decide_eq_true_2 (q = q)) by done.
           rewrite (bool_decide_eq_true_2 (dd_uses dq = 0)) by done.
           by rewrite orb_true_r.
        -- rewrite lookup_delete_ne by done. rewrite Hheap.
           rewrite elem_of_snoc_bool.
           rewrite (bool_decide_eq_false_2 (r = q)) by done.
           by rewrite orb_false_r.
      * rewrite reclaimed_snoc, Hchild, Hunused.
        rewrite (bool_decide_eq_true_2 (dd_uses dq = 0)) by done. simpl.
        rewrite length_app, Hcnt. simpl. unfold u32.
        rewrite Nat2Z.inj_add. simpl.
        by rewrite Zplus_mod_idemp_l.
      * rewrite reclaimed_snoc, Hchild, Hunused.
        rewrite (bool_decide_eq_true_2 (dd_uses dq = 0)) by done. simpl.
        rewrite bind_app. simpl. rewrite app_nil_r.
        by rewrite Ht2, Htr1, Htr, app_assoc.
    + rewrite bool_decide_eq_false_2 by done.
      eexists _, _. split; [reflexivity|].
      split; simpl.
      * by eapply table_wf_ext; [| |exact Hwfc].
      * exact Hsz.
      * intros M. rewrite <- Hmin. by apply minor_size_ext.
      * exact Hmx.
      * exact Hsem.
      * exact Hpr.
      * intros M m HM' Hm'. rewrite (slot_at_ext cur) by done.
        rewrite Hsl by done.
        destruct (slot_at s0 M m) as [r|] eqn:Hr; [|done].
        rewrite elem_of_snoc_bool.
        destruct (decide (r = q)) as [->|Hrq].
        -- rewrite Hunused, (bool_decide_eq_false_2 (dd_uses dq = 0)) by done.
           by rewrite !andb_false_r.
        -- rewrite (bool_decide_eq_false_2 (r = q)) by done.
           by rewrite orb_false_r.
      * intros r. destruct (decide (r = q)) as [->|Hrq].
        -- rewrite lookup_insert_eq, elem_of_snoc_bool, Hchild, Hunused.
           rewrite (bool_decide_eq_true_2 (q = q)) by done.
           rewrite (bool_decide_eq_false_2 (dd_uses dq = 0)) by done.
           rewrite orb_true_r. simpl. by rewrite Hdq.
        -- rewrite lookup_insert_ne by done. rewrite Hheap.
           rewrite elem_of_snoc_bool.
           rewrite (bool_decide_eq_false_2 (r = q)) by done.
           by rewrite orb_false_r.
      * rewrite reclaimed_snoc, Hchild, Hunused.
        rewrite (bool_decide_eq_false_2 (dd_uses dq = 0)) by done. simpl.
        by rewrite app_nil_r.
      * rewrite reclaimed_snoc, Hchild, Hunused.
        rewrite (bool_decide_eq_false_2 (dd_uses dq = 0)) by done. simpl.
        by rewrite app_nil_r.
  - exists cur, count. split; [done|].
    split; [exact Hwfc|exact Hsz|exact Hmin|exact Hmx|exact Hsem|exact Hpr
           | | | |].
    + intros M m HM' Hm'. rewrite Hsl by done.
      destruct (slot_at s0 M m) as [r|] eqn:Hr; [|done].
      rewrite elem_of_snoc_bool.
      destruct (decide (r = q)) as [->|Hrq].
      * by rewrite Hchild, !andb_false_r.
      * rewrite (bool_decide_eq_false_2 (r = q)) by done.
        by rewrite orb_false_r.
    + intros r. rewrite Hheap, elem_of_snoc_bool.
      destruct (decide (r = q)) as [->|Hrq].
      * by rewrite Hchild, !andb_false_r.
      * rewrite (bool_decide_eq_false_2 (r = q)) by done.
        by rewrite orb_false_r.
    + by rewrite reclaimed_snoc, Hchild, app_nil_r.
    + by rewrite reclaimed_snoc, Hchild, app_nil_r.
Qed.


(** The inner loop over one major number. *)
Lemma cleanup_major_scanned major cur count :
  0 ≤ major < disktab_size s0 →
  scanned s0 pp (slots_before s0 major 0) cur count →
  ∃ cur' count',
    cleanup_major (dd_dev pd0) pp major (cur, count) = Ok (cur', count')
    ∧ scanned s0 pp (slots_before s0 (major + 1) 0) cur' count'.
Proof.
  intros HM Hsc. rewrite slots_before_next by done.
  pose proof (sc_wf _ _ _ _ _ Hsc) as Hwfc.
  destruct (table_at_lt cur major Hwfc) as (dtab & Hd & _);
    [rewrite (sc_size _ _ _ _ _ Hsc); lia|].
  assert (Hms : dt_size dtab = minor_size s0 major).
  { rewrite <- (sc_minor _ _ _ _ _ Hsc). unfold minor_size. by rewrite Hd. }
  pose proof (minor_size_nonneg s0 major Hwf (proj1 HM)) as Hnn.
  unfold cleanup_major. simpl fst.
  rewrite (read_dtab_Some cur major dtab) by done. simpl.
  destruct (for_loop_inv
              (λ j s, scanned s0 pp (slots_before s0 major j) (fst s) (snd s))
              (cleanup_slot (dd_dev pd0) pp major)
              (Z.to_nat (dt_size dtab)) 0 (cur, count))
    as ([cur' count'] & Hrun & Hinv).
  { done. }
  { intros j [c n] Hj Hinv. simpl in Hinv.
    destruct (cleanup_slot_scanned major j c n) as (c' & n' & Hstep & Hsc');
      [done|lia|done|].
    by exists (c', n'). }
  exists cur', count'. split; [done|]. simpl in Hinv.
  by replace (0 + Z.of_nat (Z.to_nat (dt_size dtab)))
    with (minor_size s0 major) in Hinv by lia.
Qed.

Lemma scanned_start : scanned s0 pp [] s0 0.
Proof.
  split; try done.
  - intros M m _ _. by destruct (slot_at s0 M m).
  - by rewrite app_nil_r.
Qed.

(** The whole scan. *)
Lemma cleanup_scan_scanned :
  ∃ cur count,
    for_loop (Z.to_nat (disktab_size s0)) 0 (cleanup_major (dd_dev pd0) pp)
      (s0, 0) = Ok (cur, count)
    ∧ scanned s0 pp (all_slots s0) cur count.
Proof.
  pose proof Hwf as (_ & _ & _ & Hsz & _)%table_wf_live.
  destruct (for_loop_inv
              (λ M s, scanned s0 pp (slots_before s0 M 0) (fst s) (snd s))
              (cleanup_major (dd_dev pd0) pp)
              (Z.to_nat (disktab_size s0)) 0 (s0, 0))
    as ([cur count] & Hrun & Hinv).
  { simpl. rewrite slots_before_start. apply scanned_start. }
  { intros M [c n] HM Hinv. simpl in Hinv.
    destruct (cleanup_major_scanned M c n) as (c' & n' & Hstep & Hsc');
      [lia|done|].
    by exists (c', n'). }
  exists cur, count. split; [done|]. simpl in Hinv. unfold all_slots.
  by replace (0 + Z.of_nat (Z.to_nat (disktab_size s0)))
    with (disktab_size s0) in Hinv by lia.
Qed.

End Cascade.

(** The registry at the start of the scan for the physical disk [pp]:
    the lock is held and [pp] is marked deleted. *)
Lemma scan_start_wf st dev pp pd :
  registry_wf st → slot_of st dev = Some pp → heap st !! pp = Some pd →
  dd_phys_dev pd = Some pp →
  table_wf (scanning st (<[pp := set_deleted true pd]> (heap st)))
  ∧ slots_ok (scanning st (<[pp := set_deleted true pd]> (heap st)))
  ∧ slot_of (scanning st (<[pp := set_deleted true pd]> (heap st)))
      (dd_dev (set_deleted true pd)) = Some pp
  ∧ 0 ≤ dd_uses pd < 2 ^ 32.
Proof.
  intros [Hwf Hlock Hslots] Hs Hpd Hphys.
  destruct (slots_ok_slot_of _ _ _ Hslots Hs)
    as (pd0 & Hpd0 & Hdev & Hu & _ & q & o & Hq & Ho & _ & Hoslot).
  rewrite Hpd in Hpd0. injection Hpd0 as <-.
  rewrite Hphys in Hq. injection Hq as <-.
  rewrite Hpd in Ho. injection Ho as <-.
  split; [by eapply table_wf_ext; [| |exact Hwf]|].
  split.
  - rewrite <- store_scanning.
    by apply (slots_ok_store _ pp pd).
  - split; [|done]. unfold slot_of in *. simpl.
    by rewrite (slot_at_ext st).
Qed.

Lemma u32_minus_u32 a b : u32 (a - u32 b) = u32 (a - b).
Proof. unfold u32. apply Zminus_mod_idemp_r. Qed.

(** The deletion of a live physical disk, in terms of the scan. *)
Lemma delete_physical_run st dev pp pd h :
  registry_wf st → slot_of st dev = Some pp → heap st !! pp = Some pd →
  dd_deleted pd = false → dd_phys_dev pd = Some pp → dd_ioctl pd = Some h →
  ∃ cur count st',
    scanned (scanning st (<[pp := set_deleted true pd]> (heap st))) pp
      (all_slots st) cur count
    ∧ rtems_disk_delete dev st = Ok (RTEMS_SUCCESSFUL, st')
    ∧ table_wf st' ∧ lock_free st'
    ∧ (∀ M m, 0 ≤ M → 0 ≤ m →
         slot_at st' M m
         = if decide (u32 (dd_uses pd - count) = 0
                      ∧ M = major_of dev ∧ m = minor_of dev)
           then None else slot_at cur M m)
    ∧ heap st'
      = (if decide (u32 (dd_uses pd - count) = 0) then delete pp (heap cur)
         else <[pp := set_deleted true
                        (set_uses (u32 (dd_uses pd - count)) pd)]> (heap cur))
    ∧ trace st'
      = trace cur
        ++ (if decide (u32 (dd_uses pd - count) = 0)
            then EvIoctl (Some h) pp RTEMS_BLKIO_DELETED
                 :: match dd_name pd with
                    | Some n => [EvUnlink n]
                    | None => []
                    end
            else []).
Proof.
  intros Hreg Hs Hpd Hlive Hphys Hio.
  destruct (scan_start_wf st dev pp pd Hreg Hs Hpd Hphys)
    as (Hwf0 & Hslots0 & Hpp0 & Hu).
  pose proof Hreg as [Hwf Hlock Hslots]. pose proof Hlock as [Hmx Hpr].
  pose proof (major_of_range dev) as HMr.
  pose proof (minor_of_range dev) as Hmr.
  set (s0 := scanning st (<[pp := set_deleted true pd]> (heap st))) in *.
  assert (Hpd0 : heap s0 !! pp = Some (set_deleted true pd))
    by apply lookup_insert_eq.
  destruct (cleanup_scan_scanned s0 pp (set_deleted true pd) Hwf0 Hslots0
              Hpp0 Hpd0) as (cur & count & Hscan & Hsc).
  pose proof Hsc as [Hwfc Hsz Hmin Hmxc Hsemc Hprc Hsl Hheap Hcnt Htr].
  assert (Hcpp : heap cur !! pp = Some (set_deleted true pd)).
  { rewrite Hheap, (owner_not_child s0 pp pp (set_deleted true pd)) by done.
    by rewrite andb_false_r. }
  exists cur, count.
  rewrite (delete_found dev st pp pd) by done. fold s0.
  unfold rtems_disk_cleanup.
  rewrite (deref_Some s0 pp (set_deleted true pd)) by done.
  simpl. rewrite Hphys. unfold deref_opt.
  rewrite (deref_Some s0 pp (set_deleted true pd)) by done.
  simpl. simpl in Hscan. rewrite Hscan. simpl.
  rewrite (deref_Some cur pp (set_deleted true pd)) by done. simpl.
  pose proof (split_installed st dev pp pd Hslots Hs Hpd) as Hsplit.
  rewrite split_eq in Hsplit. injection Hsplit as HMd Hmd.
  change (u32 (dd_dev pd `div` 2 ^ 32)) with (major_of (dd_dev pd)).
  change (u32 (dd_dev pd)) with (minor_of (dd_dev pd)).
  rewrite HMd, Hmd.
  destruct (decide (u32 (dd_uses pd - count) = 0)) as [Hz|Hnz].
  - rewrite bool_decide_eq_true_2 by done.
    unfold slot_of in Hs.
    destruct (slot_at_bounds _ _ _ _ Hwf (proj1 HMr) (proj1 Hmr) Hs)
      as [HMb Hmb].
    match goal with
    | |- context [write_slot ?s _ _ _] => set (cur1 := s)
    end.
    destruct (write_slot_spec cur1 (major_of dev) (minor_of dev) None)
      as (cur2 & Hw & Hwf2 & Hsame & Hsz2 & Hms2 & Hsl2).
    { by eapply table_wf_ext; [| |exact Hwfc]. }
    { change (disktab_size cur1) with (disktab_size cur).
      rewrite Hsz. simpl. lia. }
    { rewrite (minor_size_ext cur) by done. rewrite Hmin.
      rewrite (minor_size_ext st) by done. lia. }
    destruct Hsame as (Hheap2 & Hmx2 & Hsem2 & Hpr2 & Htr2).
    rewrite Hw. simpl. unfold free_disk_device.
    rewrite (deref_Some cur2 pp
               (set_uses (u32 (dd_uses pd - count)) (set_deleted true pd)))
      by (rewrite Hheap2; apply lookup_insert_eq).
    simpl. unfold is_physical_disk. simpl. rewrite Hphys.
    rewrite bool_decide_eq_true_2 by done. rewrite Hio. simpl.
    set (cur3 := match dd_name pd with
                 | Some n =>
                     log_event (EvUnlink n)
                       (log_event (EvIoctl (Some h) pp RTEMS_BLKIO_DELETED)
                          cur2)
                 | None =>
                     log_event (EvIoctl (Some h) pp RTEMS_BLKIO_DELETED) cur2
                 end).
    assert (Hcur3 : disktab cur3 = disktab cur2
                    ∧ disktab_size cur3 = disktab_size cur2
                    ∧ heap cur3 = heap cur2
                    ∧ diskdevs_mutex cur3 = diskdevs_mutex cur2
                    ∧ semaphores cur3 = semaphores cur2
                    ∧ trace cur3
                      = trace cur2
                        ++ EvIoctl (Some h) pp RTEMS_BLKIO_DELETED
                           :: match dd_name pd with
                              | Some n => [EvUnlink n]
                              | None => []
                              end).
    { unfold cur3. destruct (dd_name pd); simpl; split_and!; try done.
      by rewrite <- app_assoc. }
    destruct Hcur3 as (Hd3 & Hz3 & Hh3 & Hx3 & Hs3 & Ht3).
    clearbody cur3.
    simpl in Hmx2, Hsem2, Hheap2, Htr2.
    rewrite disk_unlock_held
      by (simpl; by rewrite Hx3, Hs3, Hmx2, Hsem2, Hmxc, Hsemc).
    eexists. split; [exact Hsc|]. split; [reflexivity|].
    split; [apply (table_wf_ext cur2); [exact Hd3|exact Hz3|exact Hwf2]|].
    split.
    { split; simpl; [|done]. by rewrite Hx3, Hs3, Hmx2, Hsem2, Hmxc, Hsemc. }
    split.
    { intros M m HM Hm. rewrite (slot_at_ext cur2) by exact Hd3.
      rewrite Hsl2 by done.
      destruct (decide (M = major_of dev ∧ m = minor_of dev)) as [[-> ->]|Hne].
      - by rewrite decide_True.
      - rewrite decide_False by tauto. by apply slot_at_ext. }
    simpl. rewrite Hh3, Hheap2, Ht3, Htr2. split; [|done].
    apply map_eq. intros r. destruct (decide (r = pp)) as [->|Hr].
    + by rewrite !lookup_delete_eq.
    + rewrite !lookup_delete_ne by done. by rewrite lookup_insert_ne.
  - rewrite bool_decide_eq_false_2 by done. simpl.
    rewrite disk_unlock_held by (simpl; by rewrite Hmxc, Hsemc).
    eexists. split; [exact Hsc|]. split; [reflexivity|].
    split; [by eapply table_wf_ext; [| |exact Hwfc]|].
    split; [split; simpl; [by rewrite Hmxc, Hsemc|done]|].
    split.
    { intros M m HM Hm. rewrite decide_False by tauto.
      by apply slot_at_ext. }
    simpl. split; [|by rewrite app_nil_r].
    f_equal; by destruct pd.
Qed.

Lemma is_child_ne st pp q : is_child st pp q = true → q ≠ pp.
Proof.
  unfold is_child. intros [Hne _]%andb_true_iff.
  by apply bool_decide_eq_true_1 in Hne.
Qed.

(** Marking [pp] deleted changes nothing about who is a logical disk of
    [pp], about the references to them, or about the calls their release
    makes. *)
Lemma scan_start_view st pp pd :
  heap st !! pp = Some pd →
  (∀ q, is_child (scanning st (<[pp := set_deleted true pd]> (heap st))) pp q
        = is_child st pp q)
  ∧ (∀ q, q ≠ pp →
       unused (scanning st (<[pp := set_deleted true pd]> (heap st))) q
       = unused st q)
  ∧ (∀ V, reclaimed (scanning st (<[pp := set_deleted true pd]> (heap st)))
            pp V = reclaimed st pp V)
  ∧ (∀ V, reclaimed st pp V
          ≫= free_events (scanning st (<[pp := set_deleted true pd]> (heap st)))
          = reclaimed st pp V ≫= free_events st).
Proof.
  intros Hpd.
  set (s0 := scanning st (<[pp := set_deleted true pd]> (heap st))).
  assert (Hlook : ∀ q, q ≠ pp → heap s0 !! q = heap st !! q)
    by (intros q Hq; by apply lookup_insert_ne).
  assert (Hchild : ∀ q, is_child s0 pp q = is_child st pp q).
  { intros q. unfold is_child. destruct (decide (q = pp)) as [->|Hq].
    - rewrite (bool_decide_eq_false_2 (pp ≠ pp)); [done|]. by intros [].
    - by rewrite Hlook. }
  assert (Hunused : ∀ q, q ≠ pp → unused s0 q = unused st q).
  { intros q Hq. unfold unused. by rewrite Hlook. }
  split; [done|]. split; [done|]. split.
  - intros V. unfold reclaimed. apply list_filter_iff. intros q.
    rewrite Hchild. destruct (is_child st pp q) eqn:E; [|done].
    by rewrite Hunused by (by apply is_child_ne in E).
  - intros V. apply Forall_bind_ext, Forall_forall. intros q Hq.
    apply list_elem_of_filter in Hq as [Hq _].
    apply andb_true_iff in Hq as [Hq _]. apply is_child_ne in Hq.
    unfold free_events. by rewrite Hlook.
Qed.

(** Deleting a live physical disk.  The scan reclaims every logical disk
    of the physical disk that nobody holds a reference to: its slot is
    cleared and its descriptor freed; the logical disks in use are marked
    deleted and stay.  The physical disk gives up one reference for each
    logical disk reclaimed; when none is left it is reclaimed as well, its
    driver is told and its name unlinked; otherwise it stays, marked
    deleted.  No other slot and no other descriptor changes. *)
Theorem rtems_disk_delete_physical st dev pp pd h :
  registry_wf st → slot_of st dev = Some pp → heap st !! pp = Some pd →
  dd_deleted pd = false → dd_phys_dev pd = Some pp → dd_ioctl pd = Some h →
  ∃ st' uses,
    rtems_disk_delete dev st = Ok (RTEMS_SUCCESSFUL, st')
    ∧ uses = u32 (dd_uses pd
                  - Z.of_nat (length (reclaimed st pp (all_slots st))))
    ∧ (∀ M m c, 0 ≤ M → 0 ≤ m →
         slot_at st M m = Some c → is_child st pp c = true →
         if unused st c
         then slot_at st' M m = None ∧ heap st' !! c = None
         else slot_at st' M m = Some c
              ∧ heap st' !! c = set_deleted true <$> heap st !! c)
    ∧ (if decide (uses = 0)
       then slot_of st' dev = None ∧ heap st' !! pp = None
       else slot_of st' dev = Some pp
            ∧ heap st' !! pp = Some (set_deleted true (set_uses uses pd)))
    ∧ (∀ M m c, 0 ≤ M → 0 ≤ m →
         slot_at st M m = Some c → c ≠ pp → is_child st pp c = false →
         slot_at st' M m = Some c)
    ∧ (∀ M m, 0 ≤ M → 0 ≤ m →
         slot_at st M m = None → slot_at st' M m = None)
    ∧ (∀ q, q ≠ pp → is_child st pp q = false ∨ q ∉ all_slots st →
         heap st' !! q = heap st !! q)
    ∧ trace st'
      = trace st
        ++ (reclaimed st pp (all_slots st) ≫= free_events st)
        ++ (if decide (uses = 0)
            then EvIoctl (Some h) pp RTEMS_BLKIO_DELETED
                 :: match dd_name pd with
                    | Some n => [EvUnlink n]
                    | None => []
                    end
            else [])
    ∧ table_wf st' ∧ lock_free st'
    ∧ (uses ≠ 0
       ∨ (∀ M m c, 0 ≤ M → 0 ≤ m →
            slot_at st M m = Some c → is_child st pp c = true →
            unused st c = true) →
       registry_wf st').
Proof.
  intros Hreg Hs Hpd Hlive Hphys Hio.
  destruct (delete_physical_run st dev pp pd h)
    as (cur & count & st' & Hsc & Hrun & Hwf' & Hlock' & Hsl' & Hheap' & Htr');
    try done.
  destruct (scan_start_view st pp pd Hpd)
    as (Hchild & Hunused & Hrecl & Hev).
  pose proof Hreg as [Hwf Hlock Hslots].
  pose proof (major_of_range dev) as HMr.
  pose proof (minor_of_range dev) as Hmr.
  set (s0 := scanning st (<[pp := set_deleted true pd]> (heap st))) in *.
  destruct Hsc as [_ _ _ _ _ _ Hsl Hheap Hcnt Htr].
  set (V := all_slots st) in *.
  rewrite Hrecl in Hcnt, Htr. rewrite Hev in Htr.
  assert (Hu : u32 (dd_uses pd - count)
               = u32 (dd_uses pd - Z.of_nat (length (reclaimed st pp V))))
    by (by rewrite Hcnt, u32_minus_u32).
  rewrite Hu in Hsl', Hheap', Htr'.
  set (uses := u32 (dd_uses pd - Z.of_nat (length (reclaimed st pp V)))) in *.
  assert (Hurange : 0 ≤ uses < 2 ^ 32) by apply u32_range.
  clearbody uses.
  assert (Hcur_sl : ∀ M m, 0 ≤ M → 0 ≤ m →
            slot_at cur M m
            = match slot_at st M m with
              | Some q =>
                  if bool_decide (q ∈ V) && is_child st pp q && unused s0 q
                  then None else Some q
              | None => None
              end).
  { intros M m HM Hm. rewrite Hsl by done.
    rewrite (slot_at_ext st s0) by done.
    destruct (slot_at st M m) as [q|]; [|done]. by rewrite Hchild. }
  assert (Hcur_heap : ∀ q, q ≠ pp →
            heap st' !! q
            = if bool_decide (q ∈ V) && is_child st pp q then
                if unused st q then None else set_deleted true <$> heap st !! q
              else heap st !! q).
  { intros q Hq.
    assert (heap st' !! q = heap cur !! q) as ->.
    { rewrite Hheap'. destruct (decide (uses = 0)).
      - by rewrite lookup_delete_ne.
      - by rewrite lookup_insert_ne. }
    rewrite Hheap, Hchild, Hunused by done.
    assert (heap s0 !! q = heap st !! q) as ->
      by (by apply lookup_insert_ne).
    done. }
  assert (Hother : ∀ M m c, 0 ≤ M → 0 ≤ m → slot_at st M m = Some c →
            c ≠ pp → slot_at st' M m = slot_at cur M m).
  { intros M m c HM Hm Hc Hne. rewrite Hsl' by done.
    rewrite decide_False; [done|]. intros (_ & -> & ->).
    unfold slot_of in Hs. congruence. }
  assert (Hkids : ∀ M m c, 0 ≤ M → 0 ≤ m →
            slot_at st M m = Some c → is_child st pp c = true →
            if unused st c
            then slot_at st' M m = None ∧ heap st' !! c = None
            else slot_at st' M m = Some c
                 ∧ heap st' !! c = set_deleted true <$> heap st !! c).
  { intros M m c HM Hm Hc Hch.
    pose proof (is_child_ne _ _ _ Hch) as Hne.
    pose proof (all_slots_elem st M m c Hwf HM Hm Hc) as Hin. fold V in Hin.
    rewrite (Hother M m c), Hcur_sl, Hc, (Hcur_heap c) by done.
    rewrite (bool_decide_eq_true_2 (c ∈ V)), Hch, Hunused by done. simpl.
    by destruct (unused st c). }
  assert (Hself : if decide (uses = 0)
            then slot_of st' dev = None ∧ heap st' !! pp = None
            else slot_of st' dev = Some pp
                 ∧ heap st' !! pp
                   = Some (set_deleted true (set_uses uses pd))).
  { unfold slot_of in *. rewrite Hsl' by lia. rewrite Hheap'.
    assert (Hcpp : slot_at cur (major_of dev) (minor_of dev) = Some pp).
    { rewrite Hcur_sl, Hs by lia. unfold is_child.
      rewrite (bool_decide_eq_false_2 (pp ≠ pp)); [|by intros []].
      by rewrite andb_false_r. }
    destruct (decide (uses = 0)) as [Hz|Hnz].
    - rewrite decide_True by done. by rewrite lookup_delete_eq.
    - rewrite decide_False by tauto. by rewrite lookup_insert_eq. }
  assert (Hrest : ∀ M m c, 0 ≤ M → 0 ≤ m →
            slot_at st M m = Some c → c ≠ pp → is_child st pp c = false →
            slot_at st' M m = Some c).
  { intros M m c HM Hm Hc Hne Hch.
    rewrite (Hother M m c), Hcur_sl, Hc by done.
    by rewrite Hch, andb_false_r. }
  assert (Hempty : ∀ M m, 0 ≤ M → 0 ≤ m →
            slot_at st M m = None → slot_at st' M m = None).
  { intros M m HM Hm Hnone. rewrite Hsl' by done.
    destruct (decide (uses = 0 ∧ M = major_of dev ∧ m = minor_of dev));
      [done|].
    by rewrite Hcur_sl, Hnone. }
  assert (Hheap_rest : ∀ q, q ≠ pp →
            is_child st pp q = false ∨ q ∉ all_slots st →
            heap st' !! q = heap st !! q).
  { intros q Hq Hcase. rewrite Hcur_heap by done.
    destruct Hcase as [->|Hnin]; [by rewrite andb_false_r|].
    by rewrite (bool_decide_eq_false_2 (q ∈ V)). }
  exists st', uses. split; [exact Hrun|]. split; [done|].
  split; [exact Hkids|]. split; [exact Hself|]. split; [exact Hrest|].
  split; [exact Hempty|]. split; [exact Hheap_rest|].
  split; [by rewrite Htr', Htr, <- app_assoc|].
  split; [done|]. split; [done|].
  intros Hcond. split; [done|done|].
  intros M m c HM Hm Hc.
  destruct (slot_at st M m) as [c0|] eqn:Hc0;
    [|by rewrite (Hempty M m) in Hc].
  pose proof (Hslots M m c0 HM Hm Hc0) as Hok. unfold slot_ok in Hok.
  destruct (heap st !! c0) as [dc|] eqn:Hdc; [|done].
  destruct Hok as (Hdev & Huses & Hsize & Hown).
  destruct (dd_phys_dev dc) as [o|] eqn:Ho; [|done].
  destruct (heap st !! o) as [od|] eqn:Hod; [|done].
  destruct Hown as [Hophys Hoslot].
  destruct (slots_ok_slot_of _ _ _ Hslots Hs)
    as (pd1 & Hpd1 & Hpdev & _ & Hpsize & _).
  rewrite Hpd in Hpd1. injection Hpd1 as <-.
  assert (Hpp_ok : uses ≠ 0 →
            heap st' !! pp = Some (set_deleted true (set_uses uses pd))
            ∧ slot_of st' (dd_dev pd) = Some pp).
  { intros Hnz. destruct (decide (uses = 0)) as [|_]; [done|].
    destruct Hself as [Hself_sl Hself_heap]. split; [done|].
    pose proof (split_installed st dev pp pd Hslots Hs Hpd) as Hsplit.
    rewrite split_eq in Hsplit. injection Hsplit as HMd Hmd.
    unfold slot_of in *. by rewrite HMd, Hmd. }
  destruct (decide (c0 = pp)) as [->|Hne].
  - assert (M = major_of dev ∧ m = minor_of dev) as [-> ->]
      by (eapply (slot_unique st _ _ _ _ pp); try done; lia).
    assert (Hnz : uses ≠ 0).
    { intros Hz. destruct (decide (uses = 0)) as [_|]; [|done].
      destruct Hself as [Hself_sl _]. unfold slot_of in Hself_sl.
      congruence. }
    destruct (Hpp_ok Hnz) as [Hpp_heap Hpp_slot].
    assert (c = pp) as ->.
    { destruct (decide (uses = 0)) as [|_]; [done|].
      destruct Hself as [Hself_sl _]. unfold slot_of in Hself_sl.
      congruence. }
    unfold slot_ok. rewrite Hpp_heap. simpl. rewrite Hphys, Hpp_heap. simpl.
    split_and!; try done; lia.
  - destruct (is_child st pp c0) eqn:Hch.
    + pose proof (Hkids M m c0 HM Hm Hc0 Hch) as Hkid.
      destruct (unused st c0) eqn:Hun.
      { destruct Hkid as [Hkid _]. congruence. }
      destruct Hkid as [Hkid_sl Hkid_heap].
      rewrite Hkid_sl in Hc. injection Hc as <-.
      assert (Hnz : uses ≠ 0).
      { destruct Hcond as [|Hall]; [done|].
        rewrite (Hall M m c0) in Hun; done. }
      assert (o = pp) as ->.
      { unfold is_child in Hch. rewrite Hdc in Hch.
        apply andb_true_iff in Hch as [_ Hpar].
        apply bool_decide_eq_true_1 in Hpar. congruence. }
      destruct (Hpp_ok Hnz) as [Hpp_heap Hpp_slot].
      unfold slot_ok. rewrite Hkid_heap, Hdc. simpl.
      rewrite Ho, Hpp_heap. simpl.
      split_and!; try done; lia.
    + rewrite (Hrest M m c0) in Hc by done. injection Hc as <-.
      assert (Hop : o ≠ pp).
      { intros ->. unfold is_child in Hch. rewrite Hdc, Ho in Hch.
        rewrite (bool_decide_eq_true_2 (c0 ≠ pp)) in Hch by done.
        by rewrite (bool_decide_eq_true_2 (Some pp = Some pp)) in Hch. }
      assert (Hoch : is_child st pp o = false).
      { unfold is_child. rewrite Hod, Hophys.
        rewrite (bool_decide_eq_false_2 (Some o = Some pp)) by congruence.
        apply andb_false_r. }
      unfold slot_ok. rewrite (Hheap_rest c0), Hdc by (done || by left).
      rewrite Ho, (Hheap_rest o), Hod by (done || by left).
      split_and!; try done; try lia.
      unfold slot_of in *.
      apply (Hrest _ _ o); try done.
      * apply major_of_range.
      * apply minor_of_range.
Qed.

Lemma rtems_disk_delete_physical_witness :
  registry_wf family_mixed
  ∧ ∃ st' uses,
      rtems_disk_delete (rtems_filesystem_make_dev_t 1 0) family_mixed
      = Ok (RTEMS_SUCCESSFUL, st')
      ∧ uses = 1
      ∧ slot_at st' 2 0 = None ∧ heap st' !! 2%positive = None
      ∧ slot_at st' 2 1 = Some 3%positive
      ∧ slot_of st' (rtems_filesystem_make_dev_t 1 0) = Some 1%positive
      ∧ registry_wf st'.
Proof.
  assert (Hwf : registry_wf family_mixed) by by_checker.
  split; [exact Hwf|].
  destruct (rtems_disk_delete_physical family_mixed
              (rtems_filesystem_make_dev_t 1 0) 1%positive
              (mk_disk_device (rtems_filesystem_make_dev_t 1 0)
                 (Some 1%positive) 0 None 2 0 1000 512 512 (Some 7) 0 false)
              7 Hwf)
    as (st' & uses & Hrun & Huses & Hkids & Hself & _ & _ & _ & _ & _ & _
        & Hwf');
    [vm_compute; reflexivity|vm_compute; reflexivity|done|done|done|].
  assert (Hone : uses = 1) by (rewrite Huses; vm_compute; reflexivity).
  pose proof (Hkids 2 0 2%positive ltac:(lia) ltac:(lia)
                ltac:(vm_compute; reflexivity)
                ltac:(vm_compute; reflexivity)) as Hfirst.
  assert (Hun1 : unused family_mixed 2%positive = true)
    by (vm_compute; reflexivity).
  rewrite Hun1 in Hfirst.
  pose proof (Hkids 2 1 3%positive ltac:(lia) ltac:(lia)
                ltac:(vm_compute; reflexivity)
                ltac:(vm_compute; reflexivity)) as Hsecond.
  assert (Hun2 : unused family_mixed 3%positive = false)
    by (vm_compute; reflexivity).
  rewrite Hun2 in Hsecond.
  destruct (decide (uses = 0)) as [Hz|Hnz]; [lia|].
  exists st', uses. split; [exact Hrun|]. split; [exact Hone|].
  split; [apply Hfirst|]. split; [apply Hfirst|]. split; [apply Hsecond|].
  split; [apply Hself|]. apply Hwf'. by left.
Defined.

(** ** Creation and deletion together *)

(** Creating a physical disk and deleting it right away gives back the
    heap and every slot as they were before; the tables keep the capacity
    they have grown to.  In between, the driver has been asked for its
    capabilities and told of the deletion, and the name, if there is one,
    has been registered and unlinked. *)
Theorem create_phys_delete_round_trip env dev block_size block_count handler
    driver_data name st :
  registry_wf st → 0 ≤ dev < 2 ^ 64 → is_u32 block_count →
  handler ≠ None → block_size ≠ 0 →
  addressable dev → slot_of st dev = None →
  allocations_succeed env st dev name →
  ∃ p st1 st2,
    rtems_disk_create_phys env dev block_size block_count handler driver_data
      name st = Ok (RTEMS_SUCCESSFUL, st1)
    ∧ rtems_disk_delete dev st1 = Ok (RTEMS_SUCCESSFUL, st2)
    ∧ heap st2 = heap st
    ∧ (∀ M m, 0 ≤ M → 0 ≤ m → slot_at st2 M m = slot_at st M m)
    ∧ trace st2 =
        trace st
        ++ match name with
           | Some n => [EvRegisterName n (major_of dev) (minor_of dev)]
           | None => []
           end
        ++ [EvIoctl handler p RTEMS_BLKDEV_CAPABILITIES;
            EvIoctl handler p RTEMS_BLKIO_DELETED]
        ++ match name with
           | Some n => [EvUnlink n]
           | None => []
           end
    ∧ registry_wf st2.
Proof.
  intros Hreg Hdev Hcount Hh Hbs Haddr Hfree Halloc.
  pose proof Hreg as [Hwf Hlock Hslots].
  pose proof (major_of_range dev) as HMr.
  pose proof (minor_of_range dev) as Hmr.
  destruct (create_phys_success env dev block_size block_count handler
              driver_data name st)
    as (p & st1 & Hrun1 & Hp & Hheap1 & Hsl1 & Htr1 & Hreg1); try done.
  destruct handler as [h|]; [|done].
  set (d := mk_disk_device dev (Some p)
              (if bool_decide (fst (ioctl_capabilities env) < 0) then 0
               else snd (ioctl_capabilities env))
              name 0 0 block_count block_size block_size (Some h)
              driver_data false) in *.
  assert (Hd : heap st1 !! p = Some d)
    by (rewrite Hheap1; apply lookup_insert_eq).
  assert (Hs1 : slot_of st1 dev = Some p).
  { unfold slot_of. rewrite Hsl1 by lia. by rewrite decide_True. }
  destruct (delete_physical_run st1 dev p d h)
    as (cur & count & st2 & Hsc & Hrun2 & Hwf2 & Hlock2 & Hsl2 & Hheap2
        & Htr2); try done.
  destruct (scan_start_view st1 p d Hd) as (Hchild & _ & Hrecl & _).
  set (s0 := scanning st1 (<[p := set_deleted true d]> (heap st1))) in *.
  destruct Hsc as [_ _ _ _ _ _ Hsl Hheap Hcnt Htr].
  (* the new disk has no logical disk *)
  assert (Hnone : ∀ q, q ∈ all_slots st1 → is_child st1 p q = false).
  { intros q Hq.
    apply slots_before_elem in Hq as (M & m & HM & Hm & _ & Hq);
      [|destruct Hreg1 as [Hwf1 _ _];
        apply table_wf_live in Hwf1 as (_ & _ & _ & ? & _); lia].
    rewrite Hsl1 in Hq by done. unfold is_child.
    destruct (decide (M = major_of dev ∧ m = minor_of dev)).
    - injection Hq as <-.
      rewrite (bool_decide_eq_false_2 (p ≠ p)); [done|]. by intros [].
    - pose proof (Hslots M m q HM Hm Hq) as Hok. unfold slot_ok in Hok.
      destruct (heap st !! q) as [dq|] eqn:Hdq; [|done].
      destruct Hok as (_ & _ & _ & Hown).
      destruct (dd_phys_dev dq) as [o|] eqn:Ho; [|done].
      destruct (heap st !! o) as [od|] eqn:Hod; [|done].
      assert (q ≠ p) by congruence.
      rewrite Hheap1, lookup_insert_ne, Hdq, Ho by done.
      rewrite (bool_decide_eq_false_2 (Some o = Some p)) by congruence.
      apply andb_false_r. }
  assert (Hempty : reclaimed st1 p (all_slots st1) = []).
  { apply elem_of_nil_inv. intros q Hq.
    apply list_elem_of_filter in Hq as [Hq Hin].
    apply andb_true_iff in Hq as [Hq _]. by rewrite Hnone in Hq. }
  rewrite Hrecl, Hempty in Hcnt, Htr. simpl in Htr.
  rewrite app_nil_r in Htr.
  assert (Hzero : u32 (dd_uses d - count) = 0) by (by rewrite Hcnt).
  rewrite (decide_True (P := u32 (dd_uses d - count) = 0)) in Hheap2 by done.
  rewrite (decide_True (P := u32 (dd_uses d - count) = 0)) in Htr2 by done.
  assert (Hcur_heap : ∀ q, heap cur !! q = heap s0 !! q).
  { intros q. rewrite Hheap, Hchild.
    destruct (bool_decide_reflect (q ∈ all_slots st1)) as [Hin|Hin];
      [|done].
    by rewrite Hnone. }
  assert (Hcur_sl : ∀ M m, 0 ≤ M → 0 ≤ m →
            slot_at cur M m = slot_at st1 M m).
  { intros M m HM Hm. rewrite Hsl by done.
    rewrite (slot_at_ext st1 s0) by done.
    destruct (slot_at st1 M m) as [q|] eqn:Hq; [|done].
    rewrite Hchild, Hnone; [by rewrite andb_false_r|].
    destruct Hreg1 as [Hwf1 _ _]. by apply (all_slots_elem st1 M m q). }
  assert (Hheap_eq : heap st2 = heap st).
  { rewrite Hheap2. apply map_eq. intros q.
    destruct (decide (q = p)) as [->|Hq].
    - by rewrite lookup_delete_eq.
    - rewrite lookup_delete_ne, Hcur_heap by done.
      unfold s0. simpl. rewrite lookup_insert_ne by done.
      rewrite Hheap1. by rewrite lookup_insert_ne. }
  assert (Hsl_eq : ∀ M m, 0 ≤ M → 0 ≤ m → slot_at st2 M m = slot_at st M m).
  { intros M m HM Hm. rewrite Hsl2, Hcur_sl, Hsl1 by done.
    destruct (decide (M = major_of dev ∧ m = minor_of dev)) as [[-> ->]|Hne].
    - rewrite decide_True by (by split_and!). by unfold slot_of in Hfree.
    - by rewrite decide_False by tauto. }
  exists p, st1, st2. split; [exact Hrun1|]. split; [exact Hrun2|].
  split; [exact Hheap_eq|]. split; [exact Hsl_eq|].
  split.
  { rewrite Htr2, Htr. unfold s0. simpl. rewrite Htr1.
    rewrite <- !app_assoc. done. }
  split; [done|done|].
  by apply (slots_ok_ext st).
Qed.

Lemma create_phys_delete_round_trip_witness :
  registry_wf one_disk
  ∧ ∃ p st1 st2,
      rtems_disk_create_phys fair_weather (rtems_filesystem_make_dev_t 9 3)
        512 1000 (Some 7) 0 (Some "/dev/hdb"%string) one_disk
      = Ok (RTEMS_SUCCESSFUL, st1)
      ∧ rtems_disk_delete (rtems_filesystem_make_dev_t 9 3) st1
        = Ok (RTEMS_SUCCESSFUL, st2)
      ∧ heap st2 = heap one_disk
      ∧ (∀ M m, 0 ≤ M → 0 ≤ m → slot_at st2 M m = slot_at one_disk M m)
      ∧ trace st2 =
          trace one_disk
          ++ [EvRegisterName "/dev/hdb"%string 9 3;
              EvIoctl (Some 7) p RTEMS_BLKDEV_CAPABILITIES;
              EvIoctl (Some 7) p RTEMS_BLKIO_DELETED;
              EvUnlink "/dev/hdb"%string]
      ∧ registry_wf st2.
Proof.
  assert (Hwf : registry_wf one_disk) by by_checker.
  split; [exact Hwf|].
  destruct (create_phys_delete_round_trip fair_weather
              (rtems_filesystem_make_dev_t 9 3) 512 1000 (Some 7) 0
              (Some "/dev/hdb"%string) one_disk Hwf)
    as (p & st1 & st2 & Hrun1 & Hrun2 & Hheap & Hsl & Htr & Hwf2);
    [by vm_compute|by_decision|done|done|by_decision|by vm_compute
    |apply fair_weather_succeeds|].
  exists p, st1, st2. split_and!; try done.
Defined.

(** ** Shutdown *)

Lemma check_handlers_sound st : check_handlers st = true → handlers_ok st.
Proof.
  intros Hcheck M m q d HM Hm Hq Hd Hphys.
  pose proof (forall_slots_sound _ _ Hcheck M m q HM Hm Hq) as Htest.
  simpl in Htest. rewrite Hd in Htest.
  rewrite (bool_decide_eq_true_2 (dd_phys_dev d = Some q)) in Htest by done.
  simpl in Htest. by destruct (dd_ioctl d).
Qed.

Section Done.

Variable st : registry.
Hypothesis Hwf : table_wf st.
Hypothesis Hslots : slots_ok st.
Hypothesis Hhandlers : handlers_ok st.

(** One iteration of the inner loop of [rtems_disk_io_done]. *)
Lemma done_slot_freed major minor cur :
  0 ≤ major < disktab_size st → 0 ≤ minor < minor_size st major →
  freed st (slots_before st major minor) cur →
  ∃ cur',
    done_slot major minor cur = Ok cur'
    ∧ freed st (slots_before st major (minor + 1)) cur'.
Proof.
  intros HM Hm Hfr. rewrite slots_before_step by done.
  set (V := slots_before st major minor) in *.
  pose proof Hfr as [Htab Hsz Hmx Hsem Hpr Hheap Htr].
  assert (Hwfc : table_wf cur) by (by eapply table_wf_ext; [| |exact Hwf]).
  unfold done_slot.
  destruct (read_slot_at cur major minor Hwfc) as (dtab & -> & _ & _ & Hrs);
    [lia|rewrite (minor_size_ext st) by done; lia|].
  simpl. rewrite Hrs. simpl. rewrite (slot_at_ext st) by done.
  destruct (slot_at st major minor) as [q|] eqn:Hq.
  2: { exists cur. split; [done|]. by rewrite app_nil_r. }
  assert (Hfresh : q ∉ V) by (apply slots_before_fresh; try done; lia).
  pose proof (Hslots major minor q (proj1 HM) (proj1 Hm) Hq) as Hok.
  unfold slot_ok in Hok.
  destruct (heap st !! q) as [dq|] eqn:Hdq; [|done].
  assert (Hcq : heap cur !! q = Some dq).
  { rewrite Hheap. by rewrite (bool_decide_eq_false_2 (q ∈ V)). }
  unfold free_disk_device. rewrite (deref_Some cur q dq) by done. simpl.
  assert (Hio : ∃ cur1,
            (if is_physical_disk q dq then
               match dd_ioctl dq with
               | Some h =>
                   Ok (log_event (EvIoctl (Some h) q RTEMS_BLKIO_DELETED) cur)
               | None => Fault NullDeref
               end
             else Ok cur) = Ok cur1
            ∧ disktab cur1 = disktab cur
            ∧ disktab_size cur1 = disktab_size cur
            ∧ diskdevs_mutex cur1 = diskdevs_mutex cur
            ∧ semaphores cur1 = semaphores cur
            ∧ diskdevs_protected cur1 = diskdevs_protected cur
            ∧ heap cur1 = heap cur
            ∧ trace cur1
              = trace cur
                ++ (if is_physical_disk q dq
                    then [EvIoctl (dd_ioctl dq) q RTEMS_BLKIO_DELETED]
                    else [])).
  { destruct (is_physical_disk q dq) eqn:Hphys.
    - apply bool_decide_eq_true_1 in Hphys.
      pose proof (Hhandlers major minor q dq (proj1 HM) (proj1 Hm) Hq Hdq
                    Hphys) as Hh.
      destruct (dd_ioctl dq) as [h|]; [|done].
      eexists. split; [reflexivity|]. by split_and!.
    - exists cur. split_and!; try done. by rewrite app_nil_r. }
  destruct Hio as (cur1 & -> & Htab1 & Hsz1 & Hmx1 & Hsem1 & Hpr1 & Hheap1
                   & Htr1).
  simpl.
  set (cur2 := match dd_name dq with
               | Some n => log_event (EvUnlink n) cur1
               | None => cur1
               end).
  assert (Hcur2 : disktab cur2 = disktab cur1
                  ∧ disktab_size cur2 = disktab_size cur1
                  ∧ diskdevs_mutex cur2 = diskdevs_mutex cur1
                  ∧ semaphores cur2 = semaphores cur1
                  ∧ diskdevs_protected cur2 = diskdevs_protected cur1
                  ∧ heap cur2 = heap cur1
                  ∧ trace cur2
                    = trace cur1 ++ match dd_name dq with
                                    | Some n => [EvUnlink n]
                                    | None => []
                                    end).
  { unfold cur2. destruct (dd_name dq); simpl; split_and!; try done.
    by rewrite app_nil_r. }
  destruct Hcur2 as (Htab2 & Hsz2 & Hmx2 & Hsem2 & Hpr2 & Hheap2 & Htr2).
  clearbody cur2.
  eexists. split; [reflexivity|].
  split; simpl.
  - by rewrite Htab2, Htab1.
  - by rewrite Hsz2, Hsz1.
  - by rewrite Hmx2, Hmx1.
  - by rewrite Hsem2, Hsem1.
  - by rewrite Hpr2, Hpr1.
  - intros r. rewrite Hheap2, Hheap1, elem_of_snoc_bool.
    destruct (decide (r = q)) as [->|Hrq].
    + rewrite lookup_delete_eq, (bool_decide_eq_true_2 (q = q)) by done.
      by rewrite orb_true_r.
    + rewrite lookup_delete_ne, (bool_decide_eq_false_2 (r = q)) by done.
      by rewrite orb_false_r.
  - assert (Hev : free_events st q
                  = (if is_physical_disk q dq
                     then [EvIoctl (dd_ioctl dq) q RTEMS_BLKIO_DELETED]
                     else [])
                    ++ match dd_name dq with
                       | Some n => [EvUnlink n]
                       | None => []
                       end)
      by (unfold free_events; by rewrite Hdq).
    rewrite Htr2, Htr1, Htr, bind_app. simpl.
    by rewrite Hev, app_nil_r, <- !app_assoc.
Qed.

(** The inner loop over one major number. *)
Lemma done_major_freed major cur :
  0 ≤ major < disktab_size st →
  freed st (slots_before st major 0) cur →
  ∃ cur',
    done_major major cur = Ok cur'
    ∧ freed st (slots_before st (major + 1) 0) cur'.
Proof.
  intros HM Hfr. rewrite slots_before_next by done.
  destruct (table_at_lt st major Hwf HM) as (dtab & Hd & _).
  assert (Hms : dt_size dtab = minor_size st major)
    by (unfold minor_size; by rewrite Hd).
  pose proof (minor_size_nonneg st major Hwf (proj1 HM)) as Hnn.
  unfold done_major.
  rewrite (read_dtab_Some cur major dtab)
    by (rewrite (table_at_ext st); [done|apply Hfr]).
  simpl.
  destruct (for_loop_inv (λ j s, freed st (slots_before st major j) s)
              (done_slot major) (Z.to_nat (dt_size dtab)) 0 cur)
    as (cur' & Hrun & Hinv).
  { done. }
  { intros j s Hj Hinv. apply done_slot_freed; [done|lia|done]. }
  exists cur'. split; [done|].
  by replace (0 + Z.of_nat (Z.to_nat (dt_size dtab)))
    with (minor_size st major) in Hinv by lia.
Qed.

(** The whole scan. *)
Lemma done_scan_freed :
  ∃ cur,
    for_loop (Z.to_nat (disktab_size st)) 0 done_major st = Ok cur
    ∧ freed st (all_slots st) cur.
Proof.
  pose proof Hwf as (_ & _ & _ & Hsz & _)%table_wf_live.
  destruct (for_loop_inv (λ M s, freed st (slots_before st M 0) s)
              done_major (Z.to_nat (disktab_size st)) 0 st)
    as (cur & Hrun & Hinv).
  { rewrite slots_before_start. split; try done. by rewrite app_nil_r. }
  { intros M s HM Hinv. apply done_major_freed; [lia|done]. }
  exists cur. split; [done|]. unfold all_slots.
  by replace (0 + Z.of_nat (Z.to_nat (disktab_size st)))
    with (disktab_size st) in Hinv by lia.
Qed.

End Done.

(** [rtems_disk_io_done] frees every descriptor in the table, whether
    somebody holds a reference to it or not, tells the driver of every
    physical disk and unlinks every name, in the order of the table;
    descriptors that are in no slot stay.  It deletes the mutex and leaves
    the registry as it is before the first initialization: no table, size
    0, no mutex.  From then on a lookup finds nothing. *)
Theorem rtems_disk_io_done_resets st :
  registry_wf st → handlers_ok st →
  ∃ st',
    rtems_disk_io_done st = Ok (RTEMS_SUCCESSFUL, st')
    ∧ disktab st' = TabNull ∧ disktab_size st' = 0
    ∧ diskdevs_mutex st' = RTEMS_ID_NONE
    ∧ semaphores st' = semaphores st ∖ {[diskdevs_mutex st]}
    ∧ (∀ q, heap st' !! q
            = if bool_decide (q ∈ all_slots st) then None else heap st !! q)
    ∧ (∀ M m q, 0 ≤ M → 0 ≤ m → slot_at st M m = Some q →
         heap st' !! q = None)
    ∧ trace st' = trace st ++ (all_slots st ≫= free_events st)
    ∧ (∀ dev, rtems_disk_obtain dev st' = Ok (None, st')).
Proof.
  intros [Hwf Hlock Hslots] Hhandlers.
  destruct (done_scan_freed st Hwf Hslots Hhandlers) as (cur & Hrun & Hfr).
  destruct Hfr as [Htab Hsz Hmx Hsem Hpr Hheap Htr].
  unfold rtems_disk_io_done. rewrite Hrun. simpl.
  eexists. split; [reflexivity|]. simpl.
  split; [done|]. split; [done|]. split; [done|].
  split; [by rewrite Hsem, Hmx|].
  split; [exact Hheap|].
  split.
  { intros M m q HM Hm Hq. rewrite Hheap.
    rewrite bool_decide_eq_true_2; [done|].
    by apply (all_slots_elem st M m q). }
  split; [exact Htr|].
  intros dev. unfold rtems_disk_obtain. simpl.
  destruct Hlock as [_ Hfree]. rewrite Hpr, Hfree. simpl.
  unfold get_disk_entry. rewrite split_eq. simpl.
  pose proof (major_of_range dev).
  by rewrite (bool_decide_eq_false_2 (major_of dev < 0)) by lia.
Qed.

Lemma rtems_disk_io_done_resets_witness :
  registry_wf family_in_use ∧ handlers_ok family_in_use
  ∧ ∃ st',
      rtems_disk_io_done family_in_use = Ok (RTEMS_SUCCESSFUL, st')
      ∧ disktab st' = TabNull ∧ disktab_size st' = 0
      ∧ heap st' !! 1%positive = None
      ∧ heap st' !! 2%positive = None
      ∧ heap st' !! 3%positive = None
      ∧ rtems_disk_obtain (rtems_filesystem_make_dev_t 2 0) st'
        = Ok (None, st').
Proof.
  assert (Hwf : registry_wf family_in_use) by by_checker.
  assert (Hh : handlers_ok family_in_use)
    by (apply check_handlers_sound; vm_compute; reflexivity).
  split; [exact Hwf|]. split; [exact Hh|].
  destruct (rtems_disk_io_done_resets family_in_use Hwf Hh)
    as (st' & Hrun & Htab & Hsz & _ & _ & _ & Hgone & _ & Hfind).
  exists st'. split; [exact Hrun|]. split; [exact Htab|].
  split; [exact Hsz|].
  split; [apply (Hgone 1 0); [lia|lia|vm_compute; reflexivity]|].
  split; [apply (Hgone 2 0); [lia|lia|vm_compute; reflexivity]|].
  split; [apply (Hgone 2 1); [lia|lia|vm_compute; reflexivity]|].
  apply Hfind.
Defined.

(** ** Identifiers that designate no disk *)

(** The lookup finds nothing where the slot is empty or holds a descriptor
    marked deleted. *)
Lemma get_disk_entry_missing st dev :
  table_wf st →
  (slot_of st dev = None
   ∨ ∃ p d, slot_of st dev = Some p ∧ heap st !! p = Some d
            ∧ dd_deleted d = true) →
  get_disk_entry dev st = Ok (None, st).
Proof.
  intros Hwf Hmiss. rewrite get_disk_entry_spec by done.
  destruct Hmiss as [->|(p & d & -> & -> & ->)]; done.
Qed.

(** [rtems_disk_delete] on an identifier whose slot is empty, lies beyond
    the table, or holds a disk that is already marked deleted returns
    [RTEMS_INVALID_ID] and leaves the registry as it was: a disk is
    deleted once. *)
Theorem rtems_disk_delete_missing st dev :
  registry_wf st →
  (slot_of st dev = None
   ∨ ∃ p d, slot_of st dev = Some p ∧ heap st !! p = Some d
            ∧ dd_deleted d = true) →
  rtems_disk_delete dev st = Ok (RTEMS_INVALID_ID, st).
Proof.
  intros [Hwf Hlock _] Hmiss.
  apply delete_not_found; try done. by apply get_disk_entry_missing.
Qed.

Lemma rtems_disk_delete_missing_witness :
  registry_wf pending_disk
  ∧ rtems_disk_delete (rtems_filesystem_make_dev_t 3 5) pending_disk
    = Ok (RTEMS_INVALID_ID, pending_disk)
  ∧ rtems_disk_delete (rtems_filesystem_make_dev_t 1 0) pending_disk
    = Ok (RTEMS_INVALID_ID, pending_disk).
Proof.
  assert (Hwf : registry_wf pending_disk) by by_checker.
  split; [exact Hwf|]. split.
  - apply (rtems_disk_delete_missing pending_disk _ Hwf). left.
    vm_compute. reflexivity.
  - apply (rtems_disk_delete_missing pending_disk _ Hwf). right.
    eexists _, _. split; [vm_compute; reflexivity|].
    split; [vm_compute; reflexivity|reflexivity].
Defined.

(** [rtems_disk_create_log] needs a live physical disk.  When the
    identifier given for it designates nothing, a disk marked deleted, or
    a logical disk, the call returns [RTEMS_INVALID_ID] and leaves the
    registry as it was; in particular the reference the lookup took on a
    logical disk is given back. *)
Theorem rtems_disk_create_log_invalid_id env dev phys begin_block block_count
    name st :
  registry_wf st →
  (slot_of st phys = None
   ∨ ∃ pp pd, slot_of st phys = Some pp ∧ heap st !! pp = Some pd
              ∧ (dd_deleted pd = true ∨ dd_phys_dev pd ≠ Some pp)) →
  rtems_disk_create_log env dev phys begin_block block_count name st
  = Ok (RTEMS_INVALID_ID, st).
Proof.
  intros [Hwf Hlock Hslots] Hcase.
  destruct Hcase as [Hnone|(pp & pd & Hpp & Hpd & Hwhy)].
  - apply create_log_not_found; try done.
    apply get_disk_entry_missing; [done|by left].
  - destruct (dd_deleted pd) eqn:Hdel.
    + apply create_log_not_found; try done.
      apply get_disk_entry_missing; [done|]. right. by exists pp, pd.
    + destruct Hwhy as [|Hlog]; [done|].
      destruct (slots_ok_slot_of _ _ _ Hslots Hpp) as (pd0 & Hpd0 & _ & Hu & _).
      rewrite Hpd in Hpd0. injection Hpd0 as <-.
      by apply (create_log_on_logical env dev phys begin_block block_count
                  name st pp pd).
Qed.

Lemma rtems_disk_create_log_invalid_id_witness :
  registry_wf two_disks
  ∧ rtems_disk_create_log fair_weather (rtems_filesystem_make_dev_t 2 1)
      (rtems_filesystem_make_dev_t 2 0) 0 10 None two_disks
    = Ok (RTEMS_INVALID_ID, two_disks)
  ∧ rtems_disk_create_log fair_weather (rtems_filesystem_make_dev_t 2 1)
      (rtems_filesystem_make_dev_t 3 5) 0 10 None two_disks
    = Ok (RTEMS_INVALID_ID, two_disks).
Proof.
  assert (Hwf : registry_wf two_disks) by by_checker.
  split; [exact Hwf|]. split.
  - apply (rtems_disk_create_log_invalid_id _ _ _ _ _ _ two_disks Hwf).
    right. eexists _, _. split; [vm_compute; reflexivity|].
    split; [vm_compute; reflexivity|]. right. simpl. congruence.
  - apply (rtems_disk_create_log_invalid_id _ _ _ _ _ _ two_disks Hwf).
    left. vm_compute. reflexivity.
Defined.

(** ** Termination of the enumeration *)

(** More fuel does not change a result that was reached. *)
Lemma next_loop_more_fuel st fuel :
  ∀ major minor fuel',
    (fuel ≤ fuel')%nat →
    next_loop fuel st major minor ≠ Fault OutOfFuel →
    next_loop fuel' st major minor = next_loop fuel st major minor.
Proof.
  induction fuel as [|fuel IH]; intros major minor fuel' Hle Hres; [done|].
  destruct fuel' as [|fuel']; [lia|].
  simpl in *.
  destruct (next_dtab st major) as [dtab|]; [|done]. simpl in *.
  assert (Hadv :
    (if bool_decide (u32 (major + 1) >= disktab_size st) then Ok None
     else next_loop fuel st (u32 (major + 1)) 0) ≠ Fault OutOfFuel →
    (if bool_decide (u32 (major + 1) >= disktab_size st) then Ok None
     else next_loop fuel' st (u32 (major + 1)) 0)
    = (if bool_decide (u32 (major + 1) >= disktab_size st) then Ok None
       else next_loop fuel st (u32 (major + 1)) 0)).
  { destruct (bool_decide (u32 (major + 1) >= disktab_size st)); [done|].
    intros H. apply IH; [lia|done]. }
  destruct dtab as [dtab|]; [|by apply Hadv].
  destruct (bool_decide (minor > dt_size dtab)); [by apply Hadv|].
  destruct (read_slot dtab minor) as [[p|]|]; simpl in *; try done.
  apply IH; [lia|done].
Qed.

(** The loop of [rtems_disk_next] ends on every registry that has been
    initialized, after at most two iterations more than the table has
    slots and major numbers twice over: with the fuel [next_fuel] gives,
    the scan reaches a result, and with any more fuel it reaches the same
    one. *)
Theorem rtems_disk_next_fuel st dev :
  table_wf st →
  rtems_disk_next dev st ≠ Fault OutOfFuel
  ∧ ∀ fuel, (next_fuel st ≤ fuel)%nat →
      (let dev := u64 (dev + 1) in
       if bool_decide (major_of dev >= disktab_size st) then Ok None
       else next_loop fuel st (major_of dev) (minor_of dev))
      = rtems_disk_next dev st.
Proof.
  intros Hwf.
  assert (Hend : rtems_disk_next dev st ≠ Fault OutOfFuel)
    by (by apply rtems_disk_next_terminates).
  split; [done|]. intros fuel Hfuel.
  unfold rtems_disk_next in *. rewrite split_eq in *. simpl.
  destruct (bool_decide (major_of (u64 (dev + 1)) >= disktab_size st));
    [done|].
  by apply next_loop_more_fuel.
Qed.

Lemma rtems_disk_next_fuel_witness :
  table_wf one_disk
  ∧ rtems_disk_next (rtems_filesystem_make_dev_t 0 5) one_disk
    ≠ Fault OutOfFuel.
Proof.
  assert (Hwf : table_wf one_disk) by by_decision.
  split; [exact Hwf|].
  apply (proj1 (rtems_disk_next_fuel one_disk
                  (rtems_filesystem_make_dev_t 0 5) Hwf)).
Defined.
